(** * OpenBusinessRepository (tools/obr.py): a shallow embedding

    The module processes one dataset at a time.  A [Source] holds the parsed
    JSON metadata document; [Source.parse] validates it; the [Algorithm]
    classes detect the character encoding, repair ragged CSV rows, build the
    label map and transform the records into standardized rows.

    Python values are embedded as follows:
    - [str] is a sequence of Unicode code points, [pystr := list N];
    - the object produced by [json.load] is the inductive [json]; a dict is an
      association list in insertion order, looked up by its first binding;
    - a raised exception is the [Raise] case of [result];
    - file effects are a trace of [event]s, replayed on a small file store. *)

From Stdlib Require Import String Ascii NArith ZArith Bool Arith Lia List.
Import ListNotations.

Set Implicit Arguments.

(* ------------------------------------------------------------------ *)
(** ** Python strings *)

Definition pystr := list N.

(** A source literal: the code points of an ASCII literal of the module. *)
Definition py (s : string) : pystr := map N_of_ascii (list_ascii_of_string s).

Fixpoint eqb_str (a b : pystr) : bool :=
  match a, b with
  | [], [] => true
  | x :: a', y :: b' => N.eqb x y && eqb_str a' b'
  | _, _ => false
  end.

(** [x in l] for a list of strings. *)
Definition mem_str (x : pystr) (l : list pystr) : bool := existsb (eqb_str x) l.

Fixpoint is_prefix (p s : pystr) : bool :=
  match p, s with
  | [], _ => true
  | x :: p', y :: s' => N.eqb x y && is_prefix p' s'
  | _ :: _, [] => false
  end.

(** [p in s] for two strings: substring test. *)
Fixpoint is_substring (p s : pystr) : bool :=
  is_prefix p s || match s with [] => false | _ :: s' => is_substring p s' end.

(** [s.split(c)] for a one-character separator: never the empty list. *)
Fixpoint split_on (c : N) (s : pystr) : list pystr :=
  match s with
  | [] => [[]]
  | x :: s' =>
      if N.eqb x c then [] :: split_on c s'
      else match split_on c s' with
           | [] => [[x]]
           | w :: ws => (x :: w) :: ws
           end
  end.

(** [sep.join(l)]. *)
Fixpoint join_with (sep : pystr) (l : list pystr) : pystr :=
  match l with
  | [] => []
  | [w] => w
  | w :: ws => w ++ sep ++ join_with sep ws
  end.

(* ------------------------------------------------------------------ *)
(** ** Exceptions *)

(** The exception classes the module raises or meets.  [KeyError] and
    [IndexError] are subclasses of [LookupError] in Python; the module raises
    [LookupError] itself for missing tags and catches [KeyError] only. *)
Inductive exn : Set :=
| LookupError | KeyError | IndexError | TypeError | ValueError
| NameError | AttributeError | RuntimeError | UnicodeDecodeError.

Inductive result (A : Type) : Type :=
| Ok (a : A)
| Raise (e : exn).
Arguments Raise {A} e.

Definition bind {A B} (m : result A) (k : A -> result B) : result B :=
  match m with
  | Ok a => k a
  | Raise e => Raise e
  end.

Notation "x <- m ;; k" := (bind m (fun x => k))
  (at level 61, m at next level, right associativity).
Notation "m ;;; k" := (bind m (fun _ => k))
  (at level 61, right associativity).

(** [if c: raise e]. *)
Definition raise_if (c : bool) (e : exn) : result unit :=
  if c then Raise e else Ok tt.

(** [for x in l: body(x)], stopping at the first exception. *)
Fixpoint for_each {A} (l : list A) (body : A -> result unit) : result unit :=
  match l with
  | [] => Ok tt
  | x :: l' => body x ;;; for_each l' body
  end.

(* ------------------------------------------------------------------ *)
(** ** JSON values, as [json.load] returns them *)

#[local] Set Warnings "-register-all".

Inductive json : Type :=
| JNull
| JBool (b : bool)
| JNum (z : Z)
| JStr (s : pystr)
| JArr (l : list json)
| JObj (d : list (pystr * json)).

Definition dict := list (pystr * json).

Definition keys {V} (d : list (pystr * V)) : list pystr := map fst d.

Fixpoint lookup {V} (k : pystr) (d : list (pystr * V)) : option V :=
  match d with
  | [] => None
  | (k', v) :: d' => if eqb_str k k' then Some v else lookup k d'
  end.

Definition has_key {V} (k : pystr) (d : list (pystr * V)) : bool :=
  mem_str k (keys d).

(** [isinstance(v, str)], [isinstance(v, dict)], [isinstance(v, list)]. *)
Definition is_str (v : json) : bool := match v with JStr _ => true | _ => false end.
Definition is_dict (v : json) : bool := match v with JObj _ => true | _ => false end.
Definition is_list (v : json) : bool := match v with JArr _ => true | _ => false end.

(** [v == 'literal'] for a string literal. *)
Definition eq_lit (v : json) (s : pystr) : bool :=
  match v with JStr t => eqb_str t s | _ => false end.

(** [k in v]: key membership for a dict, element membership for a list,
    substring for a string, [TypeError] for anything else. *)
Definition py_in (k : pystr) (v : json) : result bool :=
  match v with
  | JObj d => Ok (has_key k d)
  | JArr l => Ok (existsb (fun x => eq_lit x k) l)
  | JStr s => Ok (is_substring k s)
  | _ => Raise TypeError
  end.

(** [v[k]] for a string [k]: only a dict can be subscripted by a string. *)
Definition py_getitem (v : json) (k : pystr) : result json :=
  match v with
  | JObj d => match lookup k d with Some x => Ok x | None => Raise KeyError end
  | _ => Raise TypeError
  end.

(** [for i in v] over a dict iterates its keys. *)
Definition dict_keys (v : json) : list pystr :=
  match v with JObj d => keys d | _ => [] end.

(* ------------------------------------------------------------------ *)
(** ** Class constants of [Algorithm] *)

Definition FIELD_LABEL : list pystr :=
  map py
    ["bus_name"; "trade_name"; "bus_type"; "bus_no"; "bus_desc";
     "lic_type"; "lic_no"; "bus_start_date"; "bus_cease_date"; "active";
     "full_addr";
     "house_number"; "road"; "postcode"; "unit"; "city"; "prov"; "country";
     "phone"; "fax"; "email"; "website"; "tollfree";
     "comdist"; "region";
     "longitude";
     "latitude";
     "no_employed"; "no_seasonal_emp"; "no_full_emp"; "no_part_emp"; "emp_range";
     "home_bus"; "munic_bus"; "nonres_bus";
     "exports"; "exp_cn_1"; "exp_cn_2"; "exp_cn_3";
     "naics_2"; "naics_3"; "naics_4"; "naics_5"; "naics_6";
     "naics_desc";
     "qc_cae_1"; "qc_cae_desc_1"; "qc_cae_2"; "qc_cae_desc_2";
     "facebook"; "twitter"; "linkedin"; "youtube"; "instagram"]%string.

Definition ADDR_FIELD_LABEL : list pystr :=
  map py ["unit"; "house_number"; "road"; "city"; "prov"; "country"; "postcode"]%string.

Definition FORCE_LABEL : list pystr := map py ["city"; "prov"; "country"]%string.

Definition ENCODING_LIST : list pystr := map py ["utf-8"; "cp1252"; "cp437"]%string.

Definition _ADDR_LABEL_TO_POSTAL : list (pystr * pystr) :=
  map (fun p => (py (fst p), py (snd p)))
    [("house_number", "house_number"); ("road", "road"); ("unit", "unit");
     ("city", "city"); ("prov", "state"); ("country", "country");
     ("postcode", "postcode")]%string.

(* ------------------------------------------------------------------ *)
(** ** [Source]: the metadata document and the three paths *)

Record Source : Type := mkSource {
  metadata : json;
  rawpath : option pystr;
  dirtypath : option pystr;
  cleanpath : option pystr;
  label_map : option dict
}.

(** [Source.__init__] after [json.load]: nothing derived yet. *)
Definition Source_init (md : json) : Source :=
  mkSource md None None None None.

(** The file name without its last extension, as both path branches
    compute it: [filename] itself when [split('.')] has one part, else
    ['.'.join(filename.split('.')[:-1])]. *)
Definition strip_ext (filename : pystr) : pystr :=
  let parts := split_on 46 filename in
  if Nat.eqb (length parts) 1 then filename
  else join_with [46%N] (removelast parts).

Definition raw_of (filename : pystr) : pystr := py "./pddir/raw/" ++ filename.
Definition dirty_of (filename : pystr) : pystr :=
  py "./pddir/dirty/" ++ strip_ext filename ++ py "-dirty.csv".
Definition clean_of (filename : pystr) : pystr :=
  py "./pddir/clean/" ++ strip_ext filename ++ py "-clean.csv".

(** The checks of [Source.parse], in source order.  Nothing is assigned
    before the last check has passed; the result is the file name the
    paths are then built from by string concatenation. *)
Definition parse_checks (md : json) : result pystr :=
  (* required tags *)
  b <- py_in (py "format") md ;; raise_if (negb b) LookupError ;;;
  b <- py_in (py "file") md ;; raise_if (negb b) LookupError ;;;
  b <- py_in (py "info") md ;; raise_if (negb b) LookupError ;;;
  (* required tag types *)
  fmt <- py_getitem md (py "format") ;; raise_if (negb (is_str fmt)) TypeError ;;;
  file <- py_getitem md (py "file") ;; raise_if (negb (is_str file)) TypeError ;;;
  info <- py_getitem md (py "info") ;; raise_if (negb (is_dict info)) TypeError ;;;
  (* required formats *)
  raise_if (negb (eq_lit fmt (py "xml")) && negb (eq_lit fmt (py "csv"))) ValueError ;;;
  (* required header if format is not csv *)
  hdr <- py_in (py "header") md ;;
  raise_if (negb (eq_lit fmt (py "csv")) && negb hdr) LookupError ;;;
  (if negb (eq_lit fmt (py "csv")) && hdr
   then h <- py_getitem md (py "header") ;; raise_if (negb (is_str h)) TypeError
   else Ok tt) ;;;
  (* url *)
  url <- py_in (py "url") md ;;
  (if url
   then x <- py_getitem md (py "url") ;; raise_if (negb (is_str x)) TypeError
   else Ok tt) ;;;
  (* full_addr and address are not both in info *)
  addr <- py_in (py "address") info ;;
  full <- (if addr then py_in (py "full_addr") info else Ok false) ;;
  raise_if (addr && full) ValueError ;;;
  (* address is an object with valid tags *)
  (if addr
   then a <- py_getitem info (py "address") ;;
        raise_if (negb (is_dict a)) TypeError ;;;
        for_each (dict_keys a)
          (fun i => raise_if (negb (mem_str i ADDR_FIELD_LABEL)) ValueError)
   else Ok tt) ;;;
  (* force is an object with valid tags *)
  force <- py_in (py "force") md ;;
  (if force
   then f <- py_getitem md (py "force") ;;
        raise_if (negb (is_dict f)) TypeError ;;;
        for_each (dict_keys f)
          (fun i =>
             if negb (mem_str i FORCE_LABEL) then Raise ValueError
             else
               clash <- (if addr
                         then a <- py_getitem info (py "address") ;; py_in i a
                         else Ok false) ;;
               raise_if clash ValueError)
   else Ok tt) ;;;
  (* filename = self.metadata['file'], then './pddir/raw/' + filename *)
  match file with
  | JStr filename => Ok filename
  | _ => Raise TypeError
  end.

Definition set_paths (self : Source) (filename : pystr) : Source :=
  mkSource (metadata self) (Some (raw_of filename))
    (Some (dirty_of filename)) (Some (clean_of filename)) (label_map self).

(** [Source.parse]: the outcome and the object as the call leaves it. *)
Definition Source_parse (self : Source) : result unit * Source :=
  match parse_checks (metadata self) with
  | Ok filename => (Ok tt, set_paths self filename)
  | Raise e => (Raise e, self)
  end.

(* ------------------------------------------------------------------ *)
(** ** The regular expressions of the module

    The five patterns used with [re.sub] are built from single-character
    classes, the greedy [+] of a class, the anchors and one capturing group.
    [match_here] is a backtracking matcher for exactly that fragment. *)

(** [\s] on [str]: the Unicode whitespace code points. *)
Definition is_space (c : N) : bool :=
  ((9 <=? c) && (c <=? 13) || (28 <=? c) && (c <=? 32)
   || (c =? 133) || (c =? 160) || (c =? 5760)
   || (8192 <=? c) && (c <=? 8202)
   || (c =? 8232) || (c =? 8233) || (c =? 8239) || (c =? 8287)
   || (c =? 12288))%N.

Inductive cclass : Set :=
| Space            (* \s *)
| NotSpace         (* [^\s] *)
| AnyChar          (* . , without DOTALL *)
| Lit (c : N).

Definition in_class (k : cclass) (c : N) : bool :=
  match k with
  | Space => is_space c
  | NotSpace => negb (is_space c)
  | AnyChar => negb (N.eqb c 10)
  | Lit x => N.eqb c x
  end.

Inductive item : Set :=
| One (k : cclass)     (* k *)
| Many (k : cclass)    (* k+ , greedy *)
| Bos                  (* ^ *)
| Eos                  (* $ *)
| GOpen                (* ( *)
| GClose.              (* ) *)

Definition regex := list item.

(** [match_here p s i g]: match [p] against the text [s] that starts at
    index [i]; [g] is the span of group 1 so far.  The answer is the end
    index and the span of group 1. *)
Fixpoint match_here (p : regex) : pystr -> nat -> nat * nat -> option (nat * (nat * nat)) :=
  match p with
  | [] => fun _ i g => Some (i, g)
  | it :: p' =>
      let rest := match_here p' in
      match it with
      | One k => fun s i g =>
          match s with
          | c :: s' => if in_class k c then rest s' (S i) g else None
          | [] => None
          end
      | Many k =>
          fix many (s : pystr) (i : nat) (g : nat * nat) {struct s} :=
            match s with
            | c :: s' =>
                if in_class k c then
                  match many s' (S i) g with
                  | Some r => Some r
                  | None => rest s' (S i) g
                  end
                else None
            | [] => None
            end
      | Bos => fun s i g => if Nat.eqb i 0 then rest s i g else None
      | Eos => fun s i g =>
          match s with
          | [] => rest s i g
          | [c] => if N.eqb c 10 then rest s i g else None
          | _ => None
          end
      | GOpen => fun s i g => rest s i (i, snd g)
      | GClose => fun s i g => rest s i (fst g, i)
      end
  end.

(** Replacement templates: literal text and [\1]. *)
Inductive tpl_item : Set :=
| TLit (s : pystr)
| TGroup1.

Definition expand (tpl : list tpl_item) (whole : pystr) (g : nat * nat) : pystr :=
  flat_map
    (fun t => match t with
              | TLit s => s
              | TGroup1 => firstn (snd g - fst g) (skipn (fst g) whole)
              end) tpl.

(** The left-to-right scan of [re.sub]: [skip] counts the characters still
    covered by the last match. *)
Fixpoint sub_scan (p : regex) (tpl : list tpl_item) (whole : pystr)
    (i skip : nat) (s : pystr) : pystr :=
  match s with
  | [] =>
      match skip, match_here p [] i (0, 0) with
      | O, Some (_, g) => expand tpl whole g
      | _, _ => []
      end
  | c :: s' =>
      match skip with
      | S k => sub_scan p tpl whole (S i) k s'
      | O =>
          match match_here p s i (0, 0) with
          | Some (e, g) =>
              if Nat.leb e i
              then expand tpl whole g ++ c :: sub_scan p tpl whole (S i) 0 s'
              else expand tpl whole g ++ sub_scan p tpl whole (S i) (e - i - 1) s'
          | None => c :: sub_scan p tpl whole (S i) 0 s'
          end
      end
  end.

Definition re_sub (p : regex) (tpl : list tpl_item) (s : pystr) : pystr :=
  sub_scan p tpl s 0 0 s.

(** r"\s+" *)
Definition re_spaces : regex := [Many Space].
(** r"^\s+([^\s].+)" *)
Definition re_leading : regex := [Bos; Many Space; GOpen; One NotSpace; Many AnyChar; GClose].
(** r"(.+[^\s])\s+$" *)
Definition re_trailing : regex := [GOpen; Many AnyChar; One NotSpace; GClose; Many Space; Eos].
(** r"^\s+$" *)
Definition re_blank : regex := [Bos; Many Space; Eos].
(** r"^\ufeff(.+)" *)
Definition re_bom : regex := [Bos; One (Lit 65279); GOpen; Many AnyChar; GClose].

(* ------------------------------------------------------------------ *)
(** ** [Algorithm._quick_scrub] *)

(** What [_quick_scrub] may be handed: [str] or [bytes]. *)
Inductive pyval : Type :=
| VStr (s : pystr)
| VBytes (b : list N).

Definition is_ascii (c : N) : bool := (c <? 128)%N.

Definition ascii_lower (c : N) : N :=
  if ((65 <=? c) && (c <=? 90))%N then (c + 32)%N else c.

Section Scrub.
(** The interpreter's tables, absent from the module: [bytes.decode()]
    and [str.lower()] outside ASCII. *)
Variable bytes_decode : list N -> result pystr.
Variable unicode_lower : pystr -> pystr.

Definition str_lower (s : pystr) : pystr :=
  if forallb is_ascii s then map ascii_lower s else unicode_lower s.

(** The four substitutions and the lower-casing, on text. *)
Definition scrub_text (entry : pystr) : pystr :=
  let entry := re_sub re_spaces [TLit (py " ")] entry in
  let entry := re_sub re_leading [TGroup1] entry in
  let entry := re_sub re_trailing [TGroup1] entry in
  let entry := re_sub re_blank [] entry in
  str_lower entry.

Definition _quick_scrub (entry : pyval) : result pystr :=
  entry <- match entry with
           | VBytes b => bytes_decode b
           | VStr s => Ok s
           end ;;
  Ok (scrub_text entry).
End Scrub.

(* ------------------------------------------------------------------ *)
(** ** [CSV_Algorithm.format_correction] *)

Definition row := list pystr.

(** [while len(row) < size: row.append("")]. *)
Definition pad (r : row) (size : nat) : row := r ++ repeat [] (size - length r).

(** The loop over the rows [csv.reader] yields, with its three loop
    variables; the answer is the rows written and how the loop ended. *)
Fixpoint format_rows (rows : list row) (flag : bool) (size : nat) (first_row : bool)
  : list row * result unit :=
  match rows with
  | [] => ([], Ok tt)
  | r :: rest =>
      let r1 :=
        if first_row then
          match r with
          | [] => Raise IndexError                       (* row[0] *)
          | c :: cs => Ok (re_sub re_bom [TGroup1] c :: cs)
          end
        else Ok r in
      match r1 with
      | Raise e => ([], Raise e)
      | Ok r1 =>
          let written := if flag then pad r1 size else r1 in
          let size' := if flag then size else length r1 in
          let (out, res) := format_rows rest true size' false in
          (written :: out, res)
      end
  end.

Definition format_correction (rows : list row) : list row * result unit :=
  format_rows rows false 0 true.

(* ------------------------------------------------------------------ *)
(** ** [Algorithm.char_encode_check] *)

(** [metadata.data]: the metadata is the dict [json.load] returned, and a
    dict has no attribute [data]. *)
Definition attr_data (metadata : json) : result json := Raise AttributeError.

Section Encoding.
(** [decodes path enc]: reading every line of the file at [path] opened
    with [encoding=enc] meets no [UnicodeDecodeError]. *)
Variable decodes : pystr -> pystr -> bool.

Fixpoint try_encodings (metadata : json) (encs : list pystr) : result pystr :=
  match encs with
  | [] => Raise RuntimeError
  | enc :: rest =>
      file <- py_getitem metadata (py "file") ;;
      match file with
      | JStr f =>
          if decodes (py "./pddir/raw/" ++ f) enc then Ok enc
          else try_encodings metadata rest
      | _ => Raise TypeError
      end
  end.

Definition char_encode_check (source : Source) : result pystr :=
  let metadata := metadata source in
  declared <- py_in (py "encoding") metadata ;;
  if declared then
    data <- attr_data metadata ;;
    data_enc <- py_getitem data (py "encoding") ;;
    match data_enc with
    | JStr e => if mem_str e ENCODING_LIST then Ok e else Raise ValueError
    | _ => Raise TypeError
    end
  else try_encodings metadata ENCODING_LIST.
End Encoding.

(* ------------------------------------------------------------------ *)
(** ** List helpers of Python *)

(** [l.index(x)]: the first position of [x]. *)
Fixpoint list_index (x : pystr) (l : list pystr) : option nat :=
  match l with
  | [] => None
  | y :: l' =>
      if eqb_str y x then Some 0
      else match list_index x l' with Some n => Some (S n) | None => None end
  end.

(** [l.pop(ind)] (the list that remains) and [l.insert(ind, x)]. *)
Definition list_pop {A} (ind : nat) (l : list A) : list A := firstn ind l ++ skipn (S ind) l.
Definition list_insert {A} (ind : nat) (x : A) (l : list A) : list A :=
  firstn ind l ++ x :: skipn ind l.

(** [d[k] = v]: a bound key keeps its position, a new key goes last. *)
Fixpoint dict_set (k : pystr) (v : json) (d : dict) : dict :=
  match d with
  | [] => [(k, v)]
  | (k', v') :: d' => if eqb_str k k' then (k', v) :: d' else (k', v') :: dict_set k v d'
  end.

(* ------------------------------------------------------------------ *)
(** ** Support functions of [parse] *)

Definition full_addr : pystr := py "full_addr".
Definition DPIFORCE : pystr := py "DPIFORCE".

Definition _generateFirstRow (tags : dict) : row :=
  let row := keys tags in
  if mem_str full_addr row then
    match list_index full_addr row with
    | Some ind =>
        fold_left (fun r atag => list_insert ind atag r)
          (rev ADDR_FIELD_LABEL) (list_pop ind row)
    | None => row
    end
  else row.

Fixpoint _isRowEmpty (r : row) : bool :=
  match r with
  | [] => true
  | element :: r' => if negb (eqb_str element []) then false else _isRowEmpty r'
  end.

(** One pass of the loop over [ADDR_FIELD_LABEL] that projects the parser's
    (text, label) pairs: the cell for [afl]. *)
Definition address_cell (ap_entry : list (pystr * pystr)) (afl : pystr) : result pystr :=
  postal <- match lookup afl _ADDR_LABEL_TO_POSTAL with
            | Some l => Ok l
            | None => Raise KeyError
            end ;;
  if mem_str postal (map snd ap_entry) then
    match list_index postal (map snd ap_entry) with
    | Some ind =>
        match nth_error ap_entry ind with
        | Some tok => Ok (fst tok)
        | None => Raise IndexError
        end
    | None => Raise ValueError
    end
  else Ok [].

Fixpoint address_loop (ap_entry : list (pystr * pystr)) (labels : list pystr) (r : row)
  : result row :=
  match labels with
  | [] => Ok r
  | afl :: rest =>
      cell <- address_cell ap_entry afl ;;
      address_loop ap_entry rest (r ++ [cell])
  end.

(** The cells the loop appends to [row] for one parsed address. *)
Definition address_cells (ap_entry : list (pystr * pystr)) (r : row) : result row :=
  address_loop ap_entry ADDR_FIELD_LABEL r.

(* ------------------------------------------------------------------ *)
(** ** [extract_labels], CSV and XML *)

Definition set_label_map (self : Source) (m : dict) : Source :=
  mkSource (metadata self) (rawpath self) (dirtypath self) (cleanpath self) (Some m).

(** [(k in metadata[group]) ] behind the short-circuit [group in where]. *)
Definition in_group (where_ : json) (group i : pystr) : result bool :=
  present <- py_in group where_ ;;
  if present then g <- py_getitem where_ group ;; py_in i g else Ok false.

(** One iteration of the loop of [CSV_Algorithm.extract_labels]. *)
Definition csv_label (metadata : json) (label_map : dict) (i : pystr) : result dict :=
  info <- py_getitem metadata (py "info") ;;
  direct <- py_in i info ;;
  if direct && negb (mem_str i ADDR_FIELD_LABEL) then
    v <- py_getitem info i ;; Ok (dict_set i v label_map)
  else
    in_addr <- in_group info (py "address") i ;;
    if in_addr then
      a <- py_getitem info (py "address") ;;
      v <- py_getitem a i ;; Ok (dict_set i v label_map)
    else
      in_force <- in_group metadata (py "force") i ;;
      if in_force then Ok (dict_set i (JStr DPIFORCE) label_map)
      else Ok label_map.

(** [".//" + t]. *)
Definition xpath (t : json) : result json :=
  match t with
  | JStr s => Ok (JStr (py ".//" ++ s))
  | _ => Raise TypeError
  end.

Fixpoint xpath_all (l : list json) : result (list json) :=
  match l with
  | [] => Ok []
  | t :: l' => x <- xpath t ;; xs <- xpath_all l' ;; Ok (x :: xs)
  end.

(** One iteration of the loop of [XML_Algorithm.extract_labels]. *)
Definition xml_label (metadata : json) (label_map : dict) (i : pystr) : result dict :=
  info <- py_getitem metadata (py "info") ;;
  direct <- py_in i info ;;
  if direct && negb (mem_str i ADDR_FIELD_LABEL) && negb (eqb_str i (py "address")) then
    v <- py_getitem info i ;;
    match v with
    | JArr l => xs <- xpath_all l ;; Ok (dict_set i (JArr xs) label_map)
    | _ => x <- xpath v ;; Ok (dict_set i x label_map)
    end
  else
    in_addr <- in_group info (py "address") i ;;
    if in_addr then
      a <- py_getitem info (py "address") ;;
      v <- py_getitem a i ;;
      x <- xpath v ;; Ok (dict_set i x label_map)
    else
      in_force <- in_group metadata (py "force") i ;;
      if in_force then Ok (dict_set i (JStr DPIFORCE) label_map)
      else Ok label_map.

Fixpoint label_loop (step : dict -> pystr -> result dict) (labels : list pystr)
    (label_map : dict) : result dict :=
  match labels with
  | [] => Ok label_map
  | i :: rest => m <- step label_map i ;; label_loop step rest m
  end.

Definition CSV_labels (metadata : json) : result dict :=
  label_loop (csv_label metadata) FIELD_LABEL [].

Definition XML_labels (metadata : json) : result dict :=
  label_loop (xml_label metadata) FIELD_LABEL [].

(** [extract_labels]: [source.label_map] is assigned after the loop. *)
Definition CSV_extract_labels (source : Source) : result unit * Source :=
  match CSV_labels (metadata source) with
  | Ok m => (Ok tt, set_label_map source m)
  | Raise e => (Raise e, source)
  end.

Definition XML_extract_labels (source : Source) : result unit * Source :=
  match XML_labels (metadata source) with
  | Ok m => (Ok tt, set_label_map source m)
  | Raise e => (Raise e, source)
  end.

(* ------------------------------------------------------------------ *)
(** ** File effects *)

Inductive event : Type :=
| Open_w (path : pystr)                 (* open(path, 'w'): created or truncated *)
| Writerow (path : pystr) (r : row)     (* csvwriter.writerow(r) on that file *)
| Rename (src dst : pystr)              (* os.rename(src, dst) *)
| Report (locator : json).              (* the line printed for a missing field *)

(** A file store: the rows of the CSV file at each path. *)
Definition store := pystr -> option (list row).

Definition upd (fs : store) (p : pystr) (v : option (list row)) : store :=
  fun q => if eqb_str q p then v else fs q.

Definition apply_event (fs : store) (ev : event) : store :=
  match ev with
  | Open_w p => upd fs p (Some [])
  | Writerow p r =>
      match fs p with
      | Some rows => upd fs p (Some (rows ++ [r]))
      | None => fs
      end
  | Rename src dst => upd (upd fs dst (fs src)) src None
  | Report _ => fs
  end.

Definition replay (fs : store) (evs : list event) : store := fold_left apply_event evs fs.

(** The rows a trace writes to [path]. *)
Fixpoint written_to (path : pystr) (evs : list event) : list row :=
  match evs with
  | [] => []
  | Writerow p r :: evs' =>
      if eqb_str p path then r :: written_to path evs' else written_to path evs'
  | _ :: evs' => written_to path evs'
  end.

(** The paths a trace creates, truncates, writes or renames onto. *)
Definition touches (path : pystr) (ev : event) : bool :=
  match ev with
  | Open_w p | Writerow p _ => eqb_str p path
  | Rename src dst => eqb_str src path || eqb_str dst path
  | Report _ => false
  end.

(* ------------------------------------------------------------------ *)
(** ** [CSV_Algorithm.parse] and [XML_Algorithm.parse] *)

(** The name [json_data] is bound nowhere in the module (no assignment,
    import, parameter or definition): evaluating it raises [NameError]. *)
Definition json_data : result json := Raise NameError.

(** A record of [csv.DictReader]: column name to cell. *)
Definition entity := list (pystr * pystr).

(** [entity[i]]: a missing key is a [KeyError]; a list or dict is unhashable. *)
Definition entity_get (e : entity) (i : json) : result pystr :=
  match i with
  | JStr k => match lookup k e with Some v => Ok v | None => Raise KeyError end
  | JArr _ | JObj _ => Raise TypeError
  | _ => Raise KeyError
  end.

Definition list_items (v : json) : list json :=
  match v with JArr l => l | _ => [] end.

Section Transform.
Variable bytes_decode : list N -> result pystr.
Variable unicode_lower : pystr -> pystr.
(** The address parser handed to [DataProcess]: text to (text, label) pairs. *)
Variable address_parser : pystr -> list (pystr * pystr).
Variable decodes : pystr -> pystr -> bool.

Definition scrub (entry : pystr) : result pystr :=
  _quick_scrub bytes_decode unicode_lower (VStr entry).

(** [_quick_scrub(json_data['force'][key])]. *)
Definition forced_entry (key : pystr) : result pystr :=
  jd <- json_data ;;
  force <- py_getitem jd (py "force") ;;
  v <- py_getitem force key ;;
  match v with
  | JStr s => scrub s
  | _ => Raise TypeError
  end.

(** The cells one key appends to [row]; [get] reads one locator from the
    current record ([entity[i]], or [find] with the empty-element handler). *)
Definition cells (get : json -> result pystr) (key : pystr) (loc : json) (r : row)
  : result row :=
  if is_list loc && negb (mem_str key FORCE_LABEL) then
    entry <- fold_left (fun acc i => entry <- acc ;; v <- get i ;; Ok (entry ++ v ++ py " "))
               (list_items loc) (Ok []) ;;
    entry <- scrub entry ;;
    if negb (eqb_str key full_addr) then Ok (r ++ [entry])
    else address_cells (address_parser entry) r
  else if eqb_str key full_addr then
    entry <- get loc ;;
    entry <- scrub entry ;;
    address_cells (address_parser entry) r
  else if eq_lit loc DPIFORCE then
    entry <- forced_entry key ;;
    Ok (r ++ [entry])
  else
    entry <- get loc ;;
    entry <- scrub entry ;;
    Ok (r ++ [entry]).

(** [for key in tags]: the row of one record, or the exception together
    with [tags[key]] at the moment it was raised. *)
Fixpoint build_row (get : json -> result pystr) (tags : dict) (r : row)
  : row + exn * json :=
  match tags with
  | [] => inl r
  | (key, loc) :: rest =>
      match cells get key loc r with
      | Ok r' => build_row get rest r'
      | Raise e => inr (e, loc)
      end
  end.

(** *** CSV *)

(** The row of one [csv.DictReader] record. *)
Definition csv_row (tags : dict) (e : entity) : row + exn * json :=
  build_row (entity_get e) tags [].

(** The [try] block: the loop over the records, left by [except KeyError]
    after one printed line, or by any other exception. *)
Fixpoint csv_records (tags : dict) (out : pystr) (entities : list entity)
  : list event * result unit :=
  match entities with
  | [] => ([], Ok tt)
  | e :: rest =>
      match csv_row tags e with
      | inl r =>
          let (evs, res) := csv_records tags out rest in
          ((if negb (_isRowEmpty r) then [Writerow out r] else []) ++ evs, res)
      | inr (KeyError, loc) => ([Report loc], Ok tt)
      | inr (ex, _) => ([], Raise ex)
      end
  end.

(** [entities] is what [csv.DictReader] yields from the file at
    [source.dirtypath]. *)
Definition CSV_parse (source : Source) (entities : list entity)
  : list event * result unit :=
  match py_getitem (metadata source) (py "file") with
  | Raise ex => ([], Raise ex)
  | Ok _ =>
  match char_encode_check decodes source with
  | Raise ex => ([], Raise ex)
  | Ok _ =>
  match dirtypath source with
  | None => ([], Raise TypeError)
  | Some dirty =>
      let temp := dirty ++ py "-temp" in
      match label_map source with
      | None => ([Open_w temp], Raise TypeError)
      | Some tags =>
          let (evs, res) := csv_records tags temp entities in
          let body := Open_w temp :: Writerow temp (_generateFirstRow tags) :: evs in
          match res with
          | Raise ex => (body, Raise ex)
          | Ok _ => (body ++ [Rename temp dirty], Ok tt)   (* # success *)
          end
      end
  end end end.

(** *** XML *)

(** An element of the parsed tree, with [Element.find] and [Element.text]. *)
Variable element : Type.
Variable find : element -> pystr -> option element.
Variable text : element -> option pystr.

Definition _xml_empty_element_handler (el : option element) : pystr :=
  match el with
  | None => []
  | Some e =>
      match text e with
      | Some t => t
      | None => []
      end
  end.

(** [_xml_empty_element_handler(element.find(i))]. *)
Definition element_get (e : element) (i : json) : result pystr :=
  match i with
  | JStr path => Ok (_xml_empty_element_handler (find e path))
  | _ => Raise TypeError
  end.

(** The row of one record element. *)
Definition xml_row (tags : dict) (e : element) : row + exn * json :=
  build_row (element_get e) tags [].

Fixpoint xml_records (tags : dict) (out : pystr) (elements : list element)
  : list event * result unit :=
  match elements with
  | [] => ([], Ok tt)
  | e :: rest =>
      match xml_row tags e with
      | inl r =>
          let (evs, res) := xml_records tags out rest in
          ((if negb (_isRowEmpty r) then [Writerow out r] else []) ++ evs, res)
      | inr (ex, _) => ([], Raise ex)
      end
  end.

(** [elements] is [root.iter(header)] of the tree parsed from the raw file. *)
Definition XML_parse (source : Source) (elements : list element)
  : list event * result unit :=
  match py_getitem (metadata source) (py "file") with
  | Raise ex => ([], Raise ex)
  | Ok _ =>
  match py_getitem (metadata source) (py "header") with
  | Raise ex => ([], Raise ex)
  | Ok _ =>
  match char_encode_check decodes source with
  | Raise ex => ([], Raise ex)
  | Ok _ =>
  match dirtypath source with
  | None => ([], Raise TypeError)
  | Some dirty =>
      match label_map source with
      | None => ([Open_w dirty], Raise TypeError)
      | Some tags =>
          let (evs, res) := xml_records tags dirty elements in
          (Open_w dirty :: Writerow dirty (_generateFirstRow tags) :: evs, res)
      end
  end end end end.
End Transform.

(* ------------------------------------------------------------------ *)
(** ** [Algorithm.blank_fill] *)

Definition LABELS : list pystr :=
  filter (fun i => negb (eqb_str i full_addr)) FIELD_LABEL.

(** The row written for one record of the clean file. *)
Definition blank_fill_row (old_row : entity) : row :=
  map (fun col =>
         if negb (has_key col old_row) then []
         else match lookup col old_row with Some v => v | None => [] end) LABELS.

(* ------------------------------------------------------------------ *)
(** ** The rules of the metadata document, as the specification words them *)

(** A top-level tag of the document. *)
Definition tag (md : json) (k : pystr) : option json :=
  match md with
  | JObj d => lookup k d
  | _ => None
  end.

(** The address group of [info], when there is one. *)
Definition address_group (info : dict) : option json := lookup (py "address") info.

(** All structural rules hold. *)
Definition structural_rules (md : json) : Prop :=
  exists fmt file info,
    tag md (py "format") = Some (JStr fmt) /\
    tag md (py "file") = Some (JStr file) /\
    tag md (py "info") = Some (JObj info) /\
    (fmt = py "csv" \/ fmt = py "xml") /\
    (fmt = py "xml" -> exists h, tag md (py "header") = Some (JStr h)) /\
    (forall u, tag md (py "url") = Some u -> exists s, u = JStr s) /\
    ~ (In (py "address") (keys info) /\ In (py "full_addr") (keys info)) /\
    (forall a, address_group info = Some a ->
       exists ad, a = JObj ad /\ incl (keys ad) ADDR_FIELD_LABEL) /\
    (forall f, tag md (py "force") = Some f ->
       exists fd, f = JObj fd /\ incl (keys fd) FORCE_LABEL /\
         forall k ad, In k (keys fd) -> address_group info = Some (JObj ad) ->
                      ~ In k (keys ad)).

(** A required tag is absent. *)
Definition missing_tag (md : json) : Prop :=
  tag md (py "format") = None \/
  tag md (py "file") = None \/
  tag md (py "info") = None \/
  (tag md (py "format") = Some (JStr (py "xml")) /\ tag md (py "header") = None).

(** A tag is present with the wrong JSON type. *)
Definition wrong_type (md : json) : Prop :=
  is_dict md = false \/
  (exists v, tag md (py "format") = Some v /\ is_str v = false) \/
  (exists v, tag md (py "file") = Some v /\ is_str v = false) \/
  (exists v, tag md (py "info") = Some v /\ is_dict v = false) \/
  (exists v, tag md (py "format") = Some (JStr (py "xml")) /\
             tag md (py "header") = Some v /\ is_str v = false) \/
  (exists v, tag md (py "url") = Some v /\ is_str v = false) \/
  (exists info v, tag md (py "info") = Some (JObj info) /\
                  address_group info = Some v /\ is_dict v = false) \/
  (exists v, tag md (py "force") = Some v /\ is_dict v = false).

(** A tag is present with the right type and a value that is not allowed. *)
Definition invalid_value (md : json) : Prop :=
  (exists f, tag md (py "format") = Some (JStr f) /\ f <> py "csv" /\ f <> py "xml") \/
  (exists info, tag md (py "info") = Some (JObj info) /\
     ((In (py "address") (keys info) /\ In (py "full_addr") (keys info)) \/
      (exists ad k, address_group info = Some (JObj ad) /\
                    In k (keys ad) /\ ~ In k ADDR_FIELD_LABEL) \/
      (exists fd k, tag md (py "force") = Some (JObj fd) /\ In k (keys fd) /\
                    (~ In k FORCE_LABEL \/
                     exists ad, address_group info = Some (JObj ad) /\ In k (keys ad))))).

(** The outcome of [Source.parse] on a freshly loaded document. *)
Definition validate (md : json) : result unit := fst (Source_parse (Source_init md)).
Definition validated (md : json) : Source := snd (Source_parse (Source_init md)).

(* ------------------------------------------------------------------ *)
(** ** The projection of a parsed address, as the specification words it *)

(** The text of the first token labelled [label], or the empty string. *)
Definition first_token (label : pystr) (tokens : list (pystr * pystr)) : pystr :=
  match find (fun tok => eqb_str (snd tok) label) tokens with
  | Some tok => fst tok
  | None => []
  end.

(** The external label of each of the seven columns, in column order. *)
Definition postal_labels : list pystr :=
  map py ["unit"; "house_number"; "road"; "city"; "state"; "country"; "postcode"]%string.

(* ------------------------------------------------------------------ *)
(** ** Rows of the records that resolve *)

(** The rows of the longest run of leading records that resolve without an
    exception: the records the loop gets through. *)
Fixpoint resolved_rows {R} (resolve : R -> row + exn * json) (records : list R) : list row :=
  match records with
  | [] => []
  | x :: rest =>
      match resolve x with
      | inl r => r :: resolved_rows resolve rest
      | inr _ => []
      end
  end.

Definition all_empty (r : row) : Prop := Forall (fun cell => cell = []) r.

(* ------------------------------------------------------------------ *)
(** ** Specification-side helpers for rows *)

(** A row the loop writes: not all cells empty. *)
Definition kept (r : row) : bool := negb (_isRowEmpty r).

(** The seven cells of a parsed address. *)
Definition project (tokens : list (pystr * pystr)) : row :=
  map (fun label => first_token label tokens) postal_labels.

(** The first encoding of the priority list under which [path] decodes. *)
Definition first_decodable (decodes : pystr -> pystr -> bool) (path : pystr)
  : option pystr :=
  find (decodes path) ENCODING_LIST.

(* ------------------------------------------------------------------ *)
(** ** The write discipline, as the specification words it *)

(** Rows go to the sibling temporary path only; a run that returns normally
    has renamed the temporary file over the canonical path; a run that
    raises leaves the canonical file as it was. *)
Definition temp_then_rename (dirty : pystr) (run : list event * result unit) : Prop :=
  (forall p r, In (Writerow p r) (fst run) -> p = dirty ++ py "-temp") /\
  (snd run = Ok tt -> In (Rename (dirty ++ py "-temp") dirty) (fst run)) /\
  (forall ex, snd run = Raise ex -> forall fs, replay fs (fst run) dirty = fs dirty).

(** The length of the leading run of characters [.] matches. *)
Fixpoint dot_run (s : pystr) : nat :=
  match s with
  | c :: s' => if in_class AnyChar c then S (dot_run s') else 0
  | [] => 0
  end.

(* ------------------------------------------------------------------ *)
(** ** The header without an address locator, as the code has it *)

(** The keys of the top-level force object. *)
Definition force_keys (md : json) : list pystr :=
  match tag md (py "force") with
  | Some (JObj fd) => keys fd
  | _ => []
  end.

(** The header is the keys of the label map; an address column is in it
    exactly when force names it, and then its locator is the forced marker. *)
Definition only_forced_address_columns (md : json) (tags : dict) : Prop :=
  ~ In full_addr (keys tags) /\
  _generateFirstRow tags = keys tags /\
  (forall a, In a ADDR_FIELD_LABEL ->
     (In a (_generateFirstRow tags) <-> In a (force_keys md))) /\
  (forall a loc, In a ADDR_FIELD_LABEL -> lookup a tags = Some loc -> loc = JStr DPIFORCE).

(** The fields [extract_labels] binds when [info] has no address group:
    those named in [info] outside the address vocabulary, and those named
    by force. *)
Definition csv_selected (md : json) (info : dict) (i : pystr) : Prop :=
  (has_key i info = true /\ mem_str i ADDR_FIELD_LABEL = false) \/
  In i (force_keys md).
Definition xml_selected (md : json) (info : dict) (i : pystr) : Prop :=
  (has_key i info = true /\ mem_str i ADDR_FIELD_LABEL = false /\
   eqb_str i (py "address") = false) \/
  In i (force_keys md).
Definition forced_if_address (i : pystr) (v : json) : Prop :=
  In i ADDR_FIELD_LABEL -> v = JStr DPIFORCE.

Fixpoint nodupb (l : list pystr) : bool :=
  match l with
  | [] => true
  | x :: l' => negb (mem_str x l') && nodupb l'
  end.


Definition address_locator (info : dict) (i : pystr) : option json :=
  match address_group info with
  | Some (JObj ad) => lookup i ad
  | _ => None
  end.

Definition csv_locator (md : json) (info : dict) (i : pystr) : option json :=
  if has_key i info && negb (mem_str i ADDR_FIELD_LABEL) then lookup i info
  else match address_locator info i with
       | Some v => Some v
       | None => if mem_str i (force_keys md) then Some (JStr DPIFORCE) else None
       end.

Definition xml_locator (md : json) (info : dict) (i : pystr) : result (option json) :=
  if has_key i info && negb (mem_str i ADDR_FIELD_LABEL) then
    match lookup i info with
    | Some (JArr l) => xs <- xpath_all l ;; Ok (Some (JArr xs))
    | Some v => x <- xpath v ;; Ok (Some x)
    | None => Ok None
    end
  else match address_locator info i with
       | Some v => x <- xpath v ;; Ok (Some x)
       | None => Ok (if mem_str i (force_keys md) then Some (JStr DPIFORCE) else None)
       end.

(* ------------------------------------------------------------------ *)
(** ** What [_quick_scrub] is meant to compute *)

(** The length of the leading run of whitespace. *)
Fixpoint space_run (s : pystr) : nat :=
  match s with
  | c :: s' => if is_space c then S (space_run s') else 0
  | [] => 0
  end.

(** Every maximal run of whitespace replaced by one space; [in_run] says
    that the character before [s] was whitespace. *)
Fixpoint collapse_from (in_run : bool) (s : pystr) : pystr :=
  match s with
  | [] => []
  | c :: s' =>
      if is_space c then
        if in_run then collapse_from true s' else 32%N :: collapse_from true s'
      else c :: collapse_from false s'
  end.

Definition collapse (s : pystr) : pystr := collapse_from false s.

(** Without one leading, one trailing whitespace character. *)
Definition strip_lead (t : pystr) : pystr :=
  match t with
  | c :: t' => if is_space c then t' else t
  | [] => []
  end.
Definition strip_trail (t : pystr) : pystr := rev (strip_lead (rev t)).

(** The words of [s] joined by single spaces: [' '.join(s.split())]. *)
Definition normalize (s : pystr) : pystr := strip_trail (strip_lead (collapse s)).

(** Each whitespace character is a space and is not followed by
    whitespace. *)
Fixpoint tidy (t : pystr) : bool :=
  match t with
  | c :: t' =>
      (negb (is_space c) ||
       N.eqb c 32 && negb (match t' with d :: _ => is_space d | [] => false end))
      && tidy t'
  | [] => true
  end.

(** Text without a newline that is empty or ends with a character that is
    no whitespace. *)
Definition ends_visible (s : pystr) : Prop :=
  (forall c, In c s -> N.eqb c 10 = false) /\
  (forall p z, s = p ++ [z] -> is_space z = false).

(** What the last three substitutions leave of a collapsed string with
    one visible character: a space on both sides loses the leading one
    only. *)
Definition one_visible_trim (t : pystr) : pystr :=
  match t with
  | [_; b; c] => [b; c]
  | _ => t
  end.

(* ------------------------------------------------------------------ *)
(** ** Records of [csv.DictReader]

    [csv.DictReader] is the interpreter's: the first row [csv.reader]
    yields is the field names, every later row that is not empty becomes
    one record, built as [dict(zip(fieldnames, row))]; a row longer than
    the field names keeps its other cells under the key [None], a shorter
    one binds the field names it does not reach to [None]. *)

(** A record: the cell of each field name, [None] for a field name the row
    did not reach, and the cells beyond the field names. *)
Record record : Type := mkRecord {
  rec_fields : list (pystr * option pystr);
  rec_rest : option (list pystr)
}.

(** [d[k] = v] on the string keys of a record. *)
Fixpoint field_set (k : pystr) (v : option pystr) (d : list (pystr * option pystr))
  : list (pystr * option pystr) :=
  match d with
  | [] => [(k, v)]
  | (k', v') :: d' => if eqb_str k k' then (k', v) :: d' else (k', v') :: field_set k v d'
  end.

Definition DictReader_record (fieldnames r : row) : record :=
  let d := fold_left (fun d kv => field_set (fst kv) (Some (snd kv)) d)
             (combine fieldnames r) [] in
  let lf := length fieldnames in
  let lr := length r in
  if lf <? lr then mkRecord d (Some (skipn lf r))
  else if lr <? lf then
    mkRecord (fold_left (fun d key => field_set key None d) (skipn lr fieldnames) d) None
  else mkRecord d None.

Definition DictReader (rows : list row) : list record :=
  match rows with
  | [] => []
  | fieldnames :: data =>
      map (DictReader_record fieldnames)
        (filter (fun r => match r with [] => false | _ => true end) data)
  end.

(* ------------------------------------------------------------------ *)
(** ** [Algorithm.blank_fill], on the file *)

(** [row2write] for one record of the clean file; [csv.writer] writes the
    empty string for a cell that is [None]. *)
Definition row2write (old_row : record) : row :=
  map (fun col =>
         if negb (has_key col (rec_fields old_row)) then []
         else match lookup col (rec_fields old_row) with
              | Some (Some cell) => cell
              | _ => []
              end) LABELS.

(** [rows] is what [csv.reader] yields from the file at
    [source.cleanpath]. *)
Definition blank_fill (source : Source) (rows : list row) : list event * result unit :=
  match cleanpath source with
  | None => ([], Raise TypeError)
  | Some clean =>
      let temp := clean ++ py "-temp" in
      (Open_w temp :: Writerow temp LABELS ::
       map (fun old_row => Writerow temp (row2write old_row)) (DictReader rows) ++
       [Rename temp clean], Ok tt)
  end.

(* ------------------------------------------------------------------ *)
(** ** [DataProcess] *)

(** The two classes [prepareData] instantiates, and an algorithm object:
    its class and the [AddressParser] it was created with, which wraps the
    parsing function and applies it. *)
Inductive algorithm_class : Set := CSV_Algorithm | XML_Algorithm.

Record Algorithm : Type := mkAlgorithm {
  class_of : algorithm_class;
  address_parser : pystr -> list (pystr * pystr)
}.

(** A [DataProcess] object.  [dp_address_parser] is [None] while the
    attribute is not set: [__init__] assigns it only for an argument other
    than [None]. *)
Record DataProcess : Type := mkDataProcess {
  source : option Source;
  dp_address_parser : option (pystr -> list (pystr * pystr));
  algorithm : option Algorithm
}.

(** [DataProcess(source, address_parser, algorithm)]. *)
Definition DataProcess_init (source : option Source)
    (address_parser : option (pystr -> list (pystr * pystr)))
    (algorithm : option Algorithm) : DataProcess :=
  mkDataProcess source address_parser algorithm.

Definition setAddressParser (self : DataProcess)
    (address_parser : pystr -> list (pystr * pystr)) : DataProcess :=
  mkDataProcess (source self) (Some address_parser) (algorithm self).

Definition set_algorithm (self : DataProcess) (a : Algorithm) : DataProcess :=
  mkDataProcess (source self) (dp_address_parser self) (Some a).

Definition set_source (self : DataProcess) (s : Source) : DataProcess :=
  mkDataProcess (Some s) (dp_address_parser self) (algorithm self).

(** [clean], the same method in both classes: one rename.  In [process]
    the intermediate file exists whenever [clean] is reached. *)
Definition clean (source : Source) : list event * result unit :=
  match dirtypath source with
  | None => ([], Raise TypeError)
  | Some dirty =>
      match cleanpath source with
      | None => ([], Raise TypeError)
      | Some cleaned => ([Rename dirty cleaned], Ok tt)
      end
  end.

(** What a step of [process] gives: the file effects, how it ended, and
    the object as the step leaves it. *)
Definition outcome : Type := list event * result unit * DataProcess.

(** [first; second], the second only when the first returned. *)
Definition and_then (first : outcome) (second : DataProcess -> outcome) : outcome :=
  match first with
  | (evs, Ok _, self) =>
      match second self with
      | (evs', res, self') => (evs ++ evs', res, self')
      end
  | (evs, Raise e, self) => (evs, Raise e, self)
  end.

(** The three parts of an outcome. *)
Definition events_of (o : outcome) : list event := fst (fst o).
Definition result_of (o : outcome) : result unit := snd (fst o).
Definition object_of (o : outcome) : DataProcess := snd o.

Section Process.
Variable bytes_decode : list N -> result pystr.
Variable unicode_lower : pystr -> pystr.
Variable decodes : pystr -> pystr -> bool.
Variable element : Type.
Variable find : element -> pystr -> option element.
Variable text : element -> option pystr.
(** What the readers yield: [csv.reader] from the raw file, opened with
    the detected encoding; [csv.DictReader] from the intermediate file;
    [root.iter(header)] of the tree parsed from the raw file. *)
Variable raw_rows : list row.
Variable entities : list entity.
Variable elements : list element.

(** [format_correction] on the files: the intermediate file is created,
    then the rows are written to it. *)
Definition CSV_format_correction (source : Source) : list event * result unit :=
  match rawpath source with
  | None => ([], Raise TypeError)
  | Some _ =>
      match dirtypath source with
      | None => ([], Raise TypeError)
      | Some dirty =>
          let (rows, res) := format_correction raw_rows in
          (Open_w dirty :: map (Writerow dirty) rows, res)
      end
  end.

(** An unbound local [fmt_algorithm] is an [UnboundLocalError], a
    subclass of [NameError]. *)
Definition prepareData (self : DataProcess) : outcome :=
  match source self with
  | None => ([], Raise AttributeError, self)
  | Some src =>
      match py_getitem (metadata src) (py "format") with
      | Raise e => ([], Raise e, self)
      | Ok fmt =>
          if eq_lit fmt (py "csv") then
            match dp_address_parser self with
            | None => ([], Raise AttributeError, self)
            | Some parser =>
                match char_encode_check decodes src with
                | Raise e => ([], Raise e, self)
                | Ok _ =>
                    match CSV_format_correction src with
                    | (evs, Raise e) => (evs, Raise e, self)
                    | (evs, Ok _) =>
                        (evs, Ok tt, set_algorithm self (mkAlgorithm CSV_Algorithm parser))
                    end
                end
            end
          else if eq_lit fmt (py "xml") then
            match dp_address_parser self with
            | None => ([], Raise AttributeError, self)
            | Some parser =>
                ([], Ok tt, set_algorithm self (mkAlgorithm XML_Algorithm parser))
            end
          else ([], Raise NameError, self)
      end
  end.

Definition extractLabels (self : DataProcess) : outcome :=
  match algorithm self with
  | None => ([], Raise AttributeError, self)
  | Some a =>
      match source self with
      | None => ([], Raise AttributeError, self)
      | Some src =>
          match class_of a with
          | CSV_Algorithm =>
              let (res, src') := CSV_extract_labels src in ([], res, set_source self src')
          | XML_Algorithm =>
              let (res, src') := XML_extract_labels src in ([], res, set_source self src')
          end
      end
  end.

(** [DataProcess.parse]; without a source the test [hasattr(source,
    'label_map')] fails and [ValueError] is raised. *)
Definition DataProcess_parse (self : DataProcess) : outcome :=
  match algorithm self with
  | None => ([], Raise AttributeError, self)
  | Some a =>
      match source self with
      | None => ([], Raise ValueError, self)
      | Some src =>
          match class_of a with
          | CSV_Algorithm =>
              let (evs, res) :=
                CSV_parse bytes_decode unicode_lower (address_parser a) decodes src entities in
              (evs, res, self)
          | XML_Algorithm =>
              let (evs, res) :=
                XML_parse bytes_decode unicode_lower (address_parser a) decodes find text
                  src elements in
              (evs, res, self)
          end
      end
  end.

Definition DataProcess_clean (self : DataProcess) : outcome :=
  match algorithm self with
  | None => ([], Raise AttributeError, self)
  | Some _ =>
      match source self with
      | None => ([], Raise AttributeError, self)
      | Some src => let (evs, res) := clean src in (evs, res, self)
      end
  end.

(** [blankFill]; [rows] is what [csv.reader] yields from the clean file. *)
Definition blankFill (self : DataProcess) (rows : list row) : outcome :=
  match algorithm self with
  | None => ([], Raise AttributeError, self)
  | Some _ =>
      match source self with
      | None => ([], Raise AttributeError, self)
      | Some src => let (evs, res) := blank_fill src rows in (evs, res, self)
      end
  end.

Definition process (self : DataProcess) : outcome :=
  and_then (and_then (and_then (prepareData self) extractLabels) DataProcess_parse)
    DataProcess_clean.
End Process.

(* ------------------------------------------------------------------ *)
(** ** The records of the intermediate file, as [parse] reads them *)



(* ------------------------------------------------------------------ *)
(** ** Sample externals and datasets *)

(** Stand-ins for the interpreter and the parser on ASCII samples. *)
Definition sample_decode : list N -> result pystr := fun _ => Raise UnicodeDecodeError.
Definition sample_lower : pystr -> pystr := fun s => s.
Definition sample_parser : pystr -> list (pystr * pystr) := fun s => [(s, py "road")].
Definition sample_decodes : pystr -> pystr -> bool := fun _ _ => true.

(** A small element tree with the search [.//name]: the first descendant
    with that tag, in document order. *)
Inductive xml : Type := Elem (name : pystr) (txt : option pystr) (children : list xml).

Fixpoint descendant (name : pystr) (e : xml) : option xml :=
  match e with
  | Elem _ _ cs =>
      (fix go (l : list xml) : option xml :=
         match l with
         | [] => None
         | c :: l' =>
             match c with
             | Elem t _ _ =>
                 if eqb_str t name then Some c
                 else match descendant name c with
                      | Some x => Some x
                      | None => go l'
                      end
             end
         end) cs
  end.

Definition sample_find (e : xml) (path : pystr) : option xml :=
  if is_prefix (py ".//") path then descendant (skipn 3 path) e else None.
Definition sample_text (e : xml) : option pystr :=
  match e with Elem _ t _ => t end.

(** The source as [DataProcess.process] hands it to [parse]: validated,
    then labelled. *)
Definition prepared_csv (md : json) : Source := snd (CSV_extract_labels (validated md)).
Definition prepared_xml (md : json) : Source := snd (XML_extract_labels (validated md)).

Definition d_dirty : pystr := py "./pddir/dirty/d-dirty.csv".
Definition d_temp : pystr := py "./pddir/dirty/d-dirty.csv-temp".

(** A file store in which only the intermediate file exists. *)
Definition fs_with_dirty (rows : list row) : store := upd (fun _ => None) d_dirty (Some rows).

(** info = {"bus_name": "Name"}, CSV and XML. *)
Definition md_csv_name : json :=
  JObj [(py "format", JStr (py "csv")); (py "file", JStr (py "d.csv"));
        (py "info", JObj [(py "bus_name", JStr (py "Name"))])].
Definition md_xml_name : json :=
  JObj [(py "format", JStr (py "xml")); (py "file", JStr (py "d.xml"));
        (py "header", JStr (py "business"));
        (py "info", JObj [(py "bus_name", JStr (py "Name"))])].

(** The same with force = {"country": "canada"}. *)
Definition md_csv_force : json :=
  JObj [(py "format", JStr (py "csv")); (py "file", JStr (py "d.csv"));
        (py "info", JObj [(py "bus_name", JStr (py "Name"))]);
        (py "force", JObj [(py "country", JStr (py "canada"))])].
Definition md_xml_force : json :=
  JObj [(py "format", JStr (py "xml")); (py "file", JStr (py "d.xml"));
        (py "header", JStr (py "business"));
        (py "info", JObj [(py "bus_name", JStr (py "Name"))]);
        (py "force", JObj [(py "country", JStr (py "canada"))])].

(** The same as [md_csv_name] with a declared encoding. *)
Definition md_csv_utf8 : json :=
  JObj [(py "format", JStr (py "csv")); (py "file", JStr (py "d.csv"));
        (py "encoding", JStr (py "utf-8"));
        (py "info", JObj [(py "bus_name", JStr (py "Name"))])].

(** info = {"bus_name": "Name", "full_addr": "Addr"} and
    info = {"bus_no": ["No"]}, with one record each, and a parser stand-in
    for the address of that record. *)
Definition md_csv_addr : json :=
  JObj [(py "format", JStr (py "csv")); (py "file", JStr (py "d.csv"));
        (py "info", JObj [(py "bus_name", JStr (py "Name"));
                          (py "full_addr", JStr (py "Addr"))])].
Definition md_csv_list : json :=
  JObj [(py "format", JStr (py "csv")); (py "file", JStr (py "d.csv"));
        (py "info", JObj [(py "bus_no", JArr [JStr (py "No")])])].
Definition records_addr : list entity :=
  [[(py "Name", py "Acme"); (py "Addr", py "123 Main St,  Springfield")]].
Definition records_no : list entity := [[(py "No", py "7")]].
Definition springfield_parser : pystr -> list (pystr * pystr) :=
  fun _ => [(py "123", py "house_number"); (py "main st", py "road");
            (py "springfield", py "city"); (py "elm st", py "road")].

(** Records with the column [Name], and records of a file whose only
    column is [Title]. *)
Definition records_name : list entity :=
  [[(py "Name", py "Acme")]; [(py "Name", py "Bolt")]].
Definition records_title : list entity :=
  [[(py "Title", py "Acme")]; [(py "Title", py "Bolt")]].

(** <business><Name>Acme</Name></business>, <business><Name/></business>
    and <business><Title>Bolt</Title></business>. *)
Definition elements_name : list xml :=
  [Elem (py "business") None [Elem (py "Name") (Some (py "Acme")) []]].
Definition elements_sparse : list xml :=
  [Elem (py "business") None [Elem (py "Name") (Some (py "Acme")) []];
   Elem (py "business") None [Elem (py "Name") None []];
   Elem (py "business") None [Elem (py "Title") (Some (py "Bolt")) []]].

(** CSV rows as [csv.reader] yields them: a file that starts with a blank
    line, and a file whose first cell is a lone byte-order mark. *)
Definition BOM : N := 65279.
Definition rows_blank_first : list row := [[]; [py "name"; py "city"]; [py "acme"]].
Definition rows_lone_bom : list row := [[[BOM]; py "name"]; [py "1"]].
Definition rows_bom : list row :=
  [[BOM :: py "id"; py "name"]; [py "1"]; [py "2"; py "b"; py "c"]].

(* ------------------------------------------------------------------ *)
(** ** Sample documents *)

(** [del d[k]]. *)
Fixpoint dict_del (k : pystr) (d : dict) : dict :=
  match d with
  | [] => []
  | (k', v) :: d' => if eqb_str k k' then d' else (k', v) :: dict_del k d'
  end.

(** A document that uses every tag the validator looks at. *)
Definition info_ok : dict :=
  [(py "bus_name", JStr (py "Name")); (py "address", JObj [(py "city", JStr (py "City"))])].
Definition doc_ok : dict :=
  [(py "format", JStr (py "xml")); (py "file", JStr (py "d.xml"));
   (py "header", JStr (py "business")); (py "url", JStr (py "http://example.org/d.xml"));
   (py "info", JObj info_ok);
   (py "force", JObj [(py "country", JStr (py "canada"))])].

(** The same document with one rule broken at a time, and the exception
    the rule's check raises. *)
Definition broken_docs : list (json * exn) :=
  [ (JObj (dict_del (py "format") doc_ok), LookupError);
    (JObj (dict_del (py "file") doc_ok), LookupError);
    (JObj (dict_del (py "info") doc_ok), LookupError);
    (JObj (dict_del (py "header") doc_ok), LookupError);
    (JObj (dict_set (py "format") (JNum 1) doc_ok), TypeError);
    (JObj (dict_set (py "file") (JNum 1) doc_ok), TypeError);
    (JObj (dict_set (py "info") (JStr (py "Name")) doc_ok), TypeError);
    (JObj (dict_set (py "header") (JNum 1) doc_ok), TypeError);
    (JObj (dict_set (py "url") (JNum 1) doc_ok), TypeError);
    (JObj (dict_set (py "info")
             (JObj (dict_set (py "address") (JStr (py "City")) info_ok)) doc_ok),
     TypeError);
    (JObj (dict_set (py "force") (JStr (py "canada")) doc_ok), TypeError);
    (JObj (dict_set (py "format") (JStr (py "json")) doc_ok), ValueError);
    (JObj (dict_set (py "info")
             (JObj (dict_set (py "full_addr") (JStr (py "Addr")) info_ok)) doc_ok),
     ValueError);
    (JObj (dict_set (py "info")
             (JObj (dict_set (py "address")
                      (JObj [(py "street", JStr (py "Street"))]) info_ok)) doc_ok),
     ValueError);
    (JObj (dict_set (py "force") (JObj [(py "region", JStr (py "west"))]) doc_ok),
     ValueError);
    (JObj (dict_set (py "force") (JObj [(py "city", JStr (py "ottawa"))]) doc_ok),
     ValueError) ].

(** The document of [md_csv_addr] with the two tags of info in the other
    order, and a document whose address group locates the city by a list. *)
Definition md_csv_reordered : json :=
  JObj [(py "format", JStr (py "csv")); (py "file", JStr (py "d.csv"));
        (py "info", JObj [(py "full_addr", JStr (py "Addr"));
                          (py "bus_name", JStr (py "Name"))])].
Definition md_csv_city_list : json :=
  JObj [(py "format", JStr (py "csv")); (py "file", JStr (py "d.csv"));
        (py "info", JObj [(py "bus_name", JStr (py "Name"));
                          (py "address",
                           JObj [(py "city", JArr [JStr (py "City"); JStr (py "Town")])])])].


(* ================================================================== *)
(** * Properties *)

Unset Implicit Arguments.
Arguments py : simpl never.

(** [next H E]: case analysis on the first statement of the monadic
    program in [H], its outcome recorded as [E]. *)
Ltac next H E :=
  lazymatch type of H with
  | bind ?m _ = _ => destruct m as [?|?] eqn:E; cbn [bind] in H
  end.

(** The same, naming the value of a statement that returns. *)
Ltac next_as H x E :=
  lazymatch type of H with
  | bind ?m _ = _ => destruct m as [x|?] eqn:E; cbn [bind] in H
  end.

(** ** Strings, membership and lookup *)

Lemma eqb_str_eq (a b : pystr) : eqb_str a b = true <-> a = b.
Proof.
  revert b; induction a as [|x a IH]; intros [|y b]; simpl; split; intro H;
    try reflexivity; try discriminate.
  - apply andb_true_iff in H as [Hx Hab].
    apply N.eqb_eq in Hx. apply IH in Hab. congruence.
  - injection H as -> ->. rewrite N.eqb_refl. simpl. now apply IH.
Qed.

Lemma eqb_str_refl (a : pystr) : eqb_str a a = true.
Proof. now apply eqb_str_eq. Qed.

Lemma eqb_str_neq (a b : pystr) : eqb_str a b = false <-> a <> b.
Proof.
  split.
  - intros H E. apply eqb_str_eq in E. congruence.
  - intros H. destruct (eqb_str a b) eqn:E; [|reflexivity].
    apply eqb_str_eq in E. contradiction.
Qed.

Lemma eqb_str_sym (a b : pystr) : eqb_str a b = eqb_str b a.
Proof.
  destruct (eqb_str a b) eqn:E.
  - apply eqb_str_eq in E. subst. symmetry. apply eqb_str_refl.
  - symmetry. apply eqb_str_neq. apply eqb_str_neq in E. congruence.
Qed.

Lemma mem_str_In (x : pystr) (l : list pystr) : mem_str x l = true <-> In x l.
Proof.
  unfold mem_str. rewrite existsb_exists. split.
  - intros [y [Hy E]]. apply eqb_str_eq in E. now subst.
  - intros H. exists x. split; [assumption | apply eqb_str_refl].
Qed.

Lemma mem_str_not_In (x : pystr) (l : list pystr) : mem_str x l = false <-> ~ In x l.
Proof.
  rewrite <- mem_str_In. destruct (mem_str x l); split; congruence.
Qed.

Lemma has_key_lookup {V} (k : pystr) (d : list (pystr * V)) :
  has_key k d = match lookup k d with Some _ => true | None => false end.
Proof.
  unfold has_key, mem_str, keys.
  induction d as [|[k' v] d IH]; simpl; [reflexivity|].
  destruct (eqb_str k k'); simpl; [reflexivity | exact IH].
Qed.

Lemma has_key_In {V} (k : pystr) (d : list (pystr * V)) :
  has_key k d = true <-> In k (keys d).
Proof. apply mem_str_In. Qed.

(** ** Loops that may raise *)

Lemma for_each_ok {A} (l : list A) (body : A -> result unit) :
  for_each l body = Ok tt <-> Forall (fun x => body x = Ok tt) l.
Proof.
  induction l as [|x l IH]; simpl.
  - split; [constructor | reflexivity].
  - split.
    + intros H. destruct (body x) as [[]|e] eqn:E; simpl in H; [|discriminate].
      constructor; [exact E | now apply IH].
    + intros H. inversion H as [|? ? Hx Hl]; subst.
      rewrite Hx. simpl. now apply IH.
Qed.

Lemma for_each_raise {A} (l : list A) (body : A -> result unit) (e : exn) :
  for_each l body = Raise e -> exists x, In x l /\ body x = Raise e.
Proof.
  induction l as [|x l IH]; simpl; [discriminate|].
  destruct (body x) as [[]|e'] eqn:E; simpl; intros H.
  - destruct (IH H) as [y [Hy Hb]]. exists y. auto.
  - injection H as ->. exists x. auto.
Qed.

(** ** [Source.parse] *)

Lemma raise_if_Ok (c : bool) (e : exn) (u : unit) : raise_if c e = Ok u -> c = false.
Proof. destruct c; simpl; [discriminate | reflexivity]. Qed.

Lemma raise_if_Raise (c : bool) (e e' : exn) : raise_if c e = Raise e' -> c = true /\ e' = e.
Proof. destruct c; simpl; [intros [= ->]; auto | discriminate]. Qed.

Lemma is_str_true (v : json) : is_str v = true -> exists s, v = JStr s.
Proof. destruct v; try discriminate. eauto. Qed.

Lemma is_dict_true (v : json) : is_dict v = true -> exists d, v = JObj d.
Proof. destruct v; try discriminate. eauto. Qed.

Lemma has_key_false {V} (k : pystr) (d : list (pystr * V)) :
  has_key k d = false -> lookup k d = None.
Proof. rewrite has_key_lookup. destruct (lookup k d); [discriminate | reflexivity]. Qed.

Lemma has_key_true {V} (k : pystr) (d : list (pystr * V)) :
  has_key k d = true -> exists v, lookup k d = Some v.
Proof. rewrite has_key_lookup. destruct (lookup k d); [eauto | discriminate]. Qed.

(** An optional tag that must be a string when it is looked at. *)
Lemma str_tag_check (c : bool) (d : dict) (k : pystr) (r : result unit) :
  (if c && has_key k d
   then h <- py_getitem (JObj d) k ;; raise_if (negb (is_str h)) TypeError
   else Ok tt) = r ->
  match r with
  | Ok _ => c = true -> forall v, lookup k d = Some v -> exists s, v = JStr s
  | Raise e => e = TypeError /\ c = true /\ exists v, lookup k d = Some v /\ is_str v = false
  end.
Proof.
  intros <-. rewrite has_key_lookup. simpl.
  destruct c; simpl; [| discriminate].
  destruct (lookup k d) as [v|]; simpl; [| discriminate].
  destruct (is_str v) eqn:E; simpl.
  - intros _ v' [= <-]. now apply is_str_true.
  - repeat split. eauto.
Qed.

(** The address group of [info]: an object with address keys only. *)
Lemma address_check (inf : dict) (r : result unit) :
  (if has_key (py "address") inf
   then a <- py_getitem (JObj inf) (py "address") ;;
        raise_if (negb (is_dict a)) TypeError ;;;
        for_each (dict_keys a)
          (fun i => raise_if (negb (mem_str i ADDR_FIELD_LABEL)) ValueError)
   else Ok tt) = r ->
  match r with
  | Ok _ => forall a, address_group inf = Some a ->
                      exists ad, a = JObj ad /\ incl (keys ad) ADDR_FIELD_LABEL
  | Raise e =>
      (e = TypeError /\ exists v, address_group inf = Some v /\ is_dict v = false) \/
      (e = ValueError /\ exists ad k, address_group inf = Some (JObj ad) /\
                                      In k (keys ad) /\ ~ In k ADDR_FIELD_LABEL)
  end.
Proof.
  intros <-. unfold address_group. rewrite has_key_lookup. cbn [py_getitem].
  destruct (lookup (py "address") inf) as [a|]; cbn [bind]; [| discriminate].
  destruct a as [ | | | | | ad]; cbn [is_dict negb raise_if bind dict_keys];
    try (left; split; [reflexivity | eauto]).
  destruct (for_each (keys ad) _) as [[]|e] eqn:E.
  - intros a [= <-]. exists ad. split; [reflexivity|].
    apply for_each_ok in E. rewrite Forall_forall in E.
    intros k Hk. specialize (E k Hk). apply raise_if_Ok in E.
    apply negb_false_iff in E. now apply mem_str_In.
  - apply for_each_raise in E as [k [Hk E]].
    apply raise_if_Raise in E as [E ->]. apply negb_true_iff in E.
    right. split; [reflexivity|]. exists ad, k. repeat split; auto.
    now apply mem_str_not_In.
Qed.

(** The force group: an object whose keys are force labels outside the
    address group. *)
Lemma force_check (d inf : dict) (r : result unit) :
  (forall a, address_group inf = Some a -> exists ad, a = JObj ad) ->
  (if has_key (py "force") d
   then f <- py_getitem (JObj d) (py "force") ;;
        raise_if (negb (is_dict f)) TypeError ;;;
        for_each (dict_keys f)
          (fun i =>
             if negb (mem_str i FORCE_LABEL) then Raise ValueError
             else
               clash <- (if has_key (py "address") inf
                         then a <- py_getitem (JObj inf) (py "address") ;; py_in i a
                         else Ok false) ;;
               raise_if clash ValueError)
   else Ok tt) = r ->
  match r with
  | Ok _ => forall f, lookup (py "force") d = Some f ->
      exists fd, f = JObj fd /\ incl (keys fd) FORCE_LABEL /\
        forall k ad, In k (keys fd) -> address_group inf = Some (JObj ad) ->
                     ~ In k (keys ad)
  | Raise e =>
      (e = TypeError /\ exists v, lookup (py "force") d = Some v /\ is_dict v = false) \/
      (e = ValueError /\ exists fd k, lookup (py "force") d = Some (JObj fd) /\
          In k (keys fd) /\
          (~ In k FORCE_LABEL \/
           exists ad, address_group inf = Some (JObj ad) /\ In k (keys ad)))
  end.
Proof.
  intros Haddr <-. unfold address_group in *. rewrite !has_key_lookup.
  cbn [py_getitem].
  destruct (lookup (py "force") d) as [f|]; cbn [bind]; [| discriminate].
  destruct f as [ | | | | | fd]; cbn [is_dict negb raise_if bind dict_keys];
    try (left; split; [reflexivity | eauto]).
  match goal with |- context [for_each (keys fd) ?b] => set (body := b) end.
  assert (Hbody : forall i,
    (body i = Ok tt /\ In i FORCE_LABEL /\
       forall ad, lookup (py "address") inf = Some (JObj ad) -> ~ In i (keys ad)) \/
    (body i = Raise ValueError /\
       (~ In i FORCE_LABEL \/
        exists ad, lookup (py "address") inf = Some (JObj ad) /\ In i (keys ad)))).
  { intros i. unfold body.
    destruct (mem_str i FORCE_LABEL) eqn:Ei; cbn [negb].
    2:{ right. split; [reflexivity|]. left. now apply mem_str_not_In. }
    apply mem_str_In in Ei.
    destruct (lookup (py "address") inf) as [a|] eqn:Ea; cbn [bind raise_if].
    - destruct (Haddr a eq_refl) as [ad ->]. cbn [py_in bind].
      destruct (has_key i ad) eqn:Ek; cbn [raise_if].
      + right. split; [reflexivity|]. right. exists ad. split; [reflexivity|].
        now apply has_key_In.
      + left. repeat split; auto. intros ad' [= <-].
        rewrite <- has_key_In. congruence.
    - left. repeat split; auto. discriminate. }
  destruct (for_each (keys fd) body) as [[]|e] eqn:E.
  - intros f [= <-]. exists fd. split; [reflexivity|].
    apply for_each_ok in E. rewrite Forall_forall in E.
    split.
    + intros k Hk. specialize (E k Hk).
      destruct (Hbody k) as [[_ [H _]] | [H _]]; [exact H | congruence].
    + intros k ad Hk Ha. specialize (E k Hk).
      destruct (Hbody k) as [[_ [_ H]] | [H _]]; [now apply H | congruence].
  - apply for_each_raise in E as [k [Hk E]].
    destruct (Hbody k) as [[H _] | [H1 H2]]; [congruence|].
    assert (e = ValueError) as -> by congruence.
    right. split; [reflexivity|]. exists fd, k. repeat split; auto.
Qed.

Lemma getitem_lookup (d : dict) (k : pystr) (v : json) :
  lookup k d = Some v -> py_getitem (JObj d) k = Ok v.
Proof. intros H. simpl. now rewrite H. Qed.

Lemma parse_checks_object (d : dict) (r : result pystr) :
  parse_checks (JObj d) = r ->
  match r with
  | Ok f => structural_rules (JObj d) /\ lookup (py "file") d = Some (JStr f)
  | Raise e =>
      (e = LookupError /\ missing_tag (JObj d)) \/
      (e = TypeError /\ wrong_type (JObj d)) \/
      (e = ValueError /\ invalid_value (JObj d))
  end.
Proof.
  unfold parse_checks. cbn [py_in bind]. intros H.
  (* required tags *)
  next H K1.
  2:{ subst r. apply raise_if_Raise in K1 as [K ->].
      apply negb_true_iff, has_key_false in K. left. split; [reflexivity | left; exact K]. }
  next H K2.
  2:{ subst r. apply raise_if_Raise in K2 as [K ->].
      apply negb_true_iff, has_key_false in K.
      left. split; [reflexivity | right; left; exact K]. }
  next H K3.
  2:{ subst r. apply raise_if_Raise in K3 as [K ->].
      apply negb_true_iff, has_key_false in K.
      left. split; [reflexivity | right; right; left; exact K]. }
  apply raise_if_Ok, negb_false_iff, has_key_true in K1 as [fmt Hfmt].
  apply raise_if_Ok, negb_false_iff, has_key_true in K2 as [file Hfile].
  apply raise_if_Ok, negb_false_iff, has_key_true in K3 as [info Hinfo].
  rewrite (@getitem_lookup _ _ _ Hfmt) in H. cbn [bind] in H.
  (* required tag types *)
  next H T1.
  2:{ subst r. apply raise_if_Raise in T1 as [T ->]. apply negb_true_iff in T.
      right; left. split; [reflexivity | right; left; eauto]. }
  rewrite (@getitem_lookup _ _ _ Hfile) in H. cbn [bind] in H.
  next H T2.
  2:{ subst r. apply raise_if_Raise in T2 as [T ->]. apply negb_true_iff in T.
      right; left. split; [reflexivity | right; right; left; eauto]. }
  rewrite (@getitem_lookup _ _ _ Hinfo) in H. cbn [bind] in H.
  next H T3.
  2:{ subst r. apply raise_if_Raise in T3 as [T ->]. apply negb_true_iff in T.
      right; left. split; [reflexivity | do 3 right; left; eauto]. }
  apply raise_if_Ok, negb_false_iff, is_str_true in T1 as [f ->].
  apply raise_if_Ok, negb_false_iff, is_str_true in T2 as [fl ->].
  apply raise_if_Ok, negb_false_iff, is_dict_true in T3 as [inf ->].
  cbn [eq_lit] in H.
  (* required formats *)
  next H F1.
  2:{ subst r. apply raise_if_Raise in F1 as [F ->].
      apply andb_true_iff in F as [Fx Fc].
      apply negb_true_iff, eqb_str_neq in Fx. apply negb_true_iff, eqb_str_neq in Fc.
      right; right. split; [reflexivity | left; eauto]. }
  apply raise_if_Ok in F1.
  assert (Hf : f = py "csv" \/ f = py "xml").
  { destruct (eqb_str f (py "xml")) eqn:Ex; [right; now apply eqb_str_eq|].
    destruct (eqb_str f (py "csv")) eqn:Ec; [left; now apply eqb_str_eq|].
    discriminate. }
  clear F1.
  (* header *)
  next H H1.
  2:{ subst r. apply raise_if_Raise in H1 as [E ->].
      apply andb_true_iff in E as [Ec Eh].
      apply negb_true_iff, eqb_str_neq in Ec. apply negb_true_iff, has_key_false in Eh.
      destruct Hf as [-> | ->]; [congruence|].
      left. split; [reflexivity | do 3 right; split; assumption]. }
  apply raise_if_Ok in H1.
  next H H2; apply str_tag_check in H2.
  2:{ subst r. destruct H2 as [-> [Ec [v [Hv Tv]]]].
      apply negb_true_iff, eqb_str_neq in Ec.
      destruct Hf as [-> | ->]; [congruence|].
      right; left. split; [reflexivity | do 4 right; left; eauto]. }
  (* url *)
  change (has_key (py "url") d) with (true && has_key (py "url") d) in H.
  next H U; apply str_tag_check in U.
  2:{ subst r. destruct U as [-> [_ [v [Hv Tv]]]].
      right; left. split; [reflexivity | do 5 right; left; eauto]. }
  (* full_addr and address *)
  cbn [py_in bind] in H.
  replace (if has_key (py "address") inf then Ok (has_key (py "full_addr") inf) else Ok false)
    with (Ok (A:=bool) (has_key (py "address") inf && has_key (py "full_addr") inf)) in H
    by (destruct (has_key (py "address") inf); reflexivity).
  cbn [bind] in H.
  next H B.
  2:{ subst r. apply raise_if_Raise in B as [B ->].
      apply andb_true_iff in B as [Ba B]. apply andb_true_iff in B as [_ Bf].
      apply has_key_In in Ba, Bf.
      right; right. split; [reflexivity|]. right. exists inf.
      split; [exact Hinfo | left; auto]. }
  apply raise_if_Ok in B.
  next H A; apply address_check in A.
  2:{ subst r. destruct A as [[-> [v [Hv Tv]]] | [-> [ad [k [Ha [Hk Hn]]]]]].
      - right; left. split; [reflexivity|]. do 6 right; left. exists inf, v. auto.
      - right; right. split; [reflexivity|]. right. exists inf. split; [exact Hinfo|].
        right; left. exists ad, k. auto. }
  assert (Haddr : forall v, address_group inf = Some v -> exists ad, v = JObj ad).
  { intros v Hv. destruct (A v Hv) as [ad [-> _]]. eauto. }
  next H G; apply (@force_check d inf _ Haddr) in G.
  2:{ subst r. destruct G as [[-> [v [Hv Tv]]] | [-> [fd [k [Hfd [Hk Hc]]]]]].
      - right; left. split; [reflexivity|]. do 7 right. eauto.
      - right; right. split; [reflexivity|]. right. exists inf. split; [exact Hinfo|].
        right; right. exists fd, k. auto. }
  subst r. split; [| assumption].
  exists f, fl, inf. cbn [tag]. repeat split; try assumption.
  - intros ->. change (eqb_str (py "xml") (py "csv")) with false in H1, H2.
    cbn [negb andb] in H1, H2. apply negb_false_iff in H1.
    apply has_key_true in H1 as [h Hh]. destruct (H2 eq_refl h Hh) as [s ->]. eauto.
  - intros u Hu. now apply (U eq_refl).
  - intros [Ha Hfa]. apply has_key_In in Ha, Hfa. rewrite Ha, Hfa in B. discriminate.
Qed.

Lemma parse_checks_cases (md : json) (r : result pystr) :
  parse_checks md = r ->
  match r with
  | Ok f => structural_rules md /\ tag md (py "file") = Some (JStr f)
  | Raise e =>
      (e = LookupError /\ missing_tag md) \/
      (e = TypeError /\ wrong_type md) \/
      (e = ValueError /\ invalid_value md)
  end.
Proof.
  destruct md as [| b | z | s | l | d]; try apply parse_checks_object.
  1-3: intros <-; right; left; split; [reflexivity | left; reflexivity].
  - intros <-. unfold parse_checks. cbn [py_in bind].
    destruct (is_substring (py "format") s); cbn [negb raise_if bind];
      [| left; split; [reflexivity | left; reflexivity]].
    destruct (is_substring (py "file") s); cbn [negb raise_if bind];
      [| left; split; [reflexivity | left; reflexivity]].
    destruct (is_substring (py "info") s); cbn [negb raise_if bind py_getitem];
      [| left; split; [reflexivity | left; reflexivity]].
    right; left; split; [reflexivity | left; reflexivity].
  - intros <-. unfold parse_checks. cbn [py_in bind].
    destruct (existsb _ l); cbn [negb raise_if bind];
      [| left; split; [reflexivity | left; reflexivity]].
    destruct (existsb _ l); cbn [negb raise_if bind];
      [| left; split; [reflexivity | left; reflexivity]].
    destruct (existsb _ l); cbn [negb raise_if bind py_getitem];
      [| left; split; [reflexivity | left; reflexivity]].
    right; left; split; [reflexivity | left; reflexivity].
Qed.

(** The three kinds of violation exclude the rules. *)
Lemma rules_exclude_violations (md : json) :
  structural_rules md -> ~ missing_tag md /\ ~ wrong_type md /\ ~ invalid_value md.
Proof.
  intros [fmt [file [info [Hfmt [Hfile [Hinfo [Hf [Hh [Hu [Hboth [Ha Hforce]]]]]]]]]]].
  repeat split.
  - intros [H | [H | [H | [H1 H2]]]]; try congruence.
    assert (fmt = py "xml") as E by congruence.
    destruct (Hh E) as [h Hhd]. congruence.
  - intros [H | [[v [H T]] | [[v [H T]] | [[v [H T]] | [[v [H1 [H T]]] |
            [[v [H T]] | [[inf [v [H1 [H T]]]] | [v [H T]]]]]]]]].
    + destruct md; simpl in *; congruence.
    + rewrite Hfmt in H. injection H as <-. discriminate.
    + rewrite Hfile in H. injection H as <-. discriminate.
    + rewrite Hinfo in H. injection H as <-. discriminate.
    + assert (fmt = py "xml") as E by congruence.
      destruct (Hh E) as [h Hhd]. rewrite Hhd in H. injection H as <-. discriminate.
    + destruct (Hu v H) as [s ->]. discriminate.
    + assert (inf = info) as -> by congruence.
      destruct (Ha v H) as [ad [-> _]]. discriminate.
    + destruct (Hforce v H) as [fd [-> _]]. discriminate.
  - intros [[f [H [H1 H2]]]
            | [inf [H [Hb | [[ad [k [Had [Hk Hn]]]] | [fd [k [Hfd [Hk Hc]]]]]]]]].
    + assert (f = fmt) as -> by congruence. destruct Hf; contradiction.
    + assert (inf = info) as -> by congruence. contradiction.
    + assert (inf = info) as -> by congruence.
      destruct (Ha _ Had) as [ad' [E Hincl]]. injection E as <-.
      apply Hn, Hincl, Hk.
    + assert (inf = info) as -> by congruence.
      destruct (Hforce _ Hfd) as [fd' [E [Hincl Hclash]]]. injection E as <-.
      destruct Hc as [Hn | [ad [Had Hkad]]].
      * apply Hn, Hincl, Hk.
      * exact (Hclash k ad Hk Had Hkad).
Qed.

(** C1.  [Source.parse] accepts a metadata document exactly when all
    structural rules hold, and only then are the raw, intermediate and clean
    paths derived (from the file name, last extension stripped); a rejected
    document leaves the object as it was, and the exception is [LookupError]
    only when a required tag is missing, [TypeError] only when a tag has the
    wrong type, [ValueError] only when a value is not allowed.  None of the
    three kinds of violation is compatible with the rules, and each rule,
    broken alone in a document that is otherwise accepted, raises the
    exception of its kind. *)
Theorem metadata_validator_accepts_iff_rules :
  (forall md : json,
     (validate md = Ok tt <-> structural_rules md) /\
     (validate md = Ok tt ->
        exists file, tag md (py "file") = Some (JStr file) /\
          rawpath (validated md) = Some (raw_of file) /\
          dirtypath (validated md) = Some (dirty_of file) /\
          cleanpath (validated md) = Some (clean_of file)) /\
     (forall e, validate md = Raise e ->
        validated md = Source_init md /\
        ((e = LookupError /\ missing_tag md) \/
         (e = TypeError /\ wrong_type md) \/
         (e = ValueError /\ invalid_value md))) /\
     (structural_rules md ->
        ~ missing_tag md /\ ~ wrong_type md /\ ~ invalid_value md)) /\
  validate (JObj doc_ok) = Ok tt /\
  Forall (fun broken => validate (fst broken) = Raise (snd broken)) broken_docs.
Proof.
  split; [| split; [vm_compute; reflexivity |]].
  2:{ unfold broken_docs. repeat (constructor; [vm_compute; reflexivity |]). constructor. }
  intros md. unfold validate, validated, Source_parse, Source_init. cbn [metadata].
  pose proof (@parse_checks_cases md _ eq_refl) as C.
  destruct (parse_checks md) as [f|e]; cbn [fst snd].
  - destruct C as [R Hfile]. rename f into file.
    repeat split; auto using rules_exclude_violations.
    + exists file. cbn. auto.
    + discriminate.
    + discriminate.
    + now apply rules_exclude_violations.
    + now apply rules_exclude_violations.
    + now apply rules_exclude_violations.
  - split; [| split; [| split]].
    + split; [discriminate|]. intros R.
      destruct (rules_exclude_violations md R) as [N1 [N2 N3]].
      destruct C as [[_ C] | [[_ C] | [_ C]]]; contradiction.
    + discriminate.
    + intros e' [= <-]. split; [reflexivity | exact C].
    + apply rules_exclude_violations.
Qed.

(** ** The address projection *)

Lemma mem_str_cons (x y : pystr) (l : list pystr) :
  mem_str x (y :: l) = eqb_str x y || mem_str x l.
Proof. reflexivity. Qed.

(** Membership test, [index] and subscript together pick the first token
    with the label. *)
Lemma index_picks_first_token (label : pystr) (tokens : list (pystr * pystr)) :
  (if mem_str label (map snd tokens) then
     match list_index label (map snd tokens) with
     | Some ind =>
         match nth_error tokens ind with
         | Some tok => Ok (fst tok)
         | None => Raise IndexError
         end
     | None => Raise ValueError
     end
   else Ok []) = Ok (first_token label tokens).
Proof.
  unfold first_token.
  induction tokens as [|[t l] tokens IH]; [reflexivity|].
  cbn [map snd fst list_index find]. rewrite mem_str_cons, (eqb_str_sym label l).
  destruct (eqb_str l label) eqn:E; cbn [orb nth_error]; [reflexivity|].
  destruct (mem_str label (map snd tokens)) eqn:M; [| exact IH].
  destruct (list_index label (map snd tokens)) as [ind|]; cbn [nth_error]; exact IH.
Qed.

Lemma address_loop_app (tokens : list (pystr * pystr)) (labels ext : list pystr) (r : row) :
  Forall2 (fun afl e => lookup afl _ADDR_LABEL_TO_POSTAL = Some e) labels ext ->
  address_loop tokens labels r = Ok (r ++ map (fun e => first_token e tokens) ext).
Proof.
  intros H. revert r. induction H as [|afl e labels ext He _ IH]; intros r.
  - simpl. now rewrite app_nil_r.
  - cbn [address_loop map]. unfold address_cell at 1. rewrite He. cbn [bind].
    rewrite index_picks_first_token. cbn [bind].
    rewrite IH, <- app_assoc. reflexivity.
Qed.

Lemma address_cells_project (tokens : list (pystr * pystr)) (r : row) :
  address_cells tokens r = Ok (r ++ project tokens).
Proof.
  unfold address_cells, project. apply address_loop_app.
  unfold ADDR_FIELD_LABEL, postal_labels. cbn [map].
  repeat constructor.
Qed.

Lemma first_token_absent (label : pystr) (tokens : list (pystr * pystr)) :
  ~ In label (map snd tokens) -> first_token label tokens = [].
Proof.
  intros H. unfold first_token.
  destruct (find _ tokens) as [[t l]|] eqn:F; [| reflexivity].
  apply find_some in F as [Hin E]. cbn [snd] in E. apply eqb_str_eq in E. subst l.
  exfalso. apply H. apply in_map_iff. exists (t, label). auto.
Qed.

Lemma first_token_first (label t : pystr) (pre rest : list (pystr * pystr)) :
  ~ In label (map snd pre) -> first_token label (pre ++ (t, label) :: rest) = t.
Proof.
  intros H. unfold first_token.
  induction pre as [|[t' l'] pre IH]; cbn [app find snd fst].
  - now rewrite eqb_str_refl.
  - destruct (eqb_str l' label) eqn:E.
    + apply eqb_str_eq in E. subst. exfalso. apply H. now left.
    + apply IH. intros Hin. apply H. now right.
Qed.

Section Cells.
Variable bytes_decode : list N -> result pystr.
Variable unicode_lower : pystr -> pystr.
Variable address_parser : pystr -> list (pystr * pystr).

Lemma scrub_Ok (entry : pystr) :
  scrub bytes_decode unicode_lower entry = Ok (scrub_text unicode_lower entry).
Proof. reflexivity. Qed.

(** A scalar [full_addr] locator, in either variant: fetch, scrub, parse,
    seven cells. *)
Lemma cells_full_addr (get : json -> result pystr) (loc : json) (r : row) :
  is_list loc = false ->
  cells bytes_decode unicode_lower address_parser get full_addr loc r =
  (entry <- get loc ;;
   Ok (r ++ project (address_parser (scrub_text unicode_lower entry)))).
Proof.
  intros L. unfold cells. rewrite L, eqb_str_refl. cbn [andb].
  destruct (get loc) as [v|e]; cbn [bind]; [| reflexivity].
  rewrite scrub_Ok. cbn [bind].
  apply address_cells_project.
Qed.
(** A list [full_addr] locator: the listed values joined, then the same. *)
Lemma cells_full_addr_list (get : json -> result pystr) (l : list json) (r : row) :
  cells bytes_decode unicode_lower address_parser get full_addr (JArr l) r =
  (entry <- fold_left (fun acc i => entry <- acc ;; v <- get i ;; Ok (entry ++ v ++ py " "))
              l (Ok []) ;;
   Ok (r ++ project (address_parser (scrub_text unicode_lower entry)))).
Proof.
  unfold cells. cbn [is_list list_items].
  change (mem_str full_addr FORCE_LABEL) with false. rewrite eqb_str_refl. cbn [andb negb].
  destruct (fold_left _ l (Ok [])) as [v|e]; cbn [bind]; [| reflexivity].
  rewrite scrub_Ok. cbn [bind].
  apply address_cells_project.
Qed.

(** C4.  For every token list of the parser and every row under
    construction, the decomposer appends exactly seven cells, in the order
    unit, house_number, road, city, prov, country, postcode; each cell is
    the text of the first token carrying that column's external label
    (state for prov), the empty string when no token carries it.  Both
    parse methods reach it the same way, for a scalar and for a list
    [full_addr] locator: the value fetched from the record is scrubbed,
    parsed, and the seven cells are appended to the row. *)
Theorem address_decomposer_appends_seven_cells
    (tokens : list (pystr * pystr)) (r : row) :
  address_cells tokens r = Ok (r ++ project tokens) /\
  project tokens =
    [first_token (py "unit") tokens; first_token (py "house_number") tokens;
     first_token (py "road") tokens; first_token (py "city") tokens;
     first_token (py "state") tokens; first_token (py "country") tokens;
     first_token (py "postcode") tokens] /\
  length (project tokens) = 7 /\
  (forall label, ~ In label (map snd tokens) -> first_token label tokens = []) /\
  (forall label pre t rest,
     tokens = pre ++ (t, label) :: rest -> ~ In label (map snd pre) ->
     first_token label tokens = t) /\
  (forall get loc,
     is_list loc = false ->
     cells bytes_decode unicode_lower address_parser get full_addr loc r =
     (entry <- get loc ;;
      Ok (r ++ project (address_parser (scrub_text unicode_lower entry))))) /\
  (forall get l,
     cells bytes_decode unicode_lower address_parser get full_addr (JArr l) r =
     (entry <- fold_left
                 (fun acc i => entry <- acc ;; v <- get i ;; Ok (entry ++ v ++ py " "))
                 l (Ok []) ;;
      Ok (r ++ project (address_parser (scrub_text unicode_lower entry))))).
Proof.
  split; [apply address_cells_project|].
  split; [reflexivity|]. split; [reflexivity|].
  split; [intros label; apply first_token_absent|].
  split; [intros label pre t rest ->; apply first_token_first|].
  split.
  - intros get loc L. now apply cells_full_addr.
  - intros get l. apply cells_full_addr_list.
Qed.
End Cells.

(** ** Rows written by the record loops *)

Lemma isRowEmpty_all_empty (r : row) : _isRowEmpty r = true <-> all_empty r.
Proof.
  unfold all_empty. induction r as [|c r IH]; simpl.
  - split; [constructor | reflexivity].
  - destruct (eqb_str c []) eqn:E; simpl.
    + apply eqb_str_eq in E. rewrite IH. split.
      * intros H. now constructor.
      * intros H. now inversion H.
    + split; [discriminate|]. intros H. inversion H; subst.
      rewrite eqb_str_refl in E. discriminate.
Qed.

Lemma written_to_app (p : pystr) (a b : list event) :
  written_to p (a ++ b) = written_to p a ++ written_to p b.
Proof.
  induction a as [|ev a IH]; [reflexivity|].
  destruct ev; simpl; try exact IH.
  destruct (eqb_str path p); simpl; now rewrite IH.
Qed.

Lemma resolved_rows_all {R} (resolve : R -> row + exn * json) (f : R -> row)
    (records : list R) :
  Forall (fun x => resolve x = inl (f x)) records ->
  resolved_rows resolve records = map f records.
Proof.
  induction 1 as [|x l Hx _ IH]; [reflexivity|].
  simpl. now rewrite Hx, IH.
Qed.

Section Records.
Variable bytes_decode : list N -> result pystr.
Variable unicode_lower : pystr -> pystr.
Variable address_parser : pystr -> list (pystr * pystr).
Variable element : Type.
Variable find : element -> pystr -> option element.
Variable text : element -> option pystr.

Lemma csv_records_written (tags : dict) (out : pystr) (entities : list entity) :
  written_to out
    (fst (csv_records bytes_decode unicode_lower address_parser tags out entities)) =
  filter kept
    (resolved_rows (csv_row bytes_decode unicode_lower address_parser tags) entities).
Proof.
  induction entities as [|e rest IH]; [reflexivity|].
  cbn [csv_records resolved_rows]. 
  destruct (csv_row _ _ _ tags e) as [r | [ex loc]].
  - destruct (csv_records _ _ _ tags out rest) as [evs res].
    cbn [fst] in *. rewrite written_to_app, IH. cbn [filter]. unfold kept at 2.
    destruct (negb (_isRowEmpty r)); [| reflexivity].
    cbn [written_to]. rewrite eqb_str_refl. reflexivity.
  - destruct ex; reflexivity.
Qed.

Lemma xml_records_written (tags : dict) (out : pystr) (elements : list element) :
  written_to out
    (fst (xml_records bytes_decode unicode_lower address_parser find text
            tags out elements)) =
  filter kept
    (resolved_rows (xml_row bytes_decode unicode_lower address_parser find text tags)
       elements).
Proof.
  induction elements as [|e rest IH]; [reflexivity|].
  cbn [xml_records resolved_rows]. 
  destruct (xml_row _ _ _ _ _ tags e) as [r | [ex loc]]; [| reflexivity].
  destruct (xml_records _ _ _ _ _ tags out rest) as [evs res].
  cbn [fst] in *. rewrite written_to_app, IH. cbn [filter]. unfold kept at 2.
  destruct (negb (_isRowEmpty r)); [| reflexivity].
  cbn [written_to]. rewrite eqb_str_refl. reflexivity.
Qed.
End Records.

(** ** [char_encode_check] *)

(** Without a declared encoding: the first encoding of the priority list
    under which the raw file decodes, [RuntimeError] when there is none. *)
Lemma undeclared_encoding_first_decodable
    (decodes : pystr -> pystr -> bool) (source : Source) (d : dict) (f : pystr) :
  metadata source = JObj d ->
  ~ In (py "encoding") (keys d) ->
  lookup (py "file") d = Some (JStr f) ->
  char_encode_check decodes source =
  match first_decodable decodes (raw_of f) with
  | Some enc => Ok enc
  | None => Raise RuntimeError
  end.
Proof.
  intros Hmd Henc Hfile. unfold char_encode_check. rewrite Hmd. cbn [py_in bind].
  apply mem_str_not_In in Henc. unfold has_key. rewrite Henc.
  unfold first_decodable, raw_of.
  induction ENCODING_LIST as [|enc encs IH]; [reflexivity|].
  cbn [try_encodings find]. rewrite (@getitem_lookup _ _ _ Hfile). cbn [bind].
  destruct (decodes _ enc); [reflexivity | exact IH].
Qed.

(** C2 (the code at a declared encoding).  Whenever the metadata declares
    an encoding, supported or not, [char_encode_check] raises
    [AttributeError] at [metadata.data]: the declared value is never
    returned and [ValueError] is never reached. *)
Theorem declared_encoding_raises_AttributeError
    (decodes : pystr -> pystr -> bool) (source : Source) (d : dict) :
  metadata source = JObj d ->
  In (py "encoding") (keys d) ->
  char_encode_check decodes source = Raise AttributeError.
Proof.
  intros Hmd Henc. unfold char_encode_check. rewrite Hmd. cbn [py_in bind].
  apply has_key_In in Henc. rewrite Henc. reflexivity.
Qed.

Lemma declared_utf8_raises_AttributeError :
  validate md_csv_utf8 = Ok tt /\
  char_encode_check sample_decodes (validated md_csv_utf8) = Raise AttributeError.
Proof.
  split; [vm_compute; reflexivity|].
  apply (@declared_encoding_raises_AttributeError sample_decodes (validated md_csv_utf8)
           [(py "format", JStr (py "csv")); (py "file", JStr (py "d.csv"));
            (py "encoding", JStr (py "utf-8"));
            (py "info", JObj [(py "bus_name", JStr (py "Name"))])]).
  - reflexivity.
  - cbn. right; right; left. reflexivity.
Defined.

(** ** [format_correction] *)

Lemma pad_length (r : row) (size : nat) : length (pad r size) = Nat.max (length r) size.
Proof. unfold pad. rewrite length_app, repeat_length. lia. Qed.

Lemma pad_long (r : row) (size : nat) : size <= length r -> pad r size = r.
Proof.
  intros H. unfold pad. replace (size - length r) with 0 by lia.
  simpl. apply app_nil_r.
Qed.

Lemma pad_prefix (r : row) (size : nat) : firstn (length r) (pad r size) = r.
Proof. unfold pad. rewrite firstn_app, firstn_all, Nat.sub_diag. simpl. apply app_nil_r. Qed.

Lemma pad_cells (r : row) (size : nat) (cell : pystr) :
  In cell (skipn (length r) (pad r size)) -> cell = [].
Proof.
  unfold pad. rewrite skipn_app, skipn_all, Nat.sub_diag. simpl.
  intros H. now apply repeat_spec in H.
Qed.

(** After the first row every row is padded to [size] and written. *)
Lemma format_rows_rest (rows : list row) (size : nat) :
  format_rows rows true size false = (map (fun r => pad r size) rows, Ok tt).
Proof.
  induction rows as [|r rows IH]; [reflexivity|].
  cbn [format_rows]. rewrite IH. reflexivity.
Qed.

(** With a first row of at least one cell: the first row is written with
    the substitution applied to its first cell, no row is lost, shorter
    rows are padded on the right with empty strings, longer rows are left
    as they are. *)
Lemma format_correction_pads (c : pystr) (cs : row) (rest : list row) :
  format_correction ((c :: cs) :: rest) =
  ((re_sub re_bom [TGroup1] c :: cs) :: map (fun r => pad r (S (length cs))) rest, Ok tt).
Proof.
  unfold format_correction. cbn [format_rows]. rewrite format_rows_rest. reflexivity.
Qed.

(** *** The byte-order-mark substitution *)

Lemma bom_no_match_later (i : nat) (s : pystr) (g : nat * nat) :
  i <> 0 -> match_here re_bom s i g = None.
Proof.
  intros H. unfold re_bom. cbn [match_here].
  apply Nat.eqb_neq in H. now rewrite H.
Qed.

Lemma bom_scan_later (whole : pystr) (i k : nat) (s : pystr) :
  i <> 0 -> sub_scan re_bom [TGroup1] whole i k s = skipn k s.
Proof.
  revert i k. induction s as [|c s IH]; intros i k Hi.
  - cbn [sub_scan]. rewrite bom_no_match_later by assumption.
    destruct k; reflexivity.
  - cbn [sub_scan]. destruct k as [|k].
    + rewrite bom_no_match_later by assumption.
      rewrite IH by lia. reflexivity.
    + rewrite IH by lia. reflexivity.
Qed.

Lemma dot_run_match (s : pystr) (i : nat) (g : nat * nat) :
  match_here [Many AnyChar; GClose] s i g =
  if Nat.eqb (dot_run s) 0 then None
  else Some (i + dot_run s, (fst g, i + dot_run s)).
Proof.
  revert i. induction s as [|c s IH]; intros i; [reflexivity|].
  cbn [match_here dot_run] in *.
  destruct (in_class AnyChar c); [| reflexivity].
  rewrite IH. cbn [Nat.eqb].
  destruct (Nat.eqb (dot_run s) 0) eqn:E.
  - apply Nat.eqb_eq in E. rewrite E. cbn [fst snd].
    now replace (i + 1) with (S i) by lia.
  - now replace (S i + dot_run s) with (i + S (dot_run s)) by lia.
Qed.

(** What the substitution does to a cell: the mark is dropped exactly when
    a character other than a newline follows it. *)
Lemma bom_sub_spec (cell : pystr) :
  re_sub re_bom [TGroup1] cell =
  match cell with
  | c :: s => if N.eqb c BOM && negb (Nat.eqb (dot_run s) 0) then s else cell
  | [] => []
  end.
Proof.
  destruct cell as [|c s]; [reflexivity|].
  unfold re_sub. cbn [sub_scan].
  change (match_here re_bom (c :: s) 0 (0, 0))
    with (if N.eqb c BOM then match_here [Many AnyChar; GClose] s 1 (1, 0) else None).
  destruct (N.eqb c BOM); cbn [andb].
  - rewrite dot_run_match.
    destruct (Nat.eqb (dot_run s) 0) eqn:E; cbn [negb fst snd].
    + now rewrite bom_scan_later by lia.
    + change (1 + dot_run s) with (S (dot_run s)). cbn [Nat.leb].
      rewrite bom_scan_later by lia.
      cbn [expand flat_map fst snd skipn].
      replace (S (dot_run s) - 1) with (dot_run s) by lia.
      replace (S (dot_run s) - 0 - 1) with (dot_run s) by lia.
      rewrite app_nil_r. apply firstn_skipn.
  - now rewrite bom_scan_later by lia.
Qed.

(** C3 (the code on two first rows).  When the first row [csv.reader]
    yields is empty (the file starts with a blank line) the pass stops with
    [IndexError] and writes no row at all; and a first cell that is a lone
    byte-order mark, or a mark followed by a newline, is written with the
    mark still in it. *)
Theorem format_correction_blank_first_row_and_lone_bom :
  (forall rest, format_correction ([] :: rest) = ([], Raise IndexError)) /\
  (forall cs rest,
     format_correction (([BOM] :: cs) :: rest) =
     (([BOM] :: cs) :: map (fun r => pad r (S (length cs))) rest, Ok tt)) /\
  (forall s cs rest,
     format_correction (((BOM :: 10%N :: s) :: cs) :: rest) =
     (((BOM :: 10%N :: s) :: cs) :: map (fun r => pad r (S (length cs))) rest, Ok tt)).
Proof.
  split; [reflexivity|]. split; intros; rewrite format_correction_pads, bom_sub_spec;
    reflexivity.
Qed.

Example format_correction_rows_bom :
  format_correction rows_bom =
  ([[py "id"; py "name"]; [py "1"; []]; [py "2"; py "b"; py "c"]], Ok tt).
Proof. vm_compute. reflexivity. Qed.

Example format_correction_rows_blank_first :
  format_correction rows_blank_first = ([], Raise IndexError).
Proof. reflexivity. Qed.

Example format_correction_rows_lone_bom :
  format_correction rows_lone_bom = ([[[BOM]; py "name"]; [py "1"; []]], Ok tt).
Proof. vm_compute. reflexivity. Qed.

(** Where the first row has a cell, the pass repairs the rows: every
    row is written, none shorter than the first, the added cells are empty
    and the cells of the source row are kept in place. *)
Lemma format_correction_output (c : pystr) (cs : row) (rest : list row) :
  let out := fst (format_correction ((c :: cs) :: rest)) in
  snd (format_correction ((c :: cs) :: rest)) = Ok tt /\
  length out = S (length rest) /\
  Forall (fun r => S (length cs) <= length r) out /\
  Forall2 (fun r w => firstn (length r) w = r /\
                      (forall cell, In cell (skipn (length r) w) -> cell = []) /\
                      (S (length cs) <= length r -> w = r)) rest (tl out).
Proof.
  rewrite format_correction_pads. cbn [fst snd tl]. repeat split.
  - cbn [length]. now rewrite length_map.
  - constructor; [cbn [length]; lia|].
    apply Forall_forall. intros w Hw. apply in_map_iff in Hw as [r [<- _]].
    rewrite pad_length. lia.
  - induction rest as [|r rest IH]; cbn [map]; constructor; [| exact IH].
    repeat split.
    + apply pad_prefix.
    + apply pad_cells.
    + apply pad_long.
Qed.

(** ** [_quick_scrub] *)

Lemma space_is_space : is_space 32 = true.
Proof. reflexivity. Qed.

Lemma newline_is_space (c : N) : is_space c = false -> N.eqb c 10 = false.
Proof.
  intros H. destruct (N.eqb c 10) eqn:E; [| reflexivity].
  apply N.eqb_eq in E. subst c. discriminate.
Qed.

(** One character between or beside single spaces: each substitution in
    turn, for a character that is no whitespace. *)
Section OneCharacter.
Variable c : N.
Hypothesis not_space : is_space c = false.

Local Arguments is_space : simpl never.
Local Arguments N.eqb : simpl never.

Lemma not_newline : N.eqb c 10 = false.
Proof. exact (@newline_is_space c not_space). Qed.

Lemma space_not_newline : N.eqb 32 10 = false.
Proof. reflexivity. Qed.

Ltac regex_eval :=
  unfold re_sub, re_spaces, re_leading, re_trailing, re_blank;
  cbn [sub_scan match_here in_class];
  repeat (progress (cbn; rewrite ?space_is_space, ?not_space, ?not_newline,
                      ?space_not_newline));
  try reflexivity.

Lemma one_char_leading_space (ul : pystr -> pystr) :
  is_ascii c = true ->
  scrub_text ul [32%N; c] = [32%N; ascii_lower c].
Proof.
  intros A. unfold scrub_text, str_lower.
  replace (re_sub re_spaces [TLit (py " ")] [32%N; c]) with [32%N; c] by (symmetry; regex_eval).
  replace (re_sub re_leading [TGroup1] [32%N; c]) with [32%N; c] by (symmetry; regex_eval).
  replace (re_sub re_trailing [TGroup1] [32%N; c]) with [32%N; c] by (symmetry; regex_eval).
  replace (re_sub re_blank [] [32%N; c]) with [32%N; c] by (symmetry; regex_eval).
  cbn [forallb map]. rewrite A. reflexivity.
Qed.

Lemma one_char_trailing_space (ul : pystr -> pystr) :
  is_ascii c = true ->
  scrub_text ul [c; 32%N] = [ascii_lower c; 32%N].
Proof.
  intros A. unfold scrub_text, str_lower.
  replace (re_sub re_spaces [TLit (py " ")] [c; 32%N]) with [c; 32%N] by (symmetry; regex_eval).
  replace (re_sub re_leading [TGroup1] [c; 32%N]) with [c; 32%N] by (symmetry; regex_eval).
  replace (re_sub re_trailing [TGroup1] [c; 32%N]) with [c; 32%N] by (symmetry; regex_eval).
  replace (re_sub re_blank [] [c; 32%N]) with [c; 32%N] by (symmetry; regex_eval).
  cbn [forallb map]. rewrite A. reflexivity.
Qed.

Lemma one_char_both_spaces (ul : pystr -> pystr) :
  is_ascii c = true ->
  scrub_text ul [32%N; c; 32%N] = [ascii_lower c; 32%N].
Proof.
  intros A. unfold scrub_text, str_lower.
  replace (re_sub re_spaces [TLit (py " ")] [32%N; c; 32%N]) with [32%N; c; 32%N]
    by (symmetry; regex_eval).
  replace (re_sub re_leading [TGroup1] [32%N; c; 32%N]) with [c; 32%N]
    by (symmetry; regex_eval).
  replace (re_sub re_trailing [TGroup1] [c; 32%N]) with [c; 32%N] by (symmetry; regex_eval).
  replace (re_sub re_blank [] [c; 32%N]) with [c; 32%N] by (symmetry; regex_eval).
  cbn [forallb map]. rewrite A. reflexivity.
Qed.
End OneCharacter.

(** C10 (the code on a one-character value).  Whatever the character, as
    long as it is an ASCII character that is no whitespace, a single space
    before it survives scrubbing, and so does a single space after it; with
    a space on both sides the leading one is removed and the trailing one
    stays.  The result then begins or ends with a whitespace character. *)
Theorem quick_scrub_keeps_space_beside_one_character
    (bytes_decode : list N -> result pystr) (unicode_lower : pystr -> pystr) (c : N) :
  is_space c = false ->
  is_ascii c = true ->
  _quick_scrub bytes_decode unicode_lower (VStr [32%N; c]) = Ok [32%N; ascii_lower c] /\
  _quick_scrub bytes_decode unicode_lower (VStr [c; 32%N]) = Ok [ascii_lower c; 32%N] /\
  _quick_scrub bytes_decode unicode_lower (VStr [32%N; c; 32%N]) = Ok [ascii_lower c; 32%N].
Proof.
  intros S A. unfold _quick_scrub. cbn [bind].
  rewrite (one_char_leading_space c S unicode_lower A).
  rewrite (one_char_trailing_space c S unicode_lower A).
  rewrite (one_char_both_spaces c S unicode_lower A).
  repeat split.
Qed.

Lemma quick_scrub_space_a :
  _quick_scrub sample_decode sample_lower (VStr (py " a")) = Ok (py " a") /\
  _quick_scrub sample_decode sample_lower (VStr (py "a ")) = Ok (py "a ") /\
  _quick_scrub sample_decode sample_lower (VStr (py " a ")) = Ok (py "a ").
Proof.
  apply (quick_scrub_keeps_space_beside_one_character sample_decode sample_lower 97%N);
    reflexivity.
Defined.

(** ** The file store *)

Lemma temp_is_not_dirty (dirty : pystr) : eqb_str (dirty ++ py "-temp") dirty = false.
Proof.
  apply eqb_str_neq. intros E. apply (f_equal (@length N)) in E.
  rewrite length_app in E.
  change (length (py "-temp")) with 5 in E. lia.
Qed.

Lemma upd_same (fs : store) (p : pystr) (v : option (list row)) : upd fs p v p = v.
Proof. unfold upd. now rewrite eqb_str_refl. Qed.

Lemma upd_other (fs : store) (p q : pystr) (v : option (list row)) :
  eqb_str q p = false -> upd fs p v q = fs q.
Proof. unfold upd. now intros ->. Qed.

Lemma replay_app (fs : store) (a b : list event) :
  replay fs (a ++ b) = replay (replay fs a) b.
Proof. apply fold_left_app. Qed.

(** Events that do not touch a path leave its file as it was. *)
Lemma replay_untouched (p : pystr) (evs : list event) (fs : store) :
  Forall (fun ev => touches p ev = false) evs -> replay fs evs p = fs p.
Proof.
  intros H. revert fs. induction H as [|ev evs Hev _ IH]; intros fs; [reflexivity|].
  cbn [replay fold_left]. fold (replay (apply_event fs ev) evs). rewrite IH.
  destruct ev as [q | q r | src dst | loc]; cbn [apply_event touches] in *.
  - apply upd_other. now rewrite eqb_str_sym.
  - destruct (fs q); [| reflexivity]. apply upd_other. now rewrite eqb_str_sym.
  - apply orb_false_iff in Hev as [Hs Hd].
    rewrite upd_other by now rewrite eqb_str_sym.
    apply upd_other. now rewrite eqb_str_sym.
  - reflexivity.
Qed.

(** Rows written one after the other to an open file. *)
Lemma replay_rows (p : pystr) (rows old : list row) (fs : store) :
  fs p = Some old ->
  replay fs (map (Writerow p) rows) p = Some (old ++ rows).
Proof.
  revert old fs. induction rows as [|r rows IH]; intros old fs H.
  - cbn. now rewrite app_nil_r.
  - cbn [map replay fold_left apply_event]. rewrite H.
    fold (replay (upd fs p (Some (old ++ [r]))) (map (Writerow p) rows)).
    rewrite (IH (old ++ [r])) by apply upd_same.
    now rewrite <- app_assoc.
Qed.

(** ** The record loops, record by record *)

Section Loops.
Variable bytes_decode : list N -> result pystr.
Variable unicode_lower : pystr -> pystr.
Variable address_parser : pystr -> list (pystr * pystr).
Variable decodes : pystr -> pystr -> bool.
Variable element : Type.
Variable find : element -> pystr -> option element.
Variable text : element -> option pystr.

#[local] Abbreviation csv_row' := (csv_row bytes_decode unicode_lower address_parser).
#[local] Abbreviation csv_records' := (csv_records bytes_decode unicode_lower address_parser).
#[local] Abbreviation xml_row' := (xml_row bytes_decode unicode_lower address_parser find text).
#[local] Abbreviation xml_records' :=
  (xml_records bytes_decode unicode_lower address_parser find text).

(** Leading records that resolve write their kept rows; the loop goes on
    with the records behind them. *)
Lemma csv_records_resolved (tags : dict) (out : pystr) (f : entity -> row)
    (pre rest : list entity) :
  Forall (fun e => csv_row' tags e = inl (f e)) pre ->
  csv_records' tags out (pre ++ rest) =
  (map (Writerow out) (filter kept (map f pre)) ++ fst (csv_records' tags out rest),
   snd (csv_records' tags out rest)).
Proof.
  induction 1 as [|e pre He _ IH].
  - cbn. now destruct (csv_records' tags out rest).
  - cbn [app csv_records]. rewrite He, IH. cbn [map filter]. unfold kept at 2.
    destruct (negb (_isRowEmpty (f e))); reflexivity.
Qed.

Lemma xml_records_resolved (tags : dict) (out : pystr) (f : element -> row)
    (pre rest : list element) :
  Forall (fun e => xml_row' tags e = inl (f e)) pre ->
  xml_records' tags out (pre ++ rest) =
  (map (Writerow out) (filter kept (map f pre)) ++ fst (xml_records' tags out rest),
   snd (xml_records' tags out rest)).
Proof.
  induction 1 as [|e pre He _ IH].
  - cbn. now destruct (xml_records' tags out rest).
  - cbn [app xml_records]. rewrite He, IH. cbn [map filter]. unfold kept at 2.
    destruct (negb (_isRowEmpty (f e))); reflexivity.
Qed.

(** Every event of the CSV loop is a row written to [out] or the printed
    line; the XML loop only writes rows to [out]. *)
Lemma csv_records_events (tags : dict) (out : pystr) (entities : list entity) :
  Forall (fun ev => (exists r, ev = Writerow out r) \/ (exists loc, ev = Report loc))
    (fst (csv_records' tags out entities)).
Proof.
  induction entities as [|e rest IH]; [constructor|].
  cbn [csv_records].
  destruct (csv_row' tags e) as [r | [ex loc]].
  - destruct (csv_records' tags out rest) as [evs res]. cbn [fst] in *.
    apply Forall_app. split; [| exact IH].
    destruct (negb (_isRowEmpty r)); [| constructor].
    constructor; [left; eauto | constructor].
  - destruct ex; cbn [fst]; try constructor.
    + right; eauto.
    + constructor.
Qed.

Lemma csv_records_raise_events (tags : dict) (out : pystr) (entities : list entity)
    (ex : exn) :
  snd (csv_records' tags out entities) = Raise ex ->
  Forall (fun ev => exists r, ev = Writerow out r) (fst (csv_records' tags out entities)).
Proof.
  induction entities as [|e rest IH]; [constructor|].
  cbn [csv_records].
  destruct (csv_row' tags e) as [r | [ex' loc]].
  - destruct (csv_records' tags out rest) as [evs res]. cbn [fst snd] in *.
    intros H. apply Forall_app. split; [| now apply IH].
    destruct (negb (_isRowEmpty r)); [| constructor].
    constructor; [eauto | constructor].
  - destruct ex'; cbn [fst snd]; try discriminate; constructor.
Qed.

Lemma xml_records_events (tags : dict) (out : pystr) (elements : list element) :
  Forall (fun ev => exists r, ev = Writerow out r)
    (fst (xml_records' tags out elements)).
Proof.
  induction elements as [|e rest IH]; [constructor|].
  cbn [xml_records].
  destruct (xml_row' tags e) as [r | [ex loc]]; [| constructor].
  destruct (xml_records' tags out rest) as [evs res]. cbn [fst] in *.
  apply Forall_app. split; [| exact IH].
  destruct (negb (_isRowEmpty r)); [| constructor].
  constructor; [eauto | constructor].
Qed.
End Loops.

(** ** [parse] as a whole *)

Section Parse.
Variable bytes_decode : list N -> result pystr.
Variable unicode_lower : pystr -> pystr.
Variable address_parser : pystr -> list (pystr * pystr).
Variable decodes : pystr -> pystr -> bool.
Variable element : Type.
Variable find : element -> pystr -> option element.
Variable text : element -> option pystr.
Variable md : json.
Variables raw clean : option pystr.
Variable dirty : pystr.
Variable tags : dict.

#[local] Abbreviation source := (mkSource md raw (Some dirty) clean (Some tags)).
#[local] Abbreviation temp := (dirty ++ py "-temp").
#[local] Abbreviation csv_row' := (csv_row bytes_decode unicode_lower address_parser).
#[local] Abbreviation csv_records' := (csv_records bytes_decode unicode_lower address_parser).
#[local] Abbreviation CSV_parse' :=
  (CSV_parse bytes_decode unicode_lower address_parser decodes).
#[local] Abbreviation xml_row' := (xml_row bytes_decode unicode_lower address_parser find text).
#[local] Abbreviation xml_records' :=
  (xml_records bytes_decode unicode_lower address_parser find text).
#[local] Abbreviation XML_parse' :=
  (XML_parse bytes_decode unicode_lower address_parser decodes find text).

(** Once the file name and the encoding are there, the CSV transform is
    the header, the record loop and, unless an exception leaves the [with]
    block, the rename. *)
Lemma CSV_parse_body (entities : list entity) (file : json) (enc : pystr) :
  py_getitem md (py "file") = Ok file ->
  char_encode_check decodes source = Ok enc ->
  CSV_parse' source entities =
  (Open_w temp :: Writerow temp (_generateFirstRow tags) ::
     fst (csv_records' tags temp entities) ++
     match snd (csv_records' tags temp entities) with
     | Ok _ => [Rename temp dirty]
     | Raise _ => []
     end,
   snd (csv_records' tags temp entities)).
Proof.
  intros Hf He. unfold CSV_parse. cbn [metadata dirtypath label_map].
  rewrite Hf, He.
  destruct (csv_records' tags temp entities) as [evs [[]|ex]]; cbn [fst snd].
  - reflexivity.
  - now rewrite app_nil_r.
Qed.

Lemma CSV_parse_early (entities : list entity) :
  (exists file enc, py_getitem md (py "file") = Ok file /\
                    char_encode_check decodes source = Ok enc) \/
  (exists ex, CSV_parse' source entities = ([], Raise ex)).
Proof.
  unfold CSV_parse. cbn [metadata dirtypath label_map].
  destruct (py_getitem md (py "file")) as [file|ex]; [| right; eauto].
  destruct (char_encode_check decodes source) as [enc|ex]; [| right; eauto].
  left; eauto.
Qed.

Lemma XML_parse_body (elements : list element) (file header : json) (enc : pystr) :
  py_getitem md (py "file") = Ok file ->
  py_getitem md (py "header") = Ok header ->
  char_encode_check decodes source = Ok enc ->
  XML_parse' source elements =
  (Open_w dirty :: Writerow dirty (_generateFirstRow tags) ::
     fst (xml_records' tags dirty elements),
   snd (xml_records' tags dirty elements)).
Proof.
  intros Hf Hh He. unfold XML_parse. cbn [metadata dirtypath label_map].
  rewrite Hf, Hh, He.
  now destruct (xml_records' tags dirty elements).
Qed.

Lemma XML_parse_early (elements : list element) :
  (exists file header enc,
     py_getitem md (py "file") = Ok file /\
     py_getitem md (py "header") = Ok header /\
     char_encode_check decodes source = Ok enc) \/
  (exists ex, XML_parse' source elements = ([], Raise ex)).
Proof.
  unfold XML_parse. cbn [metadata dirtypath label_map].
  destruct (py_getitem md (py "file")) as [file|ex]; [| right; eauto].
  destruct (py_getitem md (py "header")) as [header|ex]; [| right; eauto].
  destruct (char_encode_check decodes source) as [enc|ex]; [| right; eauto].
  left. exists file, header, enc. auto.
Qed.

(** The file a finished sequence of rows leaves at [p]. *)
Lemma replay_open_rows (p : pystr) (header : row) (rows : list row) (fs : store) :
  replay fs (Open_w p :: Writerow p header :: map (Writerow p) rows) p =
  Some (header :: rows).
Proof.
  cbn [replay fold_left apply_event]. rewrite upd_same.
  fold (replay (upd (upd fs p (Some [])) p (Some ([] ++ [header]))) (map (Writerow p) rows)).
  rewrite (@replay_rows p rows [header]); [reflexivity | apply upd_same].
Qed.
End Parse.

Section Transforms.
Variable bytes_decode : list N -> result pystr.
Variable unicode_lower : pystr -> pystr.
Variable address_parser : pystr -> list (pystr * pystr).
Variable decodes : pystr -> pystr -> bool.
Variable element : Type.
Variable find : element -> pystr -> option element.
Variable text : element -> option pystr.

#[local] Abbreviation cells' := (cells bytes_decode unicode_lower address_parser).
#[local] Abbreviation csv_row' := (csv_row bytes_decode unicode_lower address_parser).
#[local] Abbreviation CSV_parse' :=
  (CSV_parse bytes_decode unicode_lower address_parser decodes).
#[local] Abbreviation xml_row' := (xml_row bytes_decode unicode_lower address_parser find text).
#[local] Abbreviation XML_parse' :=
  (XML_parse bytes_decode unicode_lower address_parser decodes find text).

(** *** Rows written *)

(** C9.  In both variants the rows written are, in record order, the
    resolved rows of the records the loop gets through, without those
    whose cells are all empty strings: a record with an all-empty row
    writes nothing, every other record writes its one row, and when every
    record resolves the output is the filtered list of all their rows.
    The output file of a transform is the header followed by these rows. *)
Theorem empty_rows_dropped_others_written_in_order (tags : dict) (out : pystr) :
  (forall r, kept r = false <-> all_empty r) /\
  (forall entities,
     written_to out
       (fst (csv_records bytes_decode unicode_lower address_parser tags out entities)) =
     filter kept (resolved_rows (csv_row' tags) entities)) /\
  (forall elements,
     written_to out
       (fst (xml_records bytes_decode unicode_lower address_parser find text
               tags out elements)) =
     filter kept (resolved_rows (xml_row' tags) elements)) /\
  (forall entities f,
     Forall (fun e => csv_row' tags e = inl (f e)) entities ->
     written_to out
       (fst (csv_records bytes_decode unicode_lower address_parser tags out entities)) =
     filter kept (map f entities)) /\
  (forall elements f,
     Forall (fun e => xml_row' tags e = inl (f e)) elements ->
     written_to out
       (fst (xml_records bytes_decode unicode_lower address_parser find text
               tags out elements)) =
     filter kept (map f elements)) /\
  (forall md raw clean entities file enc,
     py_getitem md (py "file") = Ok file ->
     char_encode_check decodes (mkSource md raw (Some out) clean (Some tags)) = Ok enc ->
     written_to (out ++ py "-temp")
       (fst (CSV_parse' (mkSource md raw (Some out) clean (Some tags)) entities)) =
     _generateFirstRow tags :: filter kept (resolved_rows (csv_row' tags) entities)) /\
  (forall md raw clean elements file header enc,
     py_getitem md (py "file") = Ok file ->
     py_getitem md (py "header") = Ok header ->
     char_encode_check decodes (mkSource md raw (Some out) clean (Some tags)) = Ok enc ->
     written_to out
       (fst (XML_parse' (mkSource md raw (Some out) clean (Some tags)) elements)) =
     _generateFirstRow tags :: filter kept (resolved_rows (xml_row' tags) elements)).
Proof.
  split; [| split; [| split; [| split; [| split; [| split]]]]].
  - intros r. unfold kept. rewrite negb_false_iff. apply isRowEmpty_all_empty.
  - apply csv_records_written.
  - apply xml_records_written.
  - intros entities f H. rewrite csv_records_written.
    now rewrite (resolved_rows_all _ f _ H).
  - intros elements f H. rewrite xml_records_written.
    now rewrite (resolved_rows_all _ f _ H).
  - intros md raw clean entities file enc Hf He.
    rewrite (CSV_parse_body bytes_decode unicode_lower address_parser decodes
               md raw clean out tags entities file enc Hf He).
    cbn [fst written_to]. rewrite eqb_str_refl, written_to_app, csv_records_written.
    destruct (snd (csv_records _ _ _ tags (out ++ py "-temp") entities));
      cbn [written_to]; now rewrite app_nil_r.
  - intros md raw clean elements file header enc Hf Hh He.
    rewrite (XML_parse_body bytes_decode unicode_lower address_parser decodes
               element find text md raw clean out tags elements file header enc Hf Hh He).
    cbn [fst written_to]. rewrite eqb_str_refl. now rewrite xml_records_written.
Qed.

(** *** Missing fields *)

(** The XML access: a missing element and an element without text both
    read as the empty string, and no string locator raises. *)
Lemma xml_missing_element_reads_empty (e : element) (path : pystr) :
  (find e path = None -> element_get find text e (JStr path) = Ok []) /\
  (forall el, find e path = Some el -> text el = None ->
              element_get find text e (JStr path) = Ok []) /\
  (exists v, element_get find text e (JStr path) = Ok v).
Proof.
  unfold element_get, _xml_empty_element_handler. repeat split.
  - now intros ->.
  - now intros el -> ->.
  - eauto.
Qed.

(** C5 (the code where a CSV column is missing).  When a record lacks a
    column a locator names, the [KeyError] is caught inside the transform:
    one line naming the locator is printed, the loop over the records ends,
    and then the temporary file (the header and the rows written so far) is
    renamed over the intermediate path and the call returns normally.  An
    intermediate output file is therefore produced, and no exception
    reaches the caller. *)
Theorem csv_missing_column_is_caught_and_output_renamed
    (md : json) (raw clean : option pystr) (dirty : pystr) (tags : dict)
    (f : entity -> row) (pre : list entity) (e : entity) (rest : list entity)
    (loc file : json) (enc : pystr) :
  let source := mkSource md raw (Some dirty) clean (Some tags) in
  let temp := dirty ++ py "-temp" in
  let run := CSV_parse' source (pre ++ e :: rest) in
  py_getitem md (py "file") = Ok file ->
  char_encode_check decodes source = Ok enc ->
  Forall (fun x => csv_row' tags x = inl (f x)) pre ->
  csv_row' tags e = inr (KeyError, loc) ->
  run = (Open_w temp :: Writerow temp (_generateFirstRow tags) ::
           map (Writerow temp) (filter kept (map f pre)) ++
           [Report loc; Rename temp dirty],
         Ok tt) /\
  forall fs, replay fs (fst run) dirty =
             Some (_generateFirstRow tags :: filter kept (map f pre)).
Proof.
  intros source temp run Hf He Hpre Hkey. subst source temp run.
  set (temp := dirty ++ py "-temp") in *.
  set (run := CSV_parse _ _ _ _ _ _).
  assert (R : csv_records bytes_decode unicode_lower address_parser tags temp
                (pre ++ e :: rest) =
              (map (Writerow temp) (filter kept (map f pre)) ++ [Report loc], Ok tt)).
  { rewrite (@csv_records_resolved _ _ _ tags temp f pre (e :: rest) Hpre).
    cbn [csv_records]. rewrite Hkey. reflexivity. }
  assert (E : run = (Open_w temp :: Writerow temp (_generateFirstRow tags) ::
                       map (Writerow temp) (filter kept (map f pre)) ++
                       [Report loc; Rename temp dirty], Ok tt)).
  { unfold run. rewrite (@CSV_parse_body _ _ _ _ md raw clean dirty tags _ file enc Hf He).
    fold temp. rewrite R.
    cbn [fst snd]. now rewrite <- app_assoc. }
  split; [exact E|].
  intros fs. rewrite E. cbn [fst].
  change (Open_w temp :: Writerow temp (_generateFirstRow tags) ::
            map (Writerow temp) (filter kept (map f pre)) ++
            [Report loc; Rename temp dirty])
    with ((Open_w temp :: Writerow temp (_generateFirstRow tags) ::
             map (Writerow temp) (filter kept (map f pre))) ++
          [Report loc; Rename temp dirty]).
  rewrite replay_app. cbn [replay fold_left apply_event].
  rewrite upd_other by (rewrite eqb_str_sym; apply temp_is_not_dirty).
  fold (replay fs (Open_w temp :: Writerow temp (_generateFirstRow tags) ::
                     map (Writerow temp) (filter kept (map f pre)))).
  rewrite upd_same. apply replay_open_rows.
Qed.

(** *** Forced fields *)

Lemma force_label_is_not_full_addr (key : pystr) :
  In key FORCE_LABEL -> eqb_str key full_addr = false.
Proof.
  intros H. apply eqb_str_neq. intros ->.
  apply mem_str_In in H. vm_compute in H. discriminate.
Qed.

Lemma forced_cells_raise (get : json -> result pystr) (key : pystr) (r : row) :
  In key FORCE_LABEL -> cells' get key (JStr DPIFORCE) r = Raise NameError.
Proof.
  intros H. unfold cells. cbn [is_list andb].
  rewrite (force_label_is_not_full_addr _ H). cbn [eq_lit].
  rewrite eqb_str_refl. reflexivity.
Qed.

Lemma forced_row_never_resolves (get : json -> result pystr) (tags : dict)
    (key : pystr) (r : row) :
  In (key, JStr DPIFORCE) tags -> In key FORCE_LABEL ->
  exists ex loc,
    build_row bytes_decode unicode_lower address_parser get tags r = inr (ex, loc).
Proof.
  intros Hin Hkey. revert r. induction tags as [|[k l] rest IH]; intros r; [destruct Hin|].
  cbn [build_row]. destruct Hin as [E | Hin].
  - injection E as -> ->. rewrite forced_cells_raise by assumption. eauto.
  - destruct (cells' get k l r) as [r'|ex]; [now apply IH | eauto].
Qed.

(** A label map in which a force label carries the forced marker: the
    field raises [NameError], no record resolves, no data row is written. *)
Lemma forced_marker_never_resolves (tags : dict) (key : pystr) :
  In (key, JStr DPIFORCE) tags ->
  In key FORCE_LABEL ->
  (forall get r, cells' get key (JStr DPIFORCE) r = Raise NameError) /\
  (forall out entities,
     written_to out
       (fst (csv_records bytes_decode unicode_lower address_parser tags out entities))
     = []) /\
  (forall out elements,
     written_to out
       (fst (xml_records bytes_decode unicode_lower address_parser find text
               tags out elements))
     = []).
Proof.
  intros Hin Hkey. split; [| split].
  - intros get r. now apply forced_cells_raise.
  - intros out entities. rewrite csv_records_written.
    destruct entities as [|e rest]; [reflexivity|]. cbn [resolved_rows].
    destruct (forced_row_never_resolves (entity_get e) tags key [] Hin Hkey) as [ex [loc E]].
    unfold csv_row. now rewrite E.
  - intros out elements. rewrite xml_records_written.
    destruct elements as [|e rest]; [reflexivity|]. cbn [resolved_rows].
    destruct (forced_row_never_resolves (element_get find text e) tags key [] Hin Hkey)
      as [ex [loc E]].
    unfold xml_row. now rewrite E.
Qed.

(** *** Where the rows are written *)

(** C7, as the code has it.  The CSV transform creates and writes only the
    sibling temporary path, and its only rename is that path onto the
    canonical one; when an exception leaves the transform there is no
    rename and the canonical file is as it was; when every record resolves
    the canonical file ends as the header and the kept rows.  The XML
    transform has no temporary file and no rename: it creates and writes
    the canonical path itself, so that a record that raises leaves the
    header and the rows written so far in the canonical file. *)
Theorem csv_writes_temp_then_renames_xml_writes_in_place
    (md : json) (raw clean : option pystr) (dirty : pystr) (tags : dict) :
  let source := mkSource md raw (Some dirty) clean (Some tags) in
  let temp := dirty ++ py "-temp" in
  let header := _generateFirstRow tags in
  (forall entities,
     let run := CSV_parse' source entities in
     (forall ev, In ev (fst run) ->
        ev = Open_w temp \/ (exists r, ev = Writerow temp r) \/
        (exists loc, ev = Report loc) \/ ev = Rename temp dirty) /\
     (forall ex, snd run = Raise ex ->
        ~ In (Rename temp dirty) (fst run) /\
        forall fs, replay fs (fst run) dirty = fs dirty) /\
     (forall f file enc,
        py_getitem md (py "file") = Ok file ->
        char_encode_check decodes source = Ok enc ->
        Forall (fun x => csv_row' tags x = inl (f x)) entities ->
        run = (Open_w temp :: Writerow temp header ::
                 map (Writerow temp) (filter kept (map f entities)) ++
                 [Rename temp dirty], Ok tt) /\
        forall fs, replay fs (fst run) dirty =
                   Some (header :: filter kept (map f entities)))) /\
  (forall elements,
     let run := XML_parse' source elements in
     (forall ev, In ev (fst run) ->
        ev = Open_w dirty \/ exists r, ev = Writerow dirty r) /\
     (forall f pre e rest ex loc file hd enc,
        py_getitem md (py "file") = Ok file ->
        py_getitem md (py "header") = Ok hd ->
        char_encode_check decodes source = Ok enc ->
        elements = pre ++ e :: rest ->
        Forall (fun x => xml_row' tags x = inl (f x)) pre ->
        xml_row' tags e = inr (ex, loc) ->
        run = (Open_w dirty :: Writerow dirty header ::
                 map (Writerow dirty) (filter kept (map f pre)), Raise ex) /\
        forall fs, replay fs (fst run) dirty =
                   Some (header :: filter kept (map f pre)))).
Proof.
  intros source temp header. subst source temp header.
  set (temp := dirty ++ py "-temp"). split.
  - intros entities run. subst run.
    destruct (CSV_parse_early bytes_decode unicode_lower address_parser decodes
                md raw clean dirty tags entities)
      as [[file [enc [Hf He]]] | [ex E]].
    + rewrite (CSV_parse_body bytes_decode unicode_lower address_parser decodes
                 md raw clean dirty tags entities file enc Hf He).
      fold temp. cbn [fst snd].
      pose proof (csv_records_events bytes_decode unicode_lower address_parser
                    tags temp entities) as Hev.
      split; [| split].
      * intros ev [<- | [<- | Hin]]; [now left | right; left; eauto |].
        apply in_app_or in Hin as [Hin | Hin].
        -- rewrite Forall_forall in Hev. destruct (Hev ev Hin) as [H | H]; auto.
        -- destruct (snd (csv_records _ _ _ tags temp entities)); cbn in Hin;
             [destruct Hin as [<- | []]; auto | destruct Hin].
      * intros ex Hex. rewrite Hex. rewrite app_nil_r.
        pose proof (csv_records_raise_events bytes_decode unicode_lower address_parser
                      tags temp entities ex Hex) as Hw.
        rewrite Forall_forall in Hw. split.
        -- intros [H | [H | H]]; try discriminate.
           destruct (Hw _ H) as [r Hr]. discriminate.
        -- intros fs. apply replay_untouched.
           constructor; [apply temp_is_not_dirty|].
           constructor; [apply temp_is_not_dirty|].
           apply Forall_forall. intros ev Hin. destruct (Hw ev Hin) as [r ->].
           apply temp_is_not_dirty.
      * intros f file' enc' _ _ Hall.
        pose proof (csv_records_resolved bytes_decode unicode_lower address_parser
                      tags temp f entities [] Hall) as R.
        rewrite app_nil_r in R. rewrite R. cbn [fst snd csv_records].
        rewrite app_nil_r. split; [reflexivity|].
        intros fs.
        change (Open_w temp :: Writerow temp (_generateFirstRow tags) ::
                  map (Writerow temp) (filter kept (map f entities)) ++
                  [Rename temp dirty])
          with ((Open_w temp :: Writerow temp (_generateFirstRow tags) ::
                   map (Writerow temp) (filter kept (map f entities))) ++
                [Rename temp dirty]).
        rewrite replay_app. cbn [replay fold_left apply_event].
        rewrite upd_other by (rewrite eqb_str_sym; apply temp_is_not_dirty).
        rewrite upd_same.
        fold (replay fs (Open_w temp :: Writerow temp (_generateFirstRow tags) ::
                           map (Writerow temp) (filter kept (map f entities)))).
        apply replay_open_rows.
    + rewrite E. cbn [fst snd]. split; [| split].
      * intros ev [].
      * intros ex' _. split; [intros [] | reflexivity].
      * intros f file enc Hf He _. exfalso.
        unfold CSV_parse in E. cbn [metadata dirtypath label_map] in E.
        rewrite Hf, He in E.
        destruct (csv_records _ _ _ tags (dirty ++ py "-temp") entities) as [evs [[]|ex']];
          discriminate.
  - intros elements run. subst run.
    destruct (XML_parse_early bytes_decode unicode_lower address_parser decodes
                element find text md raw clean dirty tags elements)
      as [[file [hd [enc [Hf [Hh He]]]]] | [ex E]].
    + rewrite (XML_parse_body bytes_decode unicode_lower address_parser decodes
                 element find text md raw clean dirty tags elements file hd enc Hf Hh He).
      cbn [fst snd].
      pose proof (xml_records_events bytes_decode unicode_lower address_parser
                    element find text tags dirty elements) as Hev.
      split.
      * intros ev [<- | [<- | Hin]]; [now left | right; eauto |].
        rewrite Forall_forall in Hev. right. now apply Hev.
      * intros f pre e rest ex loc file' hd' enc' _ _ _ -> Hpre Hfail.
        rewrite (xml_records_resolved bytes_decode unicode_lower address_parser
                   element find text tags dirty f pre (e :: rest) Hpre).
        cbn [xml_records fst snd]. rewrite Hfail. cbn [fst snd].
        rewrite app_nil_r. split; [reflexivity|].
        intros fs. apply replay_open_rows.
    + rewrite E. cbn [fst snd]. split.
      * intros ev [].
      * intros f pre e rest ex' loc file hd enc Hf Hh He _ _ _. exfalso.
        unfold XML_parse in E. cbn [metadata dirtypath label_map] in E.
        rewrite Hf, Hh, He in E.
        destruct (xml_records _ _ _ _ _ tags dirty elements) as [evs res]; discriminate.
Qed.
End Transforms.

(** The sample CSV dataset whose only column is [Title], transformed with
    the locator [Name]. *)
Lemma csv_missing_column_sample :
  let run := CSV_parse sample_decode sample_lower sample_parser sample_decodes
               (prepared_csv md_csv_name) records_title in
  run = ([Open_w d_temp; Writerow d_temp [py "bus_name"];
          Report (JStr (py "Name")); Rename d_temp d_dirty], Ok tt) /\
  forall fs, replay fs (fst run) d_dirty = Some [[py "bus_name"]].
Proof.
  exact (csv_missing_column_is_caught_and_output_renamed
           sample_decode sample_lower sample_parser sample_decodes
           md_csv_name (Some (raw_of (py "d.csv"))) (Some (clean_of (py "d.csv")))
           d_dirty [(py "bus_name", JStr (py "Name"))]
           (fun _ => []) [] [(py "Title", py "Acme")] [[(py "Title", py "Bolt")]]
           (JStr (py "Name")) (JStr (py "d.csv")) (py "utf-8")
           eq_refl eq_refl (Forall_nil _) eq_refl).
Defined.

(** A record with a name and a free-form address: the header carries the
    seven address columns where [full_addr] stood, the row the scrubbed name
    and the projection of the parsed address. *)
Example transform_with_full_addr :
  CSV_parse sample_decode sample_lower springfield_parser sample_decodes
    (prepared_csv md_csv_addr) records_addr =
  ([Open_w d_temp;
    Writerow d_temp
      [py "bus_name"; py "unit"; py "house_number"; py "road"; py "city";
       py "prov"; py "country"; py "postcode"];
    Writerow d_temp
      [py "acme"; []; py "123"; py "main st"; py "springfield"; []; []; []];
    Rename d_temp d_dirty], Ok tt).
Proof. vm_compute. reflexivity. Qed.

(** A list locator with one column whose value is one character: the
    space appended by the concatenation is still there after scrubbing. *)
Example list_locator_keeps_appended_space :
  CSV_parse sample_decode sample_lower sample_parser sample_decodes
    (prepared_csv md_csv_list) records_no =
  ([Open_w d_temp; Writerow d_temp [py "bus_no"]; Writerow d_temp [py "7 "];
    Rename d_temp d_dirty], Ok tt).
Proof. vm_compute. reflexivity. Qed.

(** C7, refuted for the XML variant.  A sample XML transform that succeeds
    writes every row to the canonical intermediate path and renames
    nothing; one that fails at its first record has already replaced the
    canonical file by the header row. *)
Lemma xml_transform_writes_intermediate_file_in_place :
  let ok_run := XML_parse sample_decode sample_lower sample_parser sample_decodes
                  sample_find sample_text (prepared_xml md_xml_name) elements_sparse in
  let bad_run := XML_parse sample_decode sample_lower sample_parser sample_decodes
                   sample_find sample_text (prepared_xml md_xml_force) elements_name in
  dirtypath (prepared_xml md_xml_name) = Some d_dirty /\
  ok_run = ([Open_w d_dirty; Writerow d_dirty [py "bus_name"];
             Writerow d_dirty [py "acme"]], Ok tt) /\
  ~ temp_then_rename d_dirty ok_run /\
  bad_run = ([Open_w d_dirty; Writerow d_dirty [py "bus_name"; py "country"]],
             Raise NameError) /\
  replay (fs_with_dirty [[py "old"]]) (fst bad_run) d_dirty =
    Some [[py "bus_name"; py "country"]] /\
  ~ temp_then_rename d_dirty bad_run.
Proof.
  cbv zeta.
  assert (Eok : XML_parse sample_decode sample_lower sample_parser sample_decodes
                  sample_find sample_text (prepared_xml md_xml_name) elements_sparse =
                ([Open_w d_dirty; Writerow d_dirty [py "bus_name"];
                  Writerow d_dirty [py "acme"]], Ok tt)) by (vm_compute; reflexivity).
  assert (Ebad : XML_parse sample_decode sample_lower sample_parser sample_decodes
                   sample_find sample_text (prepared_xml md_xml_force) elements_name =
                 ([Open_w d_dirty; Writerow d_dirty [py "bus_name"; py "country"]],
                  Raise NameError)) by (vm_compute; reflexivity).
  rewrite Eok, Ebad. cbn [fst snd].
  split; [vm_compute; reflexivity|]. split; [reflexivity|]. split.
  - intros [W _]. specialize (W d_dirty [py "bus_name"]).
    cbn [fst In] in W.
    assert (E : d_dirty = d_dirty ++ py "-temp") by (apply W; right; left; reflexivity).
    vm_compute in E. discriminate.
  - split; [reflexivity|]. split; [vm_compute; reflexivity|].
    intros [_ [_ U]]. specialize (U NameError eq_refl (fs_with_dirty [[py "old"]])).
    vm_compute in U. discriminate.
Qed.

(** ** The label map *)

Lemma keys_dict_set (k i : pystr) (v : json) (m : dict) :
  In k (keys (dict_set i v m)) <-> k = i \/ In k (keys m).
Proof.
  induction m as [|[k' v'] m IH]; cbn [dict_set keys map fst In].
  - split; [intros [<- | []]; auto | intros [-> | []]; auto].
  - destruct (eqb_str i k') eqn:E; cbn [keys map fst In].
    + apply eqb_str_eq in E. subst k'. fold (keys m). intuition (subst; auto).
    + fold (keys (dict_set i v m)). fold (keys m). rewrite IH.
      intuition (subst; auto).
Qed.

Lemma lookup_dict_set (k i : pystr) (v : json) (m : dict) :
  lookup k (dict_set i v m) = if eqb_str k i then Some v else lookup k m.
Proof.
  induction m as [|[k' v'] m IH]; cbn [dict_set lookup].
  - reflexivity.
  - destruct (eqb_str i k') eqn:E; cbn [lookup].
    + apply eqb_str_eq in E. subst k'. now destruct (eqb_str k i).
    + rewrite IH. destruct (eqb_str k k') eqn:E'; [| reflexivity].
      apply eqb_str_eq in E'. subst k'.
      rewrite eqb_str_sym in E. now rewrite E.
Qed.

(** The loop of [extract_labels], for a step that either leaves the map or
    binds the current field. *)
Lemma label_loop_inv (step : dict -> pystr -> result dict)
    (P : pystr -> Prop) (Q : pystr -> json -> Prop) :
  (forall m i m', step m i = Ok m' ->
     (m' = m /\ ~ P i) \/ (exists v, m' = dict_set i v m /\ P i /\ Q i v)) ->
  forall l m m', label_loop step l m = Ok m' ->
    (forall k, In k (keys m') <-> In k (keys m) \/ (In k l /\ P k)) /\
    (forall k v, lookup k m' = Some v -> lookup k m = Some v \/ Q k v).
Proof.
  intros Hstep. induction l as [|i l IH]; intros m m' H; cbn [label_loop] in H.
  - injection H as <-. split; [intros k; cbn; tauto | auto].
  - destruct (step m i) as [m1|ex] eqn:E; cbn [bind] in H; [| discriminate].
    destruct (IH _ _ H) as [K L].
    destruct (Hstep _ _ _ E) as [[-> NP] | [v [-> [HP HQ]]]].
    + split.
      * intros k. rewrite K. cbn [In]. split; [tauto|].
        intros [H1 | [[<- | H2] H3]]; tauto.
      * exact L.
    + split.
      * intros k. rewrite K, keys_dict_set. cbn [In]. split.
        -- intros [[-> | H1] | [H1 H2]]; auto.
        -- intros [H1 | [[<- | H1] H2]]; auto.
      * intros k w Hk. destruct (L _ _ Hk) as [H1 | H1]; [| auto].
        rewrite lookup_dict_set in H1.
        destruct (eqb_str k i) eqn:Ek; [| auto].
        apply eqb_str_eq in Ek. subst k. injection H1 as <-. auto.
Qed.

Lemma label_loop_total (step : dict -> pystr -> result dict) :
  (forall m i, exists m', step m i = Ok m') ->
  forall l m, exists m', label_loop step l m = Ok m'.
Proof.
  intros Hstep. induction l as [|i l IH]; intros m; cbn [label_loop]; [eauto|].
  destruct (Hstep m i) as [m1 ->]. cbn [bind]. apply IH.
Qed.

Lemma validate_rules (md : json) : validate md = Ok tt -> structural_rules md.
Proof.
  unfold validate, Source_parse, Source_init. cbn [metadata].
  pose proof (parse_checks_cases md _ eq_refl) as C.
  destruct (parse_checks md) as [f|e]; cbn [fst]; [| discriminate].
  intros _. apply C.
Qed.

Section NoAddressLocator.
Variables d info : dict.
Hypothesis Hinfo : lookup (py "info") d = Some (JObj info).
Hypothesis Haddr : has_key (py "address") info = false.
Hypothesis Hforce : forall f, lookup (py "force") d = Some f -> exists fd, f = JObj fd.

Lemma no_address_group (i : pystr) : in_group (JObj info) (py "address") i = Ok false.
Proof. unfold in_group. cbn [py_in bind]. now rewrite Haddr. Qed.

Lemma force_group (i : pystr) :
  exists b, in_group (JObj d) (py "force") i = Ok b /\
            (b = true <-> In i (force_keys (JObj d))).
Proof.
  unfold in_group, force_keys. cbn [py_in bind tag]. rewrite has_key_lookup.
  destruct (lookup (py "force") d) as [f|] eqn:E.
  - destruct (Hforce f eq_refl) as [fd ->].
    rewrite (getitem_lookup _ _ _ E). cbn [bind py_in].
    exists (has_key i fd). split; [reflexivity | apply has_key_In].
  - exists false. split; [reflexivity|]. split; [discriminate | intros []].
Qed.

Lemma csv_label_step (m : dict) (i : pystr) (m' : dict) :
  csv_label (JObj d) m i = Ok m' ->
  (m' = m /\ ~ csv_selected (JObj d) info i) \/
  (exists v, m' = dict_set i v m /\ csv_selected (JObj d) info i /\ forced_if_address i v).
Proof.
  unfold csv_label. rewrite (getitem_lookup _ _ _ Hinfo). cbn [bind py_in].
  destruct (has_key i info && negb (mem_str i ADDR_FIELD_LABEL)) eqn:E1.
  - apply andb_true_iff in E1 as [Hk Hm]. apply negb_true_iff in Hm.
    destruct (py_getitem (JObj info) i) as [v|ex]; cbn [bind]; [| discriminate].
    intros [= <-]. right. exists v. split; [reflexivity|]. split; [left; auto|].
    intros Hin. apply mem_str_In in Hin. congruence.
  - rewrite no_address_group. cbn [bind].
    destruct (force_group i) as [b [-> Hb]]. cbn [bind].
    destruct b; intros [= <-].
    + right. exists (JStr DPIFORCE). split; [reflexivity|].
      split; [right; now apply Hb | intros _; reflexivity].
    + left. split; [reflexivity|]. intros [[Hk Hm] | Hf].
      * rewrite Hk, Hm in E1. discriminate.
      * apply Hb in Hf. discriminate.
Qed.

Lemma csv_label_total (m : dict) (i : pystr) : exists m', csv_label (JObj d) m i = Ok m'.
Proof.
  unfold csv_label. rewrite (getitem_lookup _ _ _ Hinfo). cbn [bind py_in].
  destruct (has_key i info && negb (mem_str i ADDR_FIELD_LABEL)) eqn:E1.
  - apply andb_true_iff in E1 as [Hk _]. apply has_key_true in Hk as [v Hv].
    rewrite (getitem_lookup _ _ _ Hv). cbn [bind]. eauto.
  - rewrite no_address_group. cbn [bind].
    destruct (force_group i) as [b [-> _]]. cbn [bind]. destruct b; eauto.
Qed.

Lemma xml_label_step (m : dict) (i : pystr) (m' : dict) :
  xml_label (JObj d) m i = Ok m' ->
  (m' = m /\ ~ xml_selected (JObj d) info i) \/
  (exists v, m' = dict_set i v m /\ xml_selected (JObj d) info i /\ forced_if_address i v).
Proof.
  unfold xml_label. rewrite (getitem_lookup _ _ _ Hinfo). cbn [bind py_in].
  destruct (has_key i info && negb (mem_str i ADDR_FIELD_LABEL) &&
            negb (eqb_str i (py "address"))) eqn:E1.
  - apply andb_true_iff in E1 as [E1 Ha]. apply andb_true_iff in E1 as [Hk Hm].
    apply negb_true_iff in Hm, Ha.
    assert (S : xml_selected (JObj d) info i) by (left; auto).
    assert (F : forall v, forced_if_address i v).
    { intros v Hin. apply mem_str_In in Hin. congruence. }
    destruct (py_getitem (JObj info) i) as [v|ex]; cbn [bind]; [| discriminate].
    destruct v as [ | b | z | s | l | o]; cbn [xpath bind]; try discriminate.
    + intros [= <-]. right. eauto.
    + destruct (xpath_all l) as [xs|ex]; cbn [bind]; [| discriminate].
      intros [= <-]. right. eauto.
  - rewrite no_address_group. cbn [bind].
    destruct (force_group i) as [b [-> Hb]]. cbn [bind].
    destruct b; intros [= <-].
    + right. exists (JStr DPIFORCE). split; [reflexivity|].
      split; [right; now apply Hb | intros _; reflexivity].
    + left. split; [reflexivity|]. intros [[Hk [Hm Ha]] | Hf].
      * rewrite Hk, Hm, Ha in E1. discriminate.
      * apply Hb in Hf. discriminate.
Qed.
End NoAddressLocator.

Lemma address_labels_are_fields (a : pystr) : In a ADDR_FIELD_LABEL -> In a FIELD_LABEL.
Proof.
  intros H. apply mem_str_In.
  assert (A : forallb (fun x => mem_str x FIELD_LABEL) ADDR_FIELD_LABEL = true)
    by (vm_compute; reflexivity).
  rewrite forallb_forall in A. now apply A.
Qed.

Lemma address_labels_in_LABELS (a : pystr) : In a ADDR_FIELD_LABEL -> In a LABELS.
Proof.
  intros H. apply mem_str_In.
  assert (A : forallb (fun x => mem_str x LABELS) ADDR_FIELD_LABEL = true)
    by (vm_compute; reflexivity).
  rewrite forallb_forall in A. now apply A.
Qed.

(** A key other than [full_addr] appends exactly one cell. *)
Lemma cells_one_cell (bytes_decode : list N -> result pystr)
    (unicode_lower : pystr -> pystr) (address_parser : pystr -> list (pystr * pystr))
    (get : json -> result pystr) (key : pystr) (loc : json) (r r' : row) :
  eqb_str key full_addr = false ->
  cells bytes_decode unicode_lower address_parser get key loc r = Ok r' ->
  length r' = S (length r).
Proof.
  intros Hk. unfold cells. rewrite Hk. cbn [negb].
  assert (One : forall (m : result pystr),
             (entry <- m ;; Ok (r ++ [entry])) = Ok r' -> length r' = S (length r)).
  { intros [v|ex]; cbn [bind]; [| discriminate].
    intros [= <-]. rewrite length_app. cbn. lia. }
  destruct (is_list loc && negb (mem_str key FORCE_LABEL)).
  - destruct (fold_left _ (list_items loc) (Ok [])) as [entry|ex]; cbn [bind];
      [| discriminate].
    intros [= <-]. rewrite length_app. cbn. lia.
  - destruct (eq_lit loc DPIFORCE).
    + apply One.
    + destruct (get loc) as [v|ex]; cbn [bind]; [| discriminate].
      intros [= <-]. rewrite length_app. cbn. lia.
Qed.

Lemma build_row_length (bytes_decode : list N -> result pystr)
    (unicode_lower : pystr -> pystr) (address_parser : pystr -> list (pystr * pystr))
    (get : json -> result pystr) (tags : dict) (r r' : row) :
  ~ In full_addr (keys tags) ->
  build_row bytes_decode unicode_lower address_parser get tags r = inl r' ->
  length r' = length r + length tags.
Proof.
  revert r. induction tags as [|[k l] tags IH]; intros r Hn H; cbn [build_row] in H.
  - injection H as <-. cbn. lia.
  - destruct (cells _ _ _ get k l r) as [r1|ex] eqn:E; [| discriminate].
    apply cells_one_cell in E.
    + rewrite (IH r1); [cbn [length]; lia | | exact H].
      intros Hin. apply Hn. now right.
    + apply eqb_str_neq. intros ->. apply Hn. now left.
Qed.

Section WithoutAddress.
Variables d info : dict.
Hypothesis Hvalid : validate (JObj d) = Ok tt.
Hypothesis Hinfo : lookup (py "info") d = Some (JObj info).
Hypothesis Hfull : has_key (py "full_addr") info = false.
Hypothesis Haddr : has_key (py "address") info = false.

Lemma force_is_object (f : json) :
  lookup (py "force") d = Some f -> exists fd, f = JObj fd.
Proof.
  destruct (validate_rules (JObj d) Hvalid)
    as [fmt [file [inf [_ [_ [_ [_ [_ [_ [_ [_ Hf]]]]]]]]]]].
  intros Hl. destruct (Hf f Hl) as [fd [-> _]]. eauto.
Qed.

Lemma forced_keys_are_force_labels (a : pystr) :
  In a (force_keys (JObj d)) -> In a FORCE_LABEL.
Proof.
  destruct (validate_rules (JObj d) Hvalid)
    as [fmt [file [inf [_ [_ [_ [_ [_ [_ [_ [_ Hf]]]]]]]]]]].
  unfold force_keys. destruct (tag (JObj d) (py "force")) as [f|]; [| intros []].
  destruct (Hf f eq_refl) as [fd [-> [Hincl _]]]. apply Hincl.
Qed.

Lemma header_without_address (tags : dict) (P : pystr -> Prop) :
  (forall k, In k (keys tags) <-> In k [] \/ (In k FIELD_LABEL /\ P k)) ->
  (forall k v, lookup k tags = Some v -> lookup k [] = Some v \/ forced_if_address k v) ->
  (forall k, P k ->
     (has_key k info = true /\ mem_str k ADDR_FIELD_LABEL = false) \/
     In k (force_keys (JObj d))) ->
  (forall k, In k (force_keys (JObj d)) -> P k) ->
  only_forced_address_columns (JObj d) tags.
Proof.
  intros K L P1 P2.
  assert (NF : ~ In full_addr (keys tags)).
  { intros H. apply K in H as [[] | [_ H]].
    apply P1 in H as [[H _] | H].
    - unfold full_addr in H. congruence.
    - apply forced_keys_are_force_labels, mem_str_In in H. vm_compute in H. discriminate. }
  assert (E : _generateFirstRow tags = keys tags).
  { unfold _generateFirstRow. apply mem_str_not_In in NF. now rewrite NF. }
  split; [exact NF|]. split; [exact E|]. split.
  - intros a Ha. rewrite E, K. split.
    + intros [[] | [_ H]]. apply P1 in H as [[_ H] | H]; [| exact H].
      apply mem_str_In in Ha. congruence.
    + intros H. right. split; [now apply address_labels_are_fields | now apply P2].
  - intros a loc Ha Hl. destruct (L _ _ Hl) as [H | H]; [discriminate | now apply H].
Qed.

Lemma csv_header_without_address (tags : dict) :
  CSV_labels (JObj d) = Ok tags -> only_forced_address_columns (JObj d) tags.
Proof.
  intros Ht.
  destruct (label_loop_inv (csv_label (JObj d)) (csv_selected (JObj d) info)
              forced_if_address
              (csv_label_step d info Hinfo Haddr force_is_object) FIELD_LABEL [] tags Ht)
    as [K L].
  apply (header_without_address tags (csv_selected (JObj d) info) K L); auto.
  intros k Hk. now right.
Qed.

Lemma xml_header_without_address (tags : dict) :
  XML_labels (JObj d) = Ok tags -> only_forced_address_columns (JObj d) tags.
Proof.
  intros Ht.
  destruct (label_loop_inv (xml_label (JObj d)) (xml_selected (JObj d) info)
              forced_if_address
              (xml_label_step d info Hinfo Haddr force_is_object) FIELD_LABEL [] tags Ht)
    as [K L].
  apply (header_without_address tags (xml_selected (JObj d) info) K L).
  - intros k [[H1 [H2 _]] | H]; auto.
  - intros k Hk. now right.
Qed.

Lemma csv_labels_total : exists tags, CSV_labels (JObj d) = Ok tags.
Proof.
  apply (label_loop_total (csv_label (JObj d))
           (csv_label_total d info Hinfo Haddr force_is_object)).
Qed.
End WithoutAddress.

(** The blank-fill pass writes the empty string in every column its input
    lacks; the seven address columns are among its columns. *)
Lemma blank_fill_supplies_address_columns (old_row : entity) (a : pystr) :
  In a ADDR_FIELD_LABEL -> has_key a old_row = false ->
  exists i, nth_error LABELS i = Some a /\
            nth_error (blank_fill_row old_row) i = Some [].
Proof.
  intros Ha Hk.
  destruct (In_nth_error LABELS a (address_labels_in_LABELS a Ha)) as [i Hi].
  exists i. split; [exact Hi|].
  unfold blank_fill_row. rewrite nth_error_map, Hi. cbn [option_map].
  now rewrite Hk.
Qed.

(** C8, as the code has it.  For a validated document whose info has
    neither [full_addr] nor an address group, the header the transformer
    writes is the keys of the label map; a structured-address column is in
    it exactly when force names it (then it is city, prov or country and
    carries the forced marker), and every row has one cell per header
    column.  The address columns left out are supplied, each as the empty
    string, by the separate blank-fill pass. *)
Theorem address_columns_only_when_forced (md : json) (info : dict) :
  validate md = Ok tt ->
  tag md (py "info") = Some (JObj info) ->
  has_key (py "full_addr") info = false ->
  has_key (py "address") info = false ->
  (exists tags, CSV_labels md = Ok tags /\ only_forced_address_columns md tags) /\
  (forall tags, XML_labels md = Ok tags -> only_forced_address_columns md tags) /\
  (forall a, In a (force_keys md) -> In a FORCE_LABEL) /\
  (forall tags bytes_decode unicode_lower address_parser get r,
     CSV_labels md = Ok tags \/ XML_labels md = Ok tags ->
     build_row bytes_decode unicode_lower address_parser get tags [] = inl r ->
     length r = length (_generateFirstRow tags)) /\
  (forall old_row a, In a ADDR_FIELD_LABEL -> has_key a old_row = false ->
     exists i, nth_error LABELS i = Some a /\
               nth_error (blank_fill_row old_row) i = Some []).
Proof.
  intros Hvalid Hinfo Hfull Haddr.
  destruct md as [ | | | | | d]; try discriminate. cbn [tag] in Hinfo.
  pose proof (csv_header_without_address d info Hvalid Hinfo Hfull Haddr) as CSV.
  pose proof (xml_header_without_address d info Hvalid Hinfo Hfull Haddr) as XML.
  split; [| split; [| split; [| split]]].
  - destruct (csv_labels_total d info Hvalid Hinfo Haddr) as [tags Ht].
    exists tags. split; [exact Ht | now apply CSV].
  - exact XML.
  - apply (forced_keys_are_force_labels d Hvalid).
  - intros tags bd ul ap get r Ht Hr.
    assert (O : only_forced_address_columns (JObj d) tags)
      by (destruct Ht; [now apply CSV | now apply XML]).
    destruct O as [NF [E _]]. rewrite E. unfold keys. rewrite length_map.
    now apply (build_row_length bd ul ap get tags [] r).
  - apply blank_fill_supplies_address_columns.
Qed.

(** The sample with force = {"country": "canada"}. *)
Lemma address_columns_only_when_forced_sample :
  (exists tags, CSV_labels md_csv_force = Ok tags /\
                only_forced_address_columns md_csv_force tags) /\
  (forall tags, XML_labels md_csv_force = Ok tags ->
                only_forced_address_columns md_csv_force tags) /\
  (forall a, In a (force_keys md_csv_force) -> In a FORCE_LABEL) /\
  (forall tags bytes_decode unicode_lower address_parser get r,
     CSV_labels md_csv_force = Ok tags \/ XML_labels md_csv_force = Ok tags ->
     build_row bytes_decode unicode_lower address_parser get tags [] = inl r ->
     length r = length (_generateFirstRow tags)) /\
  (forall old_row a, In a ADDR_FIELD_LABEL -> has_key a old_row = false ->
     exists i, nth_error LABELS i = Some a /\
               nth_error (blank_fill_row old_row) i = Some []).
Proof.
  apply (address_columns_only_when_forced md_csv_force
           [(py "bus_name", JStr (py "Name"))]); vm_compute; reflexivity.
Defined.

(** C8, refuted.  The sample document has neither [full_addr] nor an
    address group; the transform of two records writes the header
    [bus_name] and one-cell rows: none of the seven address columns is in
    the output. *)
Lemma address_columns_missing_from_output :
  let run := CSV_parse sample_decode sample_lower sample_parser sample_decodes
               (prepared_csv md_csv_name) records_name in
  validate md_csv_name = Ok tt /\
  tag md_csv_name (py "info") = Some (JObj [(py "bus_name", JStr (py "Name"))]) /\
  snd run = Ok tt /\
  written_to d_temp (fst run) = [[py "bus_name"]; [py "acme"]; [py "bolt"]] /\
  (forall a, In a ADDR_FIELD_LABEL -> ~ In a [py "bus_name"]).
Proof.
  cbv zeta. split; [vm_compute; reflexivity|]. split; [reflexivity|].
  split; [vm_compute; reflexivity|]. split; [vm_compute; reflexivity|].
  intros a Ha [<- | []]. apply mem_str_In in Ha. vm_compute in Ha. discriminate.
Qed.

(** ** Forced fields in the label map *)

Lemma label_loop_app (step : dict -> pystr -> result dict) (a b : list pystr) (m : dict) :
  label_loop step (a ++ b) m = (m1 <- label_loop step a m ;; label_loop step b m1).
Proof.
  revert m. induction a as [|i a IH]; intros m; [reflexivity|].
  cbn [app label_loop]. destruct (step m i) as [m1|ex]; cbn [bind]; [apply IH | reflexivity].
Qed.

(** Each step leaves the map or binds the current field. *)
Lemma csv_label_shape (md : json) (m : dict) (i : pystr) (m' : dict) :
  csv_label md m i = Ok m' -> m' = m \/ exists v, m' = dict_set i v m.
Proof.
  unfold csv_label. intros H.
  next_as H info E1; [| discriminate]. next_as H direct E2; [| discriminate].
  destruct (direct && negb (mem_str i ADDR_FIELD_LABEL)).
  - next_as H v E3; [| discriminate]. injection H as <-. eauto.
  - next_as H in_addr E3; [| discriminate]. destruct in_addr.
    + next_as H a E4; [| discriminate]. next_as H v E5; [| discriminate].
      injection H as <-. eauto.
    + next_as H in_force E4; [| discriminate].
      destruct in_force; injection H as <-; eauto.
Qed.

Lemma xml_label_shape (md : json) (m : dict) (i : pystr) (m' : dict) :
  xml_label md m i = Ok m' -> m' = m \/ exists v, m' = dict_set i v m.
Proof.
  unfold xml_label. intros H.
  next_as H info E1; [| discriminate]. next_as H direct E2; [| discriminate].
  destruct (direct && negb (mem_str i ADDR_FIELD_LABEL) &&
            negb (eqb_str i (py "address"))).
  - next_as H v E3; [| discriminate].
    destruct v; try (next_as H x E4; [| discriminate]; injection H as <-; eauto).
  - next_as H in_addr E3; [| discriminate]. destruct in_addr.
    + next_as H a E4; [| discriminate]. next_as H v E5; [| discriminate].
      next_as H x E6; [| discriminate]. injection H as <-. eauto.
    + next_as H in_force E4; [| discriminate].
      destruct in_force; injection H as <-; eauto.
Qed.

Lemma label_loop_keeps (step : dict -> pystr -> result dict) :
  (forall m i m', step m i = Ok m' -> m' = m \/ exists v, m' = dict_set i v m) ->
  forall l k m m', ~ In k l -> label_loop step l m = Ok m' -> lookup k m' = lookup k m.
Proof.
  intros Hstep. induction l as [|i l IH]; intros k m m' Hk H; cbn [label_loop] in H.
  - now injection H as <-.
  - destruct (step m i) as [m1|ex] eqn:E; cbn [bind] in H; [| discriminate].
    rewrite (IH k m1 m') by (auto; intros Hin; apply Hk; now right).
    destruct (Hstep _ _ _ E) as [-> | [v ->]]; [reflexivity|].
    rewrite lookup_dict_set.
    destruct (eqb_str k i) eqn:Ek; [| reflexivity].
    apply eqb_str_eq in Ek. subst. exfalso. apply Hk. now left.
Qed.

Lemma force_label_position (key : pystr) :
  In key FORCE_LABEL ->
  exists pre post, FIELD_LABEL = pre ++ key :: post /\ ~ In key post.
Proof.
  intros [<- | [<- | [<- | []]]].
  - exists (firstn 15 FIELD_LABEL), (skipn 16 FIELD_LABEL). split; [reflexivity|].
    intros H. apply mem_str_In in H. vm_compute in H. discriminate.
  - exists (firstn 16 FIELD_LABEL), (skipn 17 FIELD_LABEL). split; [reflexivity|].
    intros H. apply mem_str_In in H. vm_compute in H. discriminate.
  - exists (firstn 17 FIELD_LABEL), (skipn 18 FIELD_LABEL). split; [reflexivity|].
    intros H. apply mem_str_In in H. vm_compute in H. discriminate.
Qed.

Lemma force_labels_are_address_labels (key : pystr) :
  In key FORCE_LABEL -> mem_str key ADDR_FIELD_LABEL = true.
Proof. intros [<- | [<- | [<- | []]]]; reflexivity. Qed.

Section ForcedKey.
Variables d fd : dict.
Variable key : pystr.
Hypothesis Hvalid : validate (JObj d) = Ok tt.
Hypothesis Hforce : lookup (py "force") d = Some (JObj fd).
Hypothesis Hkey : In key (keys fd).

Lemma forced_key_is_force_label : In key FORCE_LABEL.
Proof.
  destruct (validate_rules (JObj d) Hvalid)
    as [fmt [file [inf [_ [_ [_ [_ [_ [_ [_ [_ Hf]]]]]]]]]]].
  destruct (Hf _ Hforce) as [fd' [E [Hincl _]]]. injection E as <-. now apply Hincl.
Qed.

(** With a validated document, the groups around a forced key. *)
Lemma forced_key_groups :
  exists inf,
    py_getitem (JObj d) (py "info") = Ok (JObj inf) /\
    in_group (JObj inf) (py "address") key = Ok false /\
    in_group (JObj d) (py "force") key = Ok true.
Proof.
  destruct (validate_rules (JObj d) Hvalid)
    as [fmt [file [inf [_ [_ [Hi [_ [_ [_ [_ [Ha Hf]]]]]]]]]]].
  cbn [tag] in *. exists inf. split; [now apply getitem_lookup|]. split.
  - unfold in_group. cbn [py_in bind]. rewrite has_key_lookup.
    destruct (lookup (py "address") inf) as [a|] eqn:Ea; [| reflexivity].
    destruct (Ha a Ea) as [ad [-> _]].
    rewrite (getitem_lookup _ _ _ Ea). cbn [bind py_in]. f_equal.
    destruct (has_key key ad) eqn:Ek; [| reflexivity].
    destruct (Hf _ Hforce) as [fd' [E [_ Hclash]]]. injection E as <-.
    exfalso. apply (Hclash key ad Hkey Ea). now apply has_key_In.
  - unfold in_group. cbn [py_in bind]. rewrite has_key_lookup, Hforce.
    rewrite (getitem_lookup _ _ _ Hforce). cbn [bind py_in]. f_equal.
    now apply has_key_In.
Qed.

Lemma csv_label_forced (m : dict) :
  csv_label (JObj d) m key = Ok (dict_set key (JStr DPIFORCE) m).
Proof.
  destruct forced_key_groups as [inf [Hi [Ha Hf]]].
  unfold csv_label. rewrite Hi. cbn [bind py_in].
  rewrite (force_labels_are_address_labels key forced_key_is_force_label).
  rewrite andb_false_r. now rewrite Ha, Hf.
Qed.

Lemma xml_label_forced (m : dict) :
  xml_label (JObj d) m key = Ok (dict_set key (JStr DPIFORCE) m).
Proof.
  destruct forced_key_groups as [inf [Hi [Ha Hf]]].
  unfold xml_label. rewrite Hi. cbn [bind py_in].
  rewrite (force_labels_are_address_labels key forced_key_is_force_label).
  rewrite andb_false_r. cbn [andb]. now rewrite Ha, Hf.
Qed.

Lemma forced_key_in_labels (step : dict -> pystr -> result dict) (tags : dict) :
  (forall m i m', step m i = Ok m' -> m' = m \/ exists v, m' = dict_set i v m) ->
  (forall m, step m key = Ok (dict_set key (JStr DPIFORCE) m)) ->
  label_loop step FIELD_LABEL [] = Ok tags ->
  lookup key tags = Some (JStr DPIFORCE).
Proof.
  intros Hshape Hforced Ht.
  destruct (force_label_position key forced_key_is_force_label) as [pre [post [E Hpost]]].
  rewrite E, label_loop_app in Ht.
  destruct (label_loop step pre []) as [m1|ex]; cbn [bind label_loop] in Ht; [| discriminate].
  rewrite Hforced in Ht. cbn [bind] in Ht.
  rewrite (label_loop_keeps step Hshape post key _ tags Hpost Ht).
  rewrite lookup_dict_set. now rewrite eqb_str_refl.
Qed.
End ForcedKey.

Lemma lookup_In (k : pystr) (v : json) (m : dict) : lookup k m = Some v -> In (k, v) m.
Proof.
  induction m as [|[k' v'] m IH]; cbn [lookup]; [discriminate|].
  destruct (eqb_str k k') eqn:E.
  - apply eqb_str_eq in E. subst. intros [= ->]. now left.
  - intros H. right. now apply IH.
Qed.

(** C6 (the code at a forced field).  For a validated document whose
    force object names a field (city, prov or country), the label map of
    either variant binds that field to the forced marker; resolving it
    reads the unbound name [json_data] and raises [NameError], so no
    record resolves to a row and neither variant writes a single data row:
    the forced value reaches no output row. *)
Theorem forced_field_raises_NameError
    (bytes_decode : list N -> result pystr) (unicode_lower : pystr -> pystr)
    (address_parser : pystr -> list (pystr * pystr))
    (element : Type) (find : element -> pystr -> option element)
    (text : element -> option pystr)
    (md : json) (fd tags : dict) (key : pystr) :
  validate md = Ok tt ->
  tag md (py "force") = Some (JObj fd) ->
  In key (keys fd) ->
  CSV_labels md = Ok tags \/ XML_labels md = Ok tags ->
  lookup key tags = Some (JStr DPIFORCE) /\
  (forall get r,
     cells bytes_decode unicode_lower address_parser get key (JStr DPIFORCE) r =
     Raise NameError) /\
  (forall get r, exists ex loc,
     build_row bytes_decode unicode_lower address_parser get tags r = inr (ex, loc)) /\
  (forall out entities,
     written_to out
       (fst (csv_records bytes_decode unicode_lower address_parser tags out entities))
     = []) /\
  (forall out elements,
     written_to out
       (fst (xml_records bytes_decode unicode_lower address_parser find text
               tags out elements))
     = []).
Proof.
  intros Hvalid Hforce Hkey Ht.
  destruct md as [ | | | | | d]; try discriminate. cbn [tag] in Hforce.
  assert (L : lookup key tags = Some (JStr DPIFORCE)).
  { destruct Ht as [Ht | Ht].
    - apply (forced_key_in_labels d fd key Hvalid Hforce Hkey (csv_label (JObj d)) tags);
        [apply csv_label_shape | apply (csv_label_forced d fd key Hvalid Hforce Hkey)
        | exact Ht].
    - apply (forced_key_in_labels d fd key Hvalid Hforce Hkey (xml_label (JObj d)) tags);
        [apply xml_label_shape | apply (xml_label_forced d fd key Hvalid Hforce Hkey)
        | exact Ht]. }
  pose proof (forced_key_is_force_label d fd key Hvalid Hforce Hkey) as F.
  pose proof (lookup_In key _ tags L) as I.
  split; [exact L|]. split.
  - intros get r. now apply forced_cells_raise.
  - split.
    + intros get r. now apply (forced_row_never_resolves _ _ _ get tags key r).
    + apply (forced_marker_never_resolves bytes_decode unicode_lower address_parser
               element find text tags key I F).
Qed.

(** The sample datasets with force = {"country": "canada"}: both
    transforms stop at the first record, after the header row. *)
Lemma forced_country_sample :
  CSV_parse sample_decode sample_lower sample_parser sample_decodes
    (prepared_csv md_csv_force) records_name =
    ([Open_w d_temp; Writerow d_temp [py "bus_name"; py "country"]], Raise NameError) /\
  XML_parse sample_decode sample_lower sample_parser sample_decodes sample_find sample_text
    (prepared_xml md_xml_force) elements_name =
    ([Open_w d_dirty; Writerow d_dirty [py "bus_name"; py "country"]], Raise NameError) /\
  lookup (py "country")
    [(py "bus_name", JStr (py "Name")); (py "country", JStr DPIFORCE)] =
    Some (JStr DPIFORCE) /\
  (forall out,
     written_to out
       (fst (csv_records sample_decode sample_lower sample_parser
               [(py "bus_name", JStr (py "Name")); (py "country", JStr DPIFORCE)]
               out records_name)) = []) /\
  (forall out,
     written_to out
       (fst (xml_records sample_decode sample_lower sample_parser sample_find sample_text
               [(py "bus_name", JStr (py ".//Name")); (py "country", JStr DPIFORCE)]
               out elements_name)) = []).
Proof.
  split; [vm_compute; reflexivity|]. split; [vm_compute; reflexivity|].
  assert (C := forced_field_raises_NameError sample_decode sample_lower sample_parser
                 xml sample_find sample_text md_csv_force
                 [(py "country", JStr (py "canada"))]
                 [(py "bus_name", JStr (py "Name")); (py "country", JStr DPIFORCE)]
                 (py "country")).
  assert (X := forced_field_raises_NameError sample_decode sample_lower sample_parser
                 xml sample_find sample_text md_xml_force
                 [(py "country", JStr (py "canada"))]
                 [(py "bus_name", JStr (py ".//Name")); (py "country", JStr DPIFORCE)]
                 (py "country")).
  destruct C as [C1 [_ [_ [C2 _]]]];
    [vm_compute; reflexivity | reflexivity | left; reflexivity
     | left; vm_compute; reflexivity |].
  destruct X as [_ [_ [_ [_ X2]]]];
    [vm_compute; reflexivity | reflexivity | left; reflexivity
     | right; vm_compute; reflexivity |].
  split; [exact C1|]. split; [intros out; apply C2 | intros out; apply X2].
Defined.

(* ================================================================== *)
(** * Further properties *)

Lemma split_on_nonempty (c : N) (s : pystr) : split_on c s <> [].
Proof.
  destruct s as [|x s]; cbn [split_on]; [discriminate|].
  destruct (N.eqb x c); [discriminate|]. destruct (split_on c s); discriminate.
Qed.

Lemma split_on_no_sep (c : N) (s : pystr) : ~ In c s -> split_on c s = [s].
Proof.
  induction s as [|x s IH]; intros H; cbn [split_on]; [reflexivity|].
  destruct (N.eqb x c) eqn:E.
  - apply N.eqb_eq in E. subst. exfalso. apply H. now left.
  - rewrite IH; [reflexivity|]. intros Hin. apply H. now right.
Qed.

Lemma split_on_app (c : N) (a b : pystr) :
  split_on c (a ++ c :: b) = split_on c a ++ split_on c b.
Proof.
  induction a as [|x a IH]; cbn [app split_on].
  - now rewrite N.eqb_refl.
  - destruct (N.eqb x c); [now rewrite IH|].
    rewrite IH. pose proof (split_on_nonempty c a) as NE.
    destruct (split_on c a) as [|w ws]; [contradiction | reflexivity].
Qed.

Lemma join_split (c : N) (s : pystr) : join_with [c] (split_on c s) = s.
Proof.
  induction s as [|x s IH]; cbn [split_on]; [reflexivity|].
  pose proof (split_on_nonempty c s) as NE.
  destruct (N.eqb x c) eqn:E.
  - apply N.eqb_eq in E. subst x.
    destruct (split_on c s) as [|w ws]; [contradiction|].
    change (join_with [c] ([] :: w :: ws)) with (c :: join_with [c] (w :: ws)).
    now rewrite IH.
  - destruct (split_on c s) as [|w ws]; [contradiction|].
    destruct ws as [|w' ws].
    + cbn [join_with] in *. now rewrite IH.
    + change (join_with [c] ((x :: w) :: w' :: ws))
        with (x :: join_with [c] (w :: w' :: ws)).
      now rewrite IH.
Qed.

Lemma strip_ext_dot (base ext : pystr) :
  ~ In 46%N ext -> strip_ext (base ++ 46%N :: ext) = base.
Proof.
  intros H. unfold strip_ext. rewrite split_on_app, (split_on_no_sep _ _ H).
  rewrite length_app. cbn [length].
  pose proof (split_on_nonempty 46 base) as NE.
  destruct (split_on 46 base) as [|w ws] eqn:E; [contradiction|].
  replace (Nat.eqb (length (w :: ws) + 1) 1) with false
    by (symmetry; apply Nat.eqb_neq; cbn [length]; lia).
  rewrite removelast_last, <- E. apply join_split.
Qed.

Lemma strip_ext_no_dot (name : pystr) : ~ In 46%N name -> strip_ext name = name.
Proof. intros H. unfold strip_ext. now rewrite (split_on_no_sep _ _ H). Qed.

Lemma nodupb_NoDup (l : list pystr) : nodupb l = true -> NoDup l.
Proof.
  induction l as [|x l IH]; cbn [nodupb]; [constructor|].
  intros H. apply andb_true_iff in H as [H1 H2]. apply negb_true_iff in H1.
  constructor; [now apply mem_str_not_In | now apply IH].
Qed.

Lemma FIELD_LABEL_NoDup : NoDup FIELD_LABEL.
Proof. apply nodupb_NoDup. vm_compute. reflexivity. Qed.

(** paths *)
Lemma raw_dirty_clean_prefix (f g h : pystr) :
  raw_of f <> dirty_of g /\ raw_of f <> clean_of h /\ dirty_of g <> clean_of h /\
  raw_of f <> dirty_of g ++ py "-temp" /\ clean_of h <> dirty_of g ++ py "-temp".
Proof.
  unfold raw_of, dirty_of, clean_of.
  repeat split; intros H; apply (f_equal (firstn 9)) in H; vm_compute in H; discriminate.
Qed.

(** header *)
Lemma list_index_app (x : pystr) (pre post : list pystr) :
  ~ In x pre -> list_index x (pre ++ x :: post) = Some (length pre).
Proof.
  induction pre as [|y pre IH]; intros H; cbn [app list_index length].
  - now rewrite eqb_str_refl.
  - destruct (eqb_str y x) eqn:E.
    + apply eqb_str_eq in E. subst. exfalso. apply H. now left.
    + rewrite IH; [reflexivity|]. intros Hin. apply H. now right.
Qed.

Lemma list_insert_app {A} (pre l : list A) (x : A) :
  list_insert (length pre) x (pre ++ l) = pre ++ x :: l.
Proof.
  unfold list_insert. rewrite firstn_app, skipn_app, Nat.sub_diag, firstn_all, skipn_all.
  cbn. now rewrite app_nil_r.
Qed.

Lemma list_pop_app {A} (pre post : list A) (x : A) :
  list_pop (length pre) (pre ++ x :: post) = pre ++ post.
Proof.
  unfold list_pop. rewrite firstn_app, Nat.sub_diag, firstn_all. cbn [firstn].
  rewrite app_nil_r. f_equal.
  change (S (length pre)) with (1 + length pre). rewrite <- skipn_skipn.
  rewrite skipn_app, Nat.sub_diag, skipn_all. reflexivity.
Qed.

Lemma generateFirstRow_expand (tags : dict) (pre post : list pystr) :
  keys tags = pre ++ full_addr :: post -> ~ In full_addr pre ->
  _generateFirstRow tags = pre ++ ADDR_FIELD_LABEL ++ post.
Proof.
  intros K H. unfold _generateFirstRow. rewrite K.
  replace (mem_str full_addr (pre ++ full_addr :: post)) with true
    by (symmetry; apply mem_str_In, in_elt).
  rewrite (list_index_app _ _ _ H), list_pop_app.
  change (rev ADDR_FIELD_LABEL)
    with [py "postcode"; py "country"; py "prov"; py "city"; py "road";
          py "house_number"; py "unit"].
  cbn [fold_left]. now rewrite !list_insert_app.
Qed.

Lemma generateFirstRow_plain (tags : dict) :
  ~ In full_addr (keys tags) -> _generateFirstRow tags = keys tags.
Proof.
  intros H. unfold _generateFirstRow. apply mem_str_not_In in H. now rewrite H.
Qed.

Lemma generateFirstRow_length (tags : dict) :
  length (_generateFirstRow tags) =
  length tags + (if mem_str full_addr (keys tags) then 6 else 0).
Proof.
  destruct (mem_str full_addr (keys tags)) eqn:E.
  - apply mem_str_In in E. apply in_split in E as E'.
    assert (S : exists pre post, keys tags = pre ++ full_addr :: post /\ ~ In full_addr pre).
    { clear E'. induction (keys tags) as [|k l IH]; [destruct E|].
      destruct (eqb_str k full_addr) eqn:Ek.
      - apply eqb_str_eq in Ek. subst. exists [], l. split; [reflexivity | intros []].
      - apply eqb_str_neq in Ek. destruct E as [-> | E]; [contradiction|].
        destruct (IH E) as [pre [post [-> Hn]]]. exists (k :: pre), post.
        split; [reflexivity|]. intros [H | H]; [now subst | contradiction]. }
    destruct S as [pre [post [K Hn]]].
    rewrite (generateFirstRow_expand _ _ _ K Hn).
    assert (L : length tags = length (keys tags)) by (unfold keys; now rewrite length_map).
    rewrite L, K. rewrite !length_app. cbn [length].
    change (length ADDR_FIELD_LABEL) with 7. lia.
  - apply mem_str_not_In in E. rewrite (generateFirstRow_plain _ E).
    unfold keys. rewrite length_map. lia.
Qed.

Section Width.
Variable bytes_decode : list N -> result pystr.
Variable unicode_lower : pystr -> pystr.
Variable address_parser : pystr -> list (pystr * pystr).

Lemma cells_seven_cells (get : json -> result pystr) (loc : json) (r r' : row) :
  cells bytes_decode unicode_lower address_parser get full_addr loc r = Ok r' ->
  length r' = length r + 7.
Proof.
  assert (P : forall tokens, length (r ++ project tokens) = length r + 7).
  { intros tokens. rewrite length_app. reflexivity. }
  destruct loc as [| b | z | s | l | d];
    try (rewrite cells_full_addr by reflexivity;
         destruct (get _) as [v|ex]; cbn [bind]; [| discriminate];
         intros [= <-]; apply P).
  rewrite cells_full_addr_list.
  destruct (fold_left _ l (Ok [])) as [v|ex]; cbn [bind]; [| discriminate].
  intros [= <-]. apply P.
Qed.

Lemma build_row_width (get : json -> result pystr) (tags : dict) (r r' : row) :
  NoDup (keys tags) ->
  build_row bytes_decode unicode_lower address_parser get tags r = inl r' ->
  length r' = length r + length tags + (if mem_str full_addr (keys tags) then 6 else 0).
Proof.
  revert r. induction tags as [|[k l] tags IH]; intros r ND H; cbn [build_row] in H.
  - injection H as <-. cbn. lia.
  - destruct (cells _ _ _ get k l r) as [r1|ex] eqn:E; [| discriminate].
    cbn [keys map fst] in ND. fold (keys tags) in ND. inversion ND as [|? ? Hk ND']; subst.
    cbn [keys map fst]. fold (keys tags). rewrite mem_str_cons.
    destruct (eqb_str k full_addr) eqn:Ek.
    + apply eqb_str_eq in Ek. subst k. rewrite eqb_str_refl. cbn [orb].
      apply cells_seven_cells in E.
      rewrite (build_row_length _ _ _ get tags r1 r' Hk H). cbn [length]. lia.
    + rewrite eqb_str_sym, Ek. cbn [orb].
      apply (cells_one_cell _ _ _ get k l r r1 Ek) in E.
      rewrite (IH r1 ND' H). cbn [length]. lia.
Qed.
End Width.

(** label loops *)
Lemma dict_set_fresh (i : pystr) (v : json) (m : dict) :
  ~ In i (keys m) -> keys (dict_set i v m) = keys m ++ [i].
Proof.
  induction m as [|[k w] m IH]; intros H; cbn [dict_set keys map fst app]; [reflexivity|].
  destruct (eqb_str i k) eqn:E.
  - apply eqb_str_eq in E. subst. exfalso. apply H. now left.
  - cbn [keys map fst]. fold (keys (dict_set i v m)). fold (keys m).
    rewrite IH; [reflexivity|]. intros Hin. apply H. now right.
Qed.

Lemma label_loop_keys_order (step : dict -> pystr -> result dict) :
  (forall m i m', step m i = Ok m' -> m' = m \/ exists v, m' = dict_set i v m) ->
  forall l m m',
    NoDup l -> (forall k, In k l -> ~ In k (keys m)) ->
    label_loop step l m = Ok m' ->
    keys m' = keys m ++ filter (fun i => mem_str i (keys m')) l.
Proof.
  intros Hstep.
  assert (Sub : forall l m m', label_loop step l m = Ok m' ->
            forall k, In k (keys m') <-> In k (keys m) \/ (In k l /\ In k (keys m'))).
  { induction l as [|i l IH]; intros m m' H k; cbn [label_loop] in H.
    - injection H as <-. cbn [In]. tauto.
    - destruct (step m i) as [m1|ex] eqn:E; cbn [bind] in H; [| discriminate].
      rewrite (IH _ _ H k). cbn [In].
      destruct (Hstep _ _ _ E) as [-> | [v ->]]; [tauto|].
      rewrite keys_dict_set. split.
      + intros [[-> | H1] | [H1 H2]]; auto.
      + intros [H1 | [[<- | H1] H2]]; auto. }
  induction l as [|i l IH]; intros m m' ND Fresh H.
  - cbn [label_loop] in H. injection H as <-. cbn [filter]. now rewrite app_nil_r.
  - cbn [label_loop] in H. destruct (step m i) as [m1|ex] eqn:E; cbn [bind] in H;
      [| discriminate].
    inversion ND as [|? ? Hi ND']; subst. cbn [filter].
    destruct (Hstep _ _ _ E) as [-> | [v ->]].
    + rewrite (IH m m' ND') at 1; [| intros k Hk; apply Fresh; now right | exact H].
      replace (mem_str i (keys m')) with false; [reflexivity|].
      symmetry. apply mem_str_not_In. intros Hin. apply (Sub _ _ _ H) in Hin.
      destruct Hin as [Hin | [Hin _]]; [| contradiction].
      apply (Fresh i); [now left | exact Hin].
    + assert (Fi : ~ In i (keys m)) by (apply Fresh; now left).
      rewrite (IH (dict_set i v m) m' ND') at 1; [| | exact H].
      * rewrite (dict_set_fresh _ _ _ Fi), <- app_assoc. cbn [app].
        replace (mem_str i (keys m')) with true; [reflexivity|].
        symmetry. apply mem_str_In. apply (Sub _ _ _ H). left.
        apply keys_dict_set. now left.
      * intros k Hk Hin. apply keys_dict_set in Hin as [-> | Hin]; [contradiction|].
        apply (Fresh k); [now right | exact Hin].
Qed.

(** choice lemmas *)
Section Choice.
Variable step : dict -> pystr -> result dict.
Variable choice : pystr -> result (option json).
Hypothesis Hstep : forall m i,
  step m i = (c <- choice i ;; Ok (match c with Some v => dict_set i v m | None => m end)).

Lemma label_loop_choice_total (l : list pystr) (m : dict) :
  (forall i, In i l -> exists c, choice i = Ok c) ->
  exists m', label_loop step l m = Ok m'.
Proof.
  revert m. induction l as [|i l IH]; intros m H; cbn [label_loop]; [eauto|].
  rewrite Hstep. destruct (H i (or_introl eq_refl)) as [c ->]. cbn [bind].
  apply IH. intros j Hj. apply H. now right.
Qed.

Lemma label_loop_choice_raise (l : list pystr) (m : dict) (e : exn) :
  label_loop step l m = Raise e -> exists i, In i l /\ choice i = Raise e.
Proof.
  revert m. induction l as [|i l IH]; intros m H; cbn [label_loop] in H; [discriminate|].
  rewrite Hstep in H. destruct (choice i) as [c|ex] eqn:E; cbn [bind] in H.
  - destruct (IH _ H) as [j [Hj Ej]]. exists j. split; [now right | exact Ej].
  - injection H as ->. exists i. split; [now left | exact E].
Qed.

Lemma label_loop_choice_lookup (l : list pystr) (m m' : dict) :
  label_loop step l m = Ok m' ->
  forall k, lookup k m' =
            if mem_str k l
            then match choice k with Ok (Some v) => Some v | _ => lookup k m end
            else lookup k m.
Proof.
  revert m. induction l as [|i l IH]; intros m H k; cbn [label_loop] in H.
  - now injection H as <-.
  - rewrite Hstep in H. destruct (choice i) as [c|ex] eqn:E; cbn [bind] in H;
      [| discriminate].
    rewrite (IH _ H k), mem_str_cons.
    destruct (eqb_str k i) eqn:Ek; cbn [orb].
    + apply eqb_str_eq in Ek. subst k. rewrite E.
      destruct c as [v|].
      * rewrite lookup_dict_set, eqb_str_refl. now destruct (mem_str i l).
      * now destruct (mem_str i l).
    + destruct c as [v|]; [| reflexivity].
      rewrite lookup_dict_set, Ek. reflexivity.
Qed.
End Choice.

Section ValidatedLabels.
Variables d info : dict.
Hypothesis Hrules : structural_rules (JObj d).
Hypothesis Hinfo : lookup (py "info") d = Some (JObj info).

Lemma rules_address (a : json) :
  address_group info = Some a -> exists ad, a = JObj ad /\ incl (keys ad) ADDR_FIELD_LABEL.
Proof.
  destruct Hrules as [fmt [file [info' [_ [_ [Hi [_ [_ [_ [_ [Ha _]]]]]]]]]]].
  cbn [tag] in Hi. rewrite Hinfo in Hi. injection Hi as <-. apply Ha.
Qed.

Lemma rules_force (f : json) :
  lookup (py "force") d = Some f ->
  exists fd, f = JObj fd /\ incl (keys fd) FORCE_LABEL /\
    forall k ad, In k (keys fd) -> address_group info = Some (JObj ad) -> ~ In k (keys ad).
Proof.
  destruct Hrules as [fmt [file [info' [_ [_ [Hi [_ [_ [_ [_ [_ Hf]]]]]]]]]]].
  cbn [tag] in Hi. rewrite Hinfo in Hi. injection Hi as <-. apply Hf.
Qed.

Lemma address_in_group (i : pystr) :
  in_group (JObj info) (py "address") i =
  Ok (match address_locator info i with Some _ => true | None => false end).
Proof.
  unfold in_group, address_locator. cbn [py_in bind]. rewrite has_key_lookup.
  fold (address_group info).
  destruct (address_group info) as [a|] eqn:E; [| reflexivity].
  destruct (rules_address a E) as [ad [-> _]].
  unfold address_group in E. rewrite (getitem_lookup _ _ _ E). cbn [bind py_in].
  now rewrite has_key_lookup.
Qed.

Lemma address_getitem (i : pystr) (v : json) :
  address_locator info i = Some v ->
  (a <- py_getitem (JObj info) (py "address") ;; py_getitem a i) = Ok v.
Proof.
  unfold address_locator. destruct (address_group info) as [a|] eqn:E; [| discriminate].
  destruct a as [ | | | | | ad]; try discriminate. intros H.
  unfold address_group in E. rewrite (getitem_lookup _ _ _ E). cbn [bind].
  now apply getitem_lookup.
Qed.

Lemma force_in_group (i : pystr) :
  in_group (JObj d) (py "force") i = Ok (mem_str i (force_keys (JObj d))).
Proof.
  unfold in_group, force_keys. cbn [py_in bind tag]. rewrite has_key_lookup.
  destruct (lookup (py "force") d) as [f|] eqn:E; [| reflexivity].
  destruct (rules_force f E) as [fd [-> _]].
  rewrite (getitem_lookup _ _ _ E). reflexivity.
Qed.

Lemma csv_label_choice (m : dict) (i : pystr) :
  csv_label (JObj d) m i =
  (c <- Ok (csv_locator (JObj d) info i) ;;
   Ok (match c with Some v => dict_set i v m | None => m end)).
Proof.
  unfold csv_label, csv_locator. rewrite (getitem_lookup _ _ _ Hinfo). cbn [bind py_in].
  destruct (has_key i info && negb (mem_str i ADDR_FIELD_LABEL)) eqn:E1.
  - apply andb_true_iff in E1 as [Hk _]. apply has_key_true in Hk as [v Hv].
    rewrite (getitem_lookup _ _ _ Hv), Hv. reflexivity.
  - rewrite address_in_group. cbn [bind].
    destruct (address_locator info i) as [v|] eqn:Ea.
    + pose proof (address_getitem i v Ea) as G.
      destruct (py_getitem (JObj info) (py "address")) as [a|ex]; cbn [bind] in *;
        [| discriminate].
      rewrite G. reflexivity.
    + rewrite force_in_group. cbn [bind].
      now destruct (mem_str i (force_keys (JObj d))).
Qed.

Lemma xml_label_choice (m : dict) (i : pystr) :
  In i FIELD_LABEL ->
  xml_label (JObj d) m i =
  (c <- xml_locator (JObj d) info i ;;
   Ok (match c with Some v => dict_set i v m | None => m end)).
Proof.
  intros Hi.
  assert (NA : eqb_str i (py "address") = false).
  { apply eqb_str_neq. intros ->. apply mem_str_In in Hi. vm_compute in Hi. discriminate. }
  unfold xml_label, xml_locator. rewrite (getitem_lookup _ _ _ Hinfo). cbn [bind py_in].
  rewrite NA, andb_true_r.
  destruct (has_key i info && negb (mem_str i ADDR_FIELD_LABEL)) eqn:E1.
  - apply andb_true_iff in E1 as [Hk _]. apply has_key_true in Hk as [v Hv].
    rewrite (getitem_lookup _ _ _ Hv), Hv. cbn [bind].
    destruct v as [ | b | z | s | l | o]; cbn [xpath bind]; try reflexivity.
    destruct (xpath_all l); reflexivity.
  - rewrite address_in_group. cbn [bind].
    destruct (address_locator info i) as [v|] eqn:Ea.
    + pose proof (address_getitem i v Ea) as G.
      destruct (py_getitem (JObj info) (py "address")) as [a|ex]; cbn [bind] in *;
        [| discriminate].
      rewrite G. cbn [bind]. destruct (xpath v); reflexivity.
    + rewrite force_in_group. cbn [bind].
      now destruct (mem_str i (force_keys (JObj d))).
Qed.
End ValidatedLabels.

Lemma label_loop_choice_defined (step : dict -> pystr -> result dict)
    (choice : pystr -> result (option json)) :
  (forall m i,
     step m i = (c <- choice i ;; Ok (match c with Some v => dict_set i v m | None => m end))) ->
  forall l m m', label_loop step l m = Ok m' ->
  forall i, In i l -> exists c, choice i = Ok c.
Proof.
  intros Hstep. induction l as [|j l IH]; intros m m' H i Hi; [destruct Hi|].
  cbn [label_loop] in H. rewrite Hstep in H.
  destruct (choice j) as [c|ex] eqn:E; cbn [bind] in H; [| discriminate].
  destruct Hi as [<- | Hi]; [eauto | now apply (IH _ _ H)].
Qed.

Lemma label_loop_ext (step step' : dict -> pystr -> result dict) (l : list pystr) (m : dict) :
  (forall m i, In i l -> step m i = step' m i) ->
  label_loop step l m = label_loop step' l m.
Proof.
  revert m. induction l as [|i l IH]; intros m H; [reflexivity|].
  cbn [label_loop]. rewrite (H m i (or_introl eq_refl)).
  destruct (step' m i) as [m1|ex]; cbn [bind]; [| reflexivity].
  apply IH. intros m2 j Hj. apply H. now right.
Qed.

Lemma validated_metadata (md : json) : metadata (validated md) = md.
Proof.
  unfold validated, Source_parse, Source_init. cbn [metadata].
  destruct (parse_checks md); reflexivity.
Qed.

Lemma validated_paths (md : json) (file : pystr) :
  validate md = Ok tt -> tag md (py "file") = Some (JStr file) ->
  validated md = mkSource md (Some (raw_of file)) (Some (dirty_of file))
                   (Some (clean_of file)) None.
Proof.
  unfold validate, validated, Source_parse, Source_init. cbn [metadata].
  pose proof (parse_checks_cases md _ eq_refl) as C.
  destruct (parse_checks md) as [f|e]; cbn [fst snd]; [| discriminate].
  intros _ Hf. destruct C as [_ C]. rewrite Hf in C. now injection C as ->.
Qed.


Lemma force_labels_are_fields (a : pystr) : In a FORCE_LABEL -> In a FIELD_LABEL.
Proof.
  intros H. apply address_labels_are_fields, mem_str_In.
  now apply force_labels_are_address_labels.
Qed.

Lemma label_loop_keys_order_nil (step : dict -> pystr -> result dict) :
  (forall m i m', step m i = Ok m' -> m' = m \/ exists v, m' = dict_set i v m) ->
  forall l m',
    NoDup l -> label_loop step l [] = Ok m' ->
    keys m' = filter (fun i => mem_str i (keys m')) l.
Proof.
  intros Hstep l m' ND H.
  apply (label_loop_keys_order step Hstep l [] m' ND); [intros k _ [] | exact H].
Qed.

Lemma csv_label_keys (md : json) (tags : dict) :
  CSV_labels md = Ok tags -> keys tags = filter (fun i => mem_str i (keys tags)) FIELD_LABEL.
Proof.
  apply (label_loop_keys_order_nil (csv_label md) (csv_label_shape md)), FIELD_LABEL_NoDup.
Qed.

Lemma xml_label_keys (md : json) (tags : dict) :
  XML_labels md = Ok tags -> keys tags = filter (fun i => mem_str i (keys tags)) FIELD_LABEL.
Proof.
  apply (label_loop_keys_order_nil (xml_label md) (xml_label_shape md)), FIELD_LABEL_NoDup.
Qed.

Lemma filter_NoDup {A} (f : A -> bool) (l : list A) : NoDup l -> NoDup (filter f l).
Proof. apply NoDup_filter. Qed.

Lemma label_keys_NoDup (md : json) (tags : dict) :
  CSV_labels md = Ok tags \/ XML_labels md = Ok tags -> NoDup (keys tags).
Proof.
  intros [H | H]; [rewrite (csv_label_keys _ _ H) | rewrite (xml_label_keys _ _ H)];
    apply NoDup_filter, FIELD_LABEL_NoDup.
Qed.

Lemma xpath_Ok (u v : json) :
  xpath u = Ok v <-> exists s, u = JStr s /\ v = JStr (py ".//" ++ s).
Proof.
  split.
  - destruct u; cbn [xpath]; try discriminate. intros [= <-]. eauto.
  - intros [s [-> ->]]. reflexivity.
Qed.

Lemma xpath_Raise (u : json) (e : exn) : xpath u = Raise e -> e = TypeError.
Proof. destruct u; cbn [xpath]; try discriminate; now intros [= <-]. Qed.

Lemma xpath_all_Ok (l xs : list json) :
  xpath_all l = Ok xs <->
  exists ss, l = map JStr ss /\ xs = map (fun s => JStr (py ".//" ++ s)) ss.
Proof.
  revert xs. induction l as [|u l IH]; intros xs; cbn [xpath_all].
  - split.
    + intros [= <-]. exists []. auto.
    + intros [ss [H ->]]. destruct ss; [reflexivity | discriminate].
  - split.
    + destruct (xpath u) as [x|ex] eqn:Ex; cbn [bind]; [| discriminate].
      destruct (xpath_all l) as [xs'|ex] eqn:El; cbn [bind]; [| discriminate].
      intros [= <-]. apply xpath_Ok in Ex as [s [-> ->]].
      destruct (proj1 (IH xs') eq_refl) as [ss [-> ->]].
      exists (s :: ss). auto.
    + intros [ss [H ->]]. destruct ss as [|s ss]; [discriminate|].
      injection H as -> ->. cbn [xpath bind map].
      rewrite (proj2 (IH _) (ex_intro _ ss (conj eq_refl eq_refl))). reflexivity.
Qed.

Lemma xpath_all_Raise (l : list json) (e : exn) : xpath_all l = Raise e -> e = TypeError.
Proof.
  induction l as [|u l IH]; cbn [xpath_all]; [discriminate|].
  destruct (xpath u) as [x|ex] eqn:Ex; cbn [bind].
  - destruct (xpath_all l) as [xs'|ex]; cbn [bind]; [discriminate|].
    intros [= <-]. now apply IH.
  - intros [= <-]. now apply xpath_Raise in Ex.
Qed.

Lemma xml_locator_Raise (md : json) (info : dict) (i : pystr) (e : exn) :
  xml_locator md info i = Raise e -> e = TypeError.
Proof.
  unfold xml_locator.
  destruct (has_key i info && negb (mem_str i ADDR_FIELD_LABEL)).
  - destruct (lookup i info) as [u|]; [| discriminate].
    destruct u; cbn [bind];
      try (destruct (xpath _) as [x|ex] eqn:Ex; cbn [bind]; [discriminate|];
           intros [= <-]; now apply xpath_Raise in Ex).
    destruct (xpath_all l) as [xs|ex] eqn:Ex; cbn [bind]; [discriminate|].
    intros [= <-]. now apply xpath_all_Raise in Ex.
  - destruct (address_locator info i) as [u|]; [| discriminate].
    destruct (xpath u) as [x|ex] eqn:Ex; cbn [bind]; [discriminate|].
    intros [= <-]. now apply xpath_Raise in Ex.
Qed.

Lemma xml_labels_choice (d info : dict) (l : list pystr) (m : dict) :
  structural_rules (JObj d) -> lookup (py "info") d = Some (JObj info) ->
  incl l FIELD_LABEL ->
  label_loop (xml_label (JObj d)) l m =
  label_loop (fun m i => c <- xml_locator (JObj d) info i ;;
                         Ok (match c with Some v => dict_set i v m | None => m end)) l m.
Proof.
  intros R Hinfo Hl. apply label_loop_ext. intros m' i Hi.
  apply (xml_label_choice d info R Hinfo). now apply Hl.
Qed.

Lemma resolved_rows_Forall {R} (resolve : R -> row + exn * json) (P : row -> Prop)
    (records : list R) :
  (forall x r, resolve x = inl r -> P r) -> Forall P (resolved_rows resolve records).
Proof.
  intros H. induction records as [|x l IH]; cbn [resolved_rows]; [constructor|].
  destruct (resolve x) as [r|] eqn:E; constructor; [now apply (H x) | exact IH].
Qed.

Lemma Forall_filter {A} (P : A -> Prop) (f : A -> bool) (l : list A) :
  Forall P l -> Forall P (filter f l).
Proof.
  intros H. apply Forall_forall. intros x Hx. apply filter_In in Hx as [Hx _].
  rewrite Forall_forall in H. now apply H.
Qed.

Section RowLemmas.
Variable bytes_decode : list N -> result pystr.
Variable unicode_lower : pystr -> pystr.
Variable address_parser : pystr -> list (pystr * pystr).

#[local] Abbreviation cells' := (cells bytes_decode unicode_lower address_parser).
#[local] Abbreviation build_row' := (build_row bytes_decode unicode_lower address_parser).


Lemma cells_scalar (get : json -> result pystr) (key : pystr) (loc : json) (v : pystr)
    (r : row) :
  eqb_str key full_addr = false -> is_list loc = false -> eq_lit loc DPIFORCE = false ->
  get loc = Ok v ->
  cells' get key loc r = Ok (r ++ [scrub_text unicode_lower v]).
Proof.
  intros Hk Hl Hd Hg. unfold cells. rewrite Hk, Hl, Hd, Hg. reflexivity.
Qed.


Lemma cells_force_list_csv (e : entity) (key : pystr) (l : list json) (r : row) :
  In key FORCE_LABEL -> cells' (entity_get e) key (JArr l) r = Raise TypeError.
Proof.
  intros H. unfold cells. cbn [is_list].
  rewrite (proj2 (mem_str_In key FORCE_LABEL) H). cbn [andb negb].
  now rewrite (force_label_is_not_full_addr key H).
Qed.

Lemma raising_key_never_resolves (get : json -> result pystr) (tags : dict)
    (key : pystr) (loc : json) (ex : exn) (r : row) :
  In (key, loc) tags -> (forall r, cells' get key loc r = Raise ex) ->
  exists ex' loc', build_row' get tags r = inr (ex', loc').
Proof.
  intros Hin Hr. revert r. induction tags as [|[k l] rest IH]; intros r; [destruct Hin|].
  cbn [build_row]. destruct Hin as [E | Hin].
  - injection E as -> ->. rewrite Hr. eauto.
  - destruct (cells' get k l r) as [r'|ex']; [now apply IH | eauto].
Qed.

Lemma build_row_app (get : json -> result pystr) (tags : dict) (r out : row) :
  Forall2 (fun kv cell => forall r, cells' get (fst kv) (snd kv) r = Ok (r ++ [cell]))
    tags out ->
  build_row' get tags r = inl (r ++ out).
Proof.
  intros H. revert r. induction H as [|[k l] cell tags out Hc _ IH]; intros r.
  - cbn [build_row]. now rewrite app_nil_r.
  - cbn [build_row]. cbn [fst snd] in Hc. rewrite Hc, IH, <- app_assoc. reflexivity.
Qed.


End RowLemmas.


Lemma force_labels_in_address_labels (k : pystr) : In k FORCE_LABEL -> In k ADDR_FIELD_LABEL.
Proof. intros H. now apply mem_str_In, force_labels_are_address_labels. Qed.

Lemma csv_labels_lookup (d info : dict) :
  structural_rules (JObj d) -> lookup (py "info") d = Some (JObj info) ->
  exists tags,
    CSV_labels (JObj d) = Ok tags /\
    forall k, lookup k tags =
              if mem_str k FIELD_LABEL then csv_locator (JObj d) info k else None.
Proof.
  intros R Hinfo. pose proof (csv_label_choice d info R Hinfo) as Hstep.
  destruct (label_loop_choice_total (csv_label (JObj d))
              (fun i => Ok (csv_locator (JObj d) info i)) Hstep FIELD_LABEL [])
    as [tags Ht]; [eauto|].
  exists tags. split; [exact Ht|]. intros k.
  rewrite (label_loop_choice_lookup (csv_label (JObj d))
             (fun i => Ok (csv_locator (JObj d) info i)) Hstep FIELD_LABEL [] tags Ht k).
  cbn [lookup]. destruct (mem_str k FIELD_LABEL); [| reflexivity].
  now destruct (csv_locator (JObj d) info k).
Qed.

Lemma resolved_rows_none {R} (resolve : R -> row + exn * json) (records : list R) :
  (forall x, exists ex loc, resolve x = inr (ex, loc)) -> resolved_rows resolve records = [].
Proof.
  intros H. destruct records as [|x l]; [reflexivity|]. cbn [resolved_rows].
  destruct (H x) as [ex [loc ->]]. reflexivity.
Qed.

(** Rows of a label map of single names. *)
Lemma plain_rows
    (bytes_decode : list N -> result pystr) (unicode_lower : pystr -> pystr)
    (address_parser : pystr -> list (pystr * pystr)) (tags : dict) :
  ~ In full_addr (keys tags) ->
  Forall (fun kv => exists col, snd kv = JStr col /\ col <> DPIFORCE) tags ->
  (forall (e : entity) (vs : list pystr),
     Forall2 (fun kv v => exists col, snd kv = JStr col /\ lookup col e = Some v) tags vs ->
     csv_row bytes_decode unicode_lower address_parser tags e =
     inl (map (scrub_text unicode_lower) vs)) /\
  (forall (element : Type) (find : element -> pystr -> option element)
          (text : element -> option pystr) (e : element),
     xml_row bytes_decode unicode_lower address_parser find text tags e =
     inl (map (fun kv =>
                 match snd kv with
                 | JStr p => scrub_text unicode_lower
                               (_xml_empty_element_handler text (find e p))
                 | _ => []
                 end) tags)).
Proof.
  intros NF Plain.
  assert (Key : forall kv, In kv tags -> eqb_str (fst kv) full_addr = false).
  { intros [k v] Hin. apply eqb_str_neq. intros E. cbn [fst] in E. subst k.
    apply NF. apply in_map_iff. exists (full_addr, v). auto. }
  split.
  - intros e vs H. unfold csv_row.
    rewrite (build_row_app bytes_decode unicode_lower address_parser (entity_get e)
               tags [] (map (scrub_text unicode_lower) vs)); [reflexivity|].
    clear NF. induction H as [|[k loc] v tags vs Hv _ IH]; cbn [map]; constructor.
    + destruct Hv as [col [Hc Hl]]. cbn [fst snd] in *. subst loc. intros r.
      inversion Plain as [|? ? [col' [Hc' Hd]] _]; subst. cbn [snd] in Hc'.
      injection Hc' as <-.
      apply cells_scalar; [apply (Key (k, JStr col)); now left | reflexivity | |].
      * cbn [eq_lit]. now apply eqb_str_neq.
      * cbn [entity_get]. now rewrite Hl.
    + apply IH; [now inversion Plain | intros kv Hin; apply Key; now right].
  - intros element find text e. unfold xml_row.
    rewrite (build_row_app bytes_decode unicode_lower address_parser
               (element_get find text e) tags []
               (map (fun kv =>
                       match snd kv with
                       | JStr p => scrub_text unicode_lower
                                     (_xml_empty_element_handler text (find e p))
                       | _ => []
                       end) tags)); [reflexivity|].
    clear NF. induction tags as [|[k loc] tags IH]; cbn [map]; constructor.
    + inversion Plain as [|? ? [col [Hc Hd]] _]; subst. cbn [fst snd] in *. subst loc.
      intros r.
      apply cells_scalar; [apply (Key (k, JStr col)); now left | reflexivity | |].
      * cbn [eq_lit]. now apply eqb_str_neq.
      * reflexivity.
    + apply IH; [now inversion Plain | intros kv Hin; apply Key; now right].
Qed.

(** ** The three paths *)

(** X1.  The intermediate and clean paths are built from the file name
    without its last extension: for a name [base.ext] whose extension has
    no dot the stem is [base], and a name without a dot is kept whole.  Two
    file names that differ only in the last extension therefore share
    their intermediate path and their clean path. *)
Theorem paths_drop_the_last_extension (base ext : pystr) :
  ~ In 46%N ext ->
  strip_ext (base ++ 46%N :: ext) = base /\
  strip_ext ext = ext /\
  dirty_of (base ++ 46%N :: ext) = py "./pddir/dirty/" ++ base ++ py "-dirty.csv" /\
  clean_of (base ++ 46%N :: ext) = py "./pddir/clean/" ++ base ++ py "-clean.csv" /\
  (forall ext', ~ In 46%N ext' ->
     dirty_of (base ++ 46%N :: ext') = dirty_of (base ++ 46%N :: ext) /\
     clean_of (base ++ 46%N :: ext') = clean_of (base ++ 46%N :: ext)) /\
  (forall md,
     validate md = Ok tt ->
     tag md (py "file") = Some (JStr (base ++ 46%N :: ext)) ->
     rawpath (validated md) = Some (py "./pddir/raw/" ++ base ++ 46%N :: ext) /\
     dirtypath (validated md) = Some (py "./pddir/dirty/" ++ base ++ py "-dirty.csv") /\
     cleanpath (validated md) = Some (py "./pddir/clean/" ++ base ++ py "-clean.csv")).
Proof.
  intros He. split; [now apply strip_ext_dot|]. split; [now apply strip_ext_no_dot|].
  unfold dirty_of, clean_of. rewrite (strip_ext_dot _ _ He).
  split; [reflexivity|]. split; [reflexivity|]. split.
  - intros ext' He'. now rewrite (strip_ext_dot _ _ He').
  - intros md Hv Hf. rewrite (validated_paths _ _ Hv Hf).
    cbn [rawpath dirtypath cleanpath]. unfold raw_of, dirty_of, clean_of.
    now rewrite (strip_ext_dot _ _ He).
Qed.

(** The file name [d.csv] of the sample documents. *)
Lemma paths_of_d_csv :
  strip_ext (py "d.csv") = py "d" /\
  strip_ext (py "csv") = py "csv" /\
  dirty_of (py "d.csv") = py "./pddir/dirty/d-dirty.csv" /\
  clean_of (py "d.csv") = py "./pddir/clean/d-clean.csv" /\
  dirty_of (py "d.xml") = dirty_of (py "d.csv") /\
  dirtypath (validated md_csv_name) = Some (py "./pddir/dirty/d-dirty.csv").
Proof.
  assert (D : forall s, ~ In 46%N (py s) <-> existsb (N.eqb 46) (py s) = false).
  { intros s. rewrite <- not_true_iff_false, existsb_exists. split.
    - intros H [x [Hx E]]. apply N.eqb_eq in E. now subst.
    - intros H Hin. apply H. exists 46%N. split; [exact Hin | reflexivity]. }
  destruct (paths_drop_the_last_extension (py "d") (py "csv")) as [A [B [C [E [F G]]]]];
    [apply D; reflexivity|].
  split; [exact A|]. split; [exact B|]. split; [exact C|]. split; [exact E|]. split.
  - apply (F (py "xml")). apply D. reflexivity.
  - apply (G md_csv_name); vm_compute; reflexivity.
Defined.


(** ** The header row *)

(** X3.  The header row is the keys of the label map, with the first
    [full_addr] replaced in place by the seven address labels in their
    mailing order; without [full_addr] it is the keys themselves.  Its
    length is the number of keys, plus six when [full_addr] is a key. *)
Theorem header_expands_full_addr_in_place (tags : dict) :
  (forall pre post,
     keys tags = pre ++ full_addr :: post -> ~ In full_addr pre ->
     _generateFirstRow tags = pre ++ ADDR_FIELD_LABEL ++ post) /\
  (~ In full_addr (keys tags) -> _generateFirstRow tags = keys tags) /\
  length (_generateFirstRow tags) =
    length tags + (if mem_str full_addr (keys tags) then 6 else 0).
Proof.
  split; [| split].
  - apply generateFirstRow_expand.
  - apply generateFirstRow_plain.
  - apply generateFirstRow_length.
Qed.

(** ** The label map *)

(** X4.  Whatever the order of the tags in the metadata document, the keys
    of the label map of either variant are the standard field names it
    binds, in the order of [FIELD_LABEL] and without repetition: the
    columns of the output come in the standard order. *)
Theorem label_map_keys_follow_FIELD_LABEL (md : json) (tags : dict) :
  CSV_labels md = Ok tags \/ XML_labels md = Ok tags ->
  keys tags = filter (fun i => mem_str i (keys tags)) FIELD_LABEL /\
  NoDup (keys tags) /\
  incl (keys tags) FIELD_LABEL.
Proof.
  intros H.
  assert (K : keys tags = filter (fun i => mem_str i (keys tags)) FIELD_LABEL)
    by (destruct H; [now apply (csv_label_keys md) | now apply (xml_label_keys md)]).
  split; [exact K|]. split; [now apply (label_keys_NoDup md)|].
  intros k Hk. rewrite K in Hk. apply filter_In in Hk as [Hk _]. exact Hk.
Qed.

(** A document that names [full_addr] before [bus_name]. *)
Lemma label_map_keys_sample :
  CSV_labels md_csv_reordered =
    Ok [(py "bus_name", JStr (py "Name")); (py "full_addr", JStr (py "Addr"))] /\
  [py "bus_name"; py "full_addr"] =
    filter (fun i => mem_str i [py "bus_name"; py "full_addr"]) FIELD_LABEL /\
  NoDup [py "bus_name"; py "full_addr"] /\
  incl [py "bus_name"; py "full_addr"] FIELD_LABEL.
Proof.
  split; [vm_compute; reflexivity|].
  apply (label_map_keys_follow_FIELD_LABEL md_csv_reordered
           [(py "bus_name", JStr (py "Name")); (py "full_addr", JStr (py "Addr"))]).
  left. vm_compute. reflexivity.
Defined.

(** X5.  On a validated document the CSV [extract_labels] never raises,
    and the label map binds a field exactly in one of three ways: a
    standard field outside the address vocabulary named in info, to its
    locator there; a key of the address group, to its locator in the
    group; a key of force, to the forced marker. *)
Theorem csv_label_map_of_validated_document (md : json) (info : dict) :
  validate md = Ok tt ->
  tag md (py "info") = Some (JObj info) ->
  exists tags,
    CSV_labels md = Ok tags /\
    CSV_extract_labels (validated md) = (Ok tt, set_label_map (validated md) tags) /\
    forall k v,
      lookup k tags = Some v <->
      (In k FIELD_LABEL /\ ~ In k ADDR_FIELD_LABEL /\ lookup k info = Some v) \/
      (exists ad, address_group info = Some (JObj ad) /\ lookup k ad = Some v) \/
      (exists fd, tag md (py "force") = Some (JObj fd) /\ In k (keys fd) /\
                  v = JStr DPIFORCE).
Proof.
  intros Hv Hinfo. pose proof (validate_rules md Hv) as R.
  destruct md as [ | | | | | d]; try discriminate. cbn [tag] in Hinfo.
  pose proof (csv_label_choice d info R Hinfo) as Hstep.
  destruct (label_loop_choice_total (csv_label (JObj d))
              (fun i => Ok (csv_locator (JObj d) info i)) Hstep FIELD_LABEL [])
    as [tags Ht]; [eauto|].
  exists tags. split; [exact Ht|]. split.
  { unfold CSV_extract_labels. rewrite validated_metadata.
    unfold CSV_labels. now rewrite Ht. }
  intros k v.
  rewrite (label_loop_choice_lookup (csv_label (JObj d))
             (fun i => Ok (csv_locator (JObj d) info i)) Hstep FIELD_LABEL [] tags Ht k).
  cbn [lookup]. unfold csv_locator, address_locator, force_keys. cbn [tag].
  split.
  - destruct (mem_str k FIELD_LABEL) eqn:Ek; [| discriminate].
    apply mem_str_In in Ek.
    destruct (has_key k info && negb (mem_str k ADDR_FIELD_LABEL)) eqn:E1.
    + apply andb_true_iff in E1 as [_ E1]. apply negb_true_iff, mem_str_not_In in E1.
      destruct (lookup k info) as [w|]; [| discriminate].
      intros [= <-]. left. auto.
    + destruct (address_group info) as [a|] eqn:Ea.
      * destruct (rules_address d info R Hinfo a Ea) as [ad [-> _]].
        destruct (lookup k ad) as [w|] eqn:Ew.
        -- intros [= <-]. right; left. eauto.
        -- destruct (lookup (py "force") d) as [f|] eqn:Ef; [| discriminate].
           destruct (rules_force d info R Hinfo f Ef) as [fd [-> _]].
           destruct (mem_str k (keys fd)) eqn:Em; [| discriminate].
           intros [= <-]. right; right. exists fd. apply mem_str_In in Em. auto.
      * destruct (lookup (py "force") d) as [f|] eqn:Ef; [| discriminate].
        destruct (rules_force d info R Hinfo f Ef) as [fd [-> _]].
        destruct (mem_str k (keys fd)) eqn:Em; [| discriminate].
        intros [= <-]. right; right. exists fd. apply mem_str_In in Em. auto.
  - intros [[Hk [Hn Hl]] | [[ad [Ha Hl]] | [fd [Hf [Hk ->]]]]].
    + apply mem_str_In in Hk. apply mem_str_not_In in Hn. rewrite Hk, Hn.
      rewrite has_key_lookup, Hl. reflexivity.
    + destruct (rules_address d info R Hinfo _ Ha) as [ad' [[= <-] Hsub]].
      assert (Hk : In k ADDR_FIELD_LABEL).
      { apply Hsub. apply has_key_In. rewrite has_key_lookup, Hl. reflexivity. }
      rewrite (proj2 (mem_str_In k FIELD_LABEL) (address_labels_are_fields k Hk)).
      rewrite (proj2 (mem_str_In k ADDR_FIELD_LABEL) Hk), andb_false_r.
      now rewrite Ha, Hl.
    + destruct (rules_force d info R Hinfo _ Hf) as [fd' [[= <-] [Hsub Hclash]]].
      pose proof (Hsub k Hk) as HF.
      rewrite (proj2 (mem_str_In k FIELD_LABEL) (force_labels_are_fields k HF)).
      rewrite (force_labels_are_address_labels k HF), andb_false_r.
      rewrite Hf, (proj2 (mem_str_In k (keys fd)) Hk).
      destruct (address_group info) as [a|] eqn:Ea; [| reflexivity].
      destruct (rules_address d info R Hinfo a Ea) as [ad [-> _]].
      destruct (lookup k ad) as [w|] eqn:Ew; [| reflexivity].
      exfalso. apply (Hclash k ad Hk eq_refl).
      apply has_key_In. rewrite has_key_lookup, Ew. reflexivity.
Qed.

(** The sample document with a name, an address group and a forced
    country. *)
Lemma csv_label_map_sample :
  exists tags,
    CSV_labels (JObj doc_ok) = Ok tags /\
    lookup (py "bus_name") tags = Some (JStr (py "Name")) /\
    lookup (py "city") tags = Some (JStr (py "City")) /\
    lookup (py "country") tags = Some (JStr DPIFORCE).
Proof.
  destruct (csv_label_map_of_validated_document (JObj doc_ok) info_ok)
    as [tags [Ht [_ L]]]; [vm_compute; reflexivity | reflexivity |].
  exists tags. split; [exact Ht|]. split; [| split].
  - apply L. left. split; [apply mem_str_In; reflexivity|].
    split; [apply mem_str_not_In; reflexivity | reflexivity].
  - apply L. right; left. exists [(py "city", JStr (py "City"))]. split; reflexivity.
  - apply L. right; right. exists [(py "country", JStr (py "canada"))].
    split; [reflexivity|]. split; [now left | reflexivity].
Defined.

(** X6.  On a validated document the XML [extract_labels] binds the same
    fields as the CSV one, each locator prefixed with [.//]: a string
    locator becomes one search path, a list locator of info the list of
    the search paths of its members, a key of force the forced marker.
    The only exception it can raise is [TypeError], for a locator that is
    not a string. *)
Theorem xml_label_map_of_validated_document (md : json) (info : dict) :
  validate md = Ok tt ->
  tag md (py "info") = Some (JObj info) ->
  (forall tags, XML_labels md = Ok tags ->
     forall k v,
       lookup k tags = Some v <->
       (In k FIELD_LABEL /\ ~ In k ADDR_FIELD_LABEL /\
        exists u, lookup k info = Some u /\
          match u with
          | JArr l => exists xs, xpath_all l = Ok xs /\ v = JArr xs
          | _ => xpath u = Ok v
          end) \/
       (exists ad u, address_group info = Some (JObj ad) /\ lookup k ad = Some u /\
                     xpath u = Ok v) \/
       (exists fd, tag md (py "force") = Some (JObj fd) /\ In k (keys fd) /\
                   v = JStr DPIFORCE)) /\
  (forall e, XML_labels md = Raise e -> e = TypeError) /\
  (forall u v, xpath u = Ok v <-> exists s, u = JStr s /\ v = JStr (py ".//" ++ s)) /\
  (forall l xs, xpath_all l = Ok xs <->
     exists ss, l = map JStr ss /\ xs = map (fun s => JStr (py ".//" ++ s)) ss).
Proof.
  intros Hv Hinfo. pose proof (validate_rules md Hv) as R.
  destruct md as [ | | | | | d]; try discriminate. cbn [tag] in Hinfo.
  split; [| split; [| split; [apply xpath_Ok | apply xpath_all_Ok]]].
  2:{ intros e H. unfold XML_labels in H.
      rewrite (xml_labels_choice d info FIELD_LABEL [] R Hinfo (incl_refl _)) in H.
      destruct (label_loop_choice_raise _ (xml_locator (JObj d) info)
                  (fun m i => eq_refl) FIELD_LABEL [] e H) as [i [_ Hi]].
      now apply xml_locator_Raise in Hi. }
  intros tags Ht k v. unfold XML_labels in Ht.
  rewrite (xml_labels_choice d info FIELD_LABEL [] R Hinfo (incl_refl _)) in Ht.
  pose proof (label_loop_choice_defined _ (xml_locator (JObj d) info)
                (fun m i => eq_refl) FIELD_LABEL [] tags Ht k) as Def.
  rewrite (label_loop_choice_lookup _ (xml_locator (JObj d) info)
             (fun m i => eq_refl) FIELD_LABEL [] tags Ht k).
  cbn [lookup]. clear Ht. unfold xml_locator, address_locator, force_keys in *.
  cbn [tag] in *.
  split.
  - destruct (mem_str k FIELD_LABEL) eqn:Ek; [| discriminate].
    apply mem_str_In in Ek.
    destruct (has_key k info && negb (mem_str k ADDR_FIELD_LABEL)) eqn:E1.
    + apply andb_true_iff in E1 as [_ E1]. apply negb_true_iff, mem_str_not_In in E1.
      destruct (lookup k info) as [u|]; [| discriminate].
      intros H. left. split; [exact Ek|]. split; [exact E1|]. exists u.
      split; [reflexivity|].
      destruct u; try (destruct (xpath _) as [x|ex]; cbn [bind] in H;
                       [now injection H as <- | discriminate]).
      destruct (xpath_all l) as [xs|ex]; cbn [bind] in H; [| discriminate].
      injection H as <-. eauto.
    + destruct (address_group info) as [a|] eqn:Ea.
      * destruct (rules_address d info R Hinfo a Ea) as [ad [-> _]].
        destruct (lookup k ad) as [w|] eqn:Ew.
        -- destruct (xpath w) as [x|ex] eqn:Ex; cbn [bind]; [| discriminate].
           intros [= <-]. right; left. exists ad, w. auto.
        -- destruct (lookup (py "force") d) as [f|] eqn:Ef; [| discriminate].
           destruct (rules_force d info R Hinfo f Ef) as [fd [-> _]].
           destruct (mem_str k (keys fd)) eqn:Em; [| discriminate].
           intros [= <-]. right; right. exists fd. apply mem_str_In in Em. auto.
      * destruct (lookup (py "force") d) as [f|] eqn:Ef; [| discriminate].
        destruct (rules_force d info R Hinfo f Ef) as [fd [-> _]].
        destruct (mem_str k (keys fd)) eqn:Em; [| discriminate].
        intros [= <-]. right; right. exists fd. apply mem_str_In in Em. auto.
  - intros [[Hk [Hn [u [Hl Hu]]]] | [[ad [u [Ha [Hl Hu]]]] | [fd [Hf [Hk ->]]]]].
    + apply mem_str_In in Hk. apply mem_str_not_In in Hn. rewrite Hk, Hn.
      rewrite has_key_lookup, Hl. cbn [negb andb].
      destruct u; try (rewrite Hu; reflexivity).
      destruct Hu as [xs [-> ->]]. reflexivity.
    + destruct (rules_address d info R Hinfo _ Ha) as [ad' [[= <-] Hsub]].
      assert (Hk : In k ADDR_FIELD_LABEL).
      { apply Hsub. apply has_key_In. rewrite has_key_lookup, Hl. reflexivity. }
      rewrite (proj2 (mem_str_In k FIELD_LABEL) (address_labels_are_fields k Hk)).
      rewrite (proj2 (mem_str_In k ADDR_FIELD_LABEL) Hk), andb_false_r.
      now rewrite Ha, Hl, Hu.
    + destruct (rules_force d info R Hinfo _ Hf) as [fd' [[= <-] [Hsub Hclash]]].
      pose proof (Hsub k Hk) as HF.
      rewrite (proj2 (mem_str_In k FIELD_LABEL) (force_labels_are_fields k HF)).
      rewrite (force_labels_are_address_labels k HF), andb_false_r.
      rewrite Hf, (proj2 (mem_str_In k (keys fd)) Hk).
      destruct (address_group info) as [a|] eqn:Ea; [| reflexivity].
      destruct (rules_address d info R Hinfo a Ea) as [ad [-> _]].
      destruct (lookup k ad) as [w|] eqn:Ew; [| reflexivity].
      exfalso. apply (Hclash k ad Hk eq_refl).
      apply has_key_In. rewrite has_key_lookup, Ew. reflexivity.
Qed.

Lemma xml_label_map_sample :
  XML_labels (JObj doc_ok) =
    Ok [(py "bus_name", JStr (py ".//Name")); (py "city", JStr (py ".//City"));
        (py "country", JStr DPIFORCE)] /\
  (lookup (py "city")
     [(py "bus_name", JStr (py ".//Name")); (py "city", JStr (py ".//City"));
      (py "country", JStr DPIFORCE)] = Some (JStr (py ".//City")) <->
   (In (py "city") FIELD_LABEL /\ ~ In (py "city") ADDR_FIELD_LABEL /\
    exists u, lookup (py "city") info_ok = Some u /\
      match u with
      | JArr l => exists xs, xpath_all l = Ok xs /\ JStr (py ".//City") = JArr xs
      | _ => xpath u = Ok (JStr (py ".//City"))
      end) \/
   (exists ad u, address_group info_ok = Some (JObj ad) /\
                 lookup (py "city") ad = Some u /\
                 xpath u = Ok (JStr (py ".//City"))) \/
   (exists fd, tag (JObj doc_ok) (py "force") = Some (JObj fd) /\
               In (py "city") (keys fd) /\ JStr (py ".//City") = JStr DPIFORCE)).
Proof.
  assert (T : XML_labels (JObj doc_ok) =
              Ok [(py "bus_name", JStr (py ".//Name")); (py "city", JStr (py ".//City"));
                  (py "country", JStr DPIFORCE)]) by (vm_compute; reflexivity).
  split; [exact T|].
  destruct (xml_label_map_of_validated_document (JObj doc_ok) info_ok) as [L _];
    [vm_compute; reflexivity | reflexivity |].
  apply (L _ T).
Defined.

(** ** Rows *)

(** X7.  For the label map of either variant, every row a record resolves
    to has exactly as many cells as the header row, with or without
    [full_addr] and the address group: all the rows the transform writes
    under the header have the header's width. *)
Theorem rows_are_as_wide_as_the_header
    (bytes_decode : list N -> result pystr) (unicode_lower : pystr -> pystr)
    (address_parser : pystr -> list (pystr * pystr))
    (element : Type) (find : element -> pystr -> option element)
    (text : element -> option pystr) (md : json) (tags : dict) :
  CSV_labels md = Ok tags \/ XML_labels md = Ok tags ->
  (forall get r,
     build_row bytes_decode unicode_lower address_parser get tags [] = inl r ->
     length r = length (_generateFirstRow tags)) /\
  (forall out entities,
     Forall (fun r => length r = length (_generateFirstRow tags))
       (written_to out
          (fst (csv_records bytes_decode unicode_lower address_parser tags out entities)))) /\
  (forall out elements,
     Forall (fun r => length r = length (_generateFirstRow tags))
       (written_to out
          (fst (xml_records bytes_decode unicode_lower address_parser find text
                  tags out elements)))).
Proof.
  intros H. pose proof (label_keys_NoDup md tags H) as ND.
  assert (W : forall get r,
             build_row bytes_decode unicode_lower address_parser get tags [] = inl r ->
             length r = length (_generateFirstRow tags)).
  { intros get r Hr. rewrite generateFirstRow_length.
    apply (build_row_width bytes_decode unicode_lower address_parser get tags [] r ND Hr). }
  split; [exact W|]. split.
  - intros out entities. rewrite csv_records_written.
    apply Forall_filter, resolved_rows_Forall. intros e r. apply W.
  - intros out elements. rewrite xml_records_written.
    apply Forall_filter, resolved_rows_Forall. intros e r. apply W.
Qed.

(** The label map with [full_addr]: eight columns, eight cells. *)
Lemma rows_width_sample :
  length (_generateFirstRow
            [(py "bus_name", JStr (py "Name")); (py "full_addr", JStr (py "Addr"))]) = 8 /\
  (forall out,
     Forall (fun r => length r =
                      length (_generateFirstRow
                                [(py "bus_name", JStr (py "Name"));
                                 (py "full_addr", JStr (py "Addr"))]))
       (written_to out
          (fst (csv_records sample_decode sample_lower springfield_parser
                  [(py "bus_name", JStr (py "Name")); (py "full_addr", JStr (py "Addr"))]
                  out records_addr)))).
Proof.
  split; [reflexivity|].
  destruct (rows_are_as_wide_as_the_header sample_decode sample_lower springfield_parser
              xml sample_find sample_text md_csv_addr
              [(py "bus_name", JStr (py "Name")); (py "full_addr", JStr (py "Addr"))])
    as [_ [C _]]; [left; vm_compute; reflexivity|].
  intros out. apply C.
Defined.



(** X10.  A list locator inside the address group is not supported.  The
    XML [extract_labels] raises [TypeError] for it, whatever the address
    key.  The CSV one copies it into the label map; for city, prov and
    country the transform then subscripts the record with the list itself
    and raises [TypeError] at every record, so that no data row is
    written. *)
Theorem address_group_list_locator_raises_TypeError
    (bytes_decode : list N -> result pystr) (unicode_lower : pystr -> pystr)
    (address_parser : pystr -> list (pystr * pystr))
    (md : json) (info ad : dict) (k : pystr) (l : list json) :
  validate md = Ok tt ->
  tag md (py "info") = Some (JObj info) ->
  address_group info = Some (JObj ad) ->
  lookup k ad = Some (JArr l) ->
  XML_labels md = Raise TypeError /\
  (In k FORCE_LABEL ->
   exists tags,
     CSV_labels md = Ok tags /\ lookup k tags = Some (JArr l) /\
     (forall e r,
        cells bytes_decode unicode_lower address_parser (entity_get e) k (JArr l) r =
        Raise TypeError) /\
     (forall e, exists ex loc,
        csv_row bytes_decode unicode_lower address_parser tags e = inr (ex, loc)) /\
     (forall out entities,
        written_to out
          (fst (csv_records bytes_decode unicode_lower address_parser tags out entities))
        = [])).
Proof.
  intros Hv Hinfo Ha Hl. pose proof (validate_rules md Hv) as R.
  destruct md as [ | | | | | d]; try discriminate. cbn [tag] in Hinfo.
  destruct (rules_address d info R Hinfo _ Ha) as [ad' [[= <-] Hsub]].
  assert (Hk : In k ADDR_FIELD_LABEL).
  { apply Hsub. apply has_key_In. rewrite has_key_lookup, Hl. reflexivity. }
  assert (Loc : address_locator info k = Some (JArr l))
    by (unfold address_locator; now rewrite Ha).
  assert (Dir : has_key k info && negb (mem_str k ADDR_FIELD_LABEL) = false)
    by (rewrite (proj2 (mem_str_In k ADDR_FIELD_LABEL) Hk); apply andb_false_r).
  split.
  - assert (X : xml_locator (JObj d) info k = Raise TypeError)
      by (unfold xml_locator; rewrite Dir, Loc; reflexivity).
    destruct (XML_labels (JObj d)) as [tags|e] eqn:Ht; unfold XML_labels in Ht;
      rewrite (xml_labels_choice d info FIELD_LABEL [] R Hinfo (incl_refl _)) in Ht.
    + destruct (label_loop_choice_defined _ (xml_locator (JObj d) info)
                  (fun m i => eq_refl) FIELD_LABEL [] tags Ht k
                  (address_labels_are_fields k Hk)) as [c Hc].
      congruence.
    + destruct (label_loop_choice_raise _ (xml_locator (JObj d) info)
                  (fun m i => eq_refl) FIELD_LABEL [] e Ht) as [i [_ Hi]].
      apply xml_locator_Raise in Hi. now subst.
  - intros HF. destruct (csv_labels_lookup d info R Hinfo) as [tags [Ht L]].
    assert (Lk : lookup k tags = Some (JArr l)).
    { rewrite L, (proj2 (mem_str_In k FIELD_LABEL) (address_labels_are_fields k Hk)).
      unfold csv_locator. now rewrite Dir, Loc. }
    assert (Row : forall e, exists ex loc,
               csv_row bytes_decode unicode_lower address_parser tags e = inr (ex, loc)).
    { intros e. unfold csv_row.
      apply (raising_key_never_resolves _ _ _ (entity_get e) tags k (JArr l) TypeError []).
      - now apply lookup_In.
      - intros r. now apply cells_force_list_csv. }
    exists tags. split; [exact Ht|]. split; [exact Lk|]. split; [| split; [exact Row|]].
    + intros e r. now apply cells_force_list_csv.
    + intros out entities. rewrite csv_records_written.
      now rewrite (resolved_rows_none _ entities Row).
Qed.

(** The sample whose city is located by two columns. *)
Lemma address_group_list_sample :
  XML_labels md_csv_city_list = Raise TypeError /\
  CSV_parse sample_decode sample_lower sample_parser sample_decodes
    (prepared_csv md_csv_city_list)
    [[(py "Name", py "Acme"); (py "City", py "Ottawa"); (py "Town", py "Nepean")]] =
  ([Open_w d_temp; Writerow d_temp [py "bus_name"; py "city"]], Raise TypeError).
Proof.
  destruct (address_group_list_locator_raises_TypeError sample_decode sample_lower
              sample_parser md_csv_city_list
              [(py "bus_name", JStr (py "Name"));
               (py "address",
                JObj [(py "city", JArr [JStr (py "City"); JStr (py "Town")])])]
              [(py "city", JArr [JStr (py "City"); JStr (py "Town")])]
              (py "city") [JStr (py "City"); JStr (py "Town")])
    as [A _]; [vm_compute; reflexivity | reflexivity | reflexivity | reflexivity |].
  split; [exact A | vm_compute; reflexivity].
Defined.



(** ** The matcher, one item at a time *)

Lemma match_one (k : cclass) (p : regex) (c : N) (s : pystr) (i : nat) (g : nat * nat) :
  match_here (One k :: p) (c :: s) i g =
  if in_class k c then match_here p s (S i) g else None.
Proof. reflexivity. Qed.

Lemma match_one_nil (k : cclass) (p : regex) (i : nat) (g : nat * nat) :
  match_here (One k :: p) [] i g = None.
Proof. reflexivity. Qed.

Lemma match_many (k : cclass) (p : regex) (c : N) (s : pystr) (i : nat) (g : nat * nat) :
  match_here (Many k :: p) (c :: s) i g =
  if in_class k c then
    match match_here (Many k :: p) s (S i) g with
    | Some r => Some r
    | None => match_here p s (S i) g
    end
  else None.
Proof. reflexivity. Qed.

Lemma match_many_nil (k : cclass) (p : regex) (i : nat) (g : nat * nat) :
  match_here (Many k :: p) [] i g = None.
Proof. reflexivity. Qed.

Lemma match_bos (p : regex) (s : pystr) (i : nat) (g : nat * nat) :
  match_here (Bos :: p) s i g = if Nat.eqb i 0 then match_here p s i g else None.
Proof. reflexivity. Qed.

Lemma match_gopen (p : regex) (s : pystr) (i : nat) (g : nat * nat) :
  match_here (GOpen :: p) s i g = match_here p s i (i, snd g).
Proof. reflexivity. Qed.

Lemma match_gclose (p : regex) (s : pystr) (i : nat) (g : nat * nat) :
  match_here (GClose :: p) s i g = match_here p s i (fst g, i).
Proof. reflexivity. Qed.

Lemma match_eos_nil (p : regex) (i : nat) (g : nat * nat) :
  match_here (Eos :: p) [] i g = match_here p [] i g.
Proof. reflexivity. Qed.

(** [\s+] alone: the whole leading run of whitespace. *)
Lemma many_space_run (s : pystr) (i : nat) (g : nat * nat) :
  match_here [Many Space] s i g =
  match space_run s with
  | 0 => None
  | S n => Some (i + S n, g)
  end.
Proof.
  revert i. induction s as [|c s IH]; intros i; [reflexivity|].
  rewrite match_many. cbn [in_class space_run].
  destruct (is_space c); [| reflexivity].
  rewrite IH. destruct (space_run s) as [|n].
  - cbn [match_here]. f_equal. f_equal. lia.
  - f_equal. f_equal. lia.
Qed.

(** The first substitution is [collapse]. *)
Lemma sub_spaces_collapse (whole s : pystr) (i : nat) :
  sub_scan re_spaces [TLit (py " ")] whole i 0 s = collapse_from false s /\
  sub_scan re_spaces [TLit (py " ")] whole i (space_run s) s = collapse_from true s.
Proof.
  revert i. induction s as [|c s IH]; intros i.
  - split; reflexivity.
  - cbn [space_run collapse_from]. destruct (is_space c) eqn:Ec.
    + split.
      * cbn [sub_scan]. unfold re_spaces. rewrite many_space_run. cbn [space_run].
        rewrite Ec.
        replace (Nat.leb (i + S (space_run s)) i) with false
          by (symmetry; apply Nat.leb_gt; lia).
        replace (i + S (space_run s) - i - 1) with (space_run s) by lia.
        fold re_spaces. rewrite (proj2 (IH (S i))). reflexivity.
      * cbn [sub_scan]. apply (proj2 (IH (S i))).
    + assert (E : sub_scan re_spaces [TLit (py " ")] whole i 0 (c :: s) =
                  c :: collapse_from false s).
      { cbn [sub_scan]. unfold re_spaces. rewrite many_space_run. cbn [space_run].
        rewrite Ec. fold re_spaces. now rewrite (proj1 (IH (S i))). }
      split; exact E.
Qed.

Lemma re_sub_spaces (s : pystr) : re_sub re_spaces [TLit (py " ")] s = collapse s.
Proof. apply sub_spaces_collapse. Qed.

(** ** Strings after the first substitution *)

Section Tidy.
Local Arguments is_space : simpl never.
Local Arguments N.eqb : simpl never.

Lemma collapse_tidy (s : pystr) :
  (forall b, tidy (collapse_from b s) = true) /\
  match collapse_from true s with d :: _ => is_space d | [] => false end = false.
Proof.
  induction s as [|c s [IH1 IH2]]; [split; [intros []|]; reflexivity|].
  cbn [collapse_from]. destruct (is_space c) eqn:Ec.
  - split; [| exact IH2]. intros [|]; [apply IH1|].
    cbn [tidy]. rewrite IH2, IH1. reflexivity.
  - split; [| exact Ec]. intros b. cbn [tidy]. now rewrite Ec, IH1.
Qed.

Lemma tidy_tail (c : N) (t : pystr) : tidy (c :: t) = true -> tidy t = true.
Proof. cbn [tidy]. intros H. now apply andb_true_iff in H. Qed.

Lemma tidy_space (c : N) (t : pystr) :
  tidy t = true -> In c t -> is_space c = true -> c = 32%N.
Proof.
  induction t as [|d t IH]; intros H Hin Hc; [destruct Hin|].
  destruct Hin as [-> | Hin]; [| apply IH; eauto using tidy_tail].
  cbn [tidy] in H. rewrite Hc in H. cbn [negb orb] in H.
  apply andb_true_iff in H as [H _]. apply andb_true_iff in H as [H _].
  now apply N.eqb_eq.
Qed.

Lemma tidy_no_newline (c : N) (t : pystr) : tidy t = true -> In c t -> N.eqb c 10 = false.
Proof.
  intros H Hin. destruct (is_space c) eqn:Ec.
  - now rewrite (tidy_space c t H Hin Ec).
  - now apply newline_is_space.
Qed.

Lemma tidy_next (c d : N) (t : pystr) :
  tidy (c :: d :: t) = true -> is_space c = true -> is_space d = false.
Proof.
  cbn [tidy]. intros H Hc. rewrite Hc in H. cbn [negb orb] in H.
  apply andb_true_iff in H as [H _]. apply andb_true_iff in H as [_ H].
  now apply negb_true_iff in H.
Qed.

Lemma tidy_before_last (p : pystr) (y z : N) :
  tidy (p ++ [y; z]) = true -> is_space z = true -> is_space y = false.
Proof.
  induction p as [|c p IH]; cbn [app]; intros H Hz.
  - destruct (is_space y) eqn:Ey; [| reflexivity].
    rewrite (tidy_next y z [] H Ey) in Hz. discriminate.
  - apply IH; [now apply tidy_tail in H | exact Hz].
Qed.

Lemma tidy_app_l (p q : pystr) : tidy (p ++ q) = true -> tidy p = true.
Proof.
  induction p as [|c p IH]; [reflexivity|]. cbn [app tidy]. intros H.
  apply andb_true_iff in H as [H1 H2]. rewrite (IH H2), andb_true_r.
  destruct (is_space c); [| reflexivity]. cbn [negb orb] in *.
  apply andb_true_iff in H1 as [E H1]. rewrite E. cbn [andb].
  destruct p as [|d p]; [reflexivity | exact H1].
Qed.
End Tidy.

(** ** The scan of [re.sub] *)

(** No match at any position: the text is returned as it is. *)
Lemma sub_scan_unchanged (p : regex) (tpl : list tpl_item) (whole s : pystr) (i : nat) :
  (forall k, k <= length s -> match_here p (skipn k s) (i + k) (0, 0) = None) ->
  sub_scan p tpl whole i 0 s = s.
Proof.
  revert i. induction s as [|c s IH]; intros i H; cbn [sub_scan].
  - specialize (H 0 (Nat.le_refl _)). cbn [skipn] in H.
    rewrite Nat.add_0_r in H. now rewrite H.
  - pose proof (H 0 (Nat.le_0_l _)) as H0. cbn [skipn] in H0.
    rewrite Nat.add_0_r in H0. rewrite H0. f_equal. apply IH.
    intros k Hk. specialize (H (S k)). cbn [skipn length] in H.
    replace (S i + k) with (i + S k) by lia. apply H. lia.
Qed.

(** A pattern anchored at the start matches at position 0 or nowhere. *)
Lemma sub_anchored_no_match (p : regex) (tpl : list tpl_item) (s : pystr) :
  match_here (Bos :: p) s 0 (0, 0) = None -> re_sub (Bos :: p) tpl s = s.
Proof.
  intros H. unfold re_sub. apply sub_scan_unchanged. intros k Hk.
  destruct k as [|k]; [exact H|]. rewrite match_bos. reflexivity.
Qed.

(** The characters covered by a match are skipped. *)
Lemma sub_scan_skip (p : regex) (tpl : list tpl_item) (whole s : pystr) (i : nat) :
  match_here p [] (i + length s) (0, 0) = None ->
  sub_scan p tpl whole i (length s) s = [].
Proof.
  revert i. induction s as [|c s IH]; intros i H; cbn [sub_scan length].
  - cbn [length] in H. rewrite Nat.add_0_r in H. now rewrite H.
  - apply IH. cbn [length] in H. now replace (S i + length s) with (i + S (length s)) by lia.
Qed.

(** A match of the whole text at position 0 whose group is [a, b):
    the result is that slice. *)
Lemma sub_whole_match (p : regex) (c : N) (s : pystr) (a b : nat) :
  match_here p (c :: s) 0 (0, 0) = Some (S (length s), (a, b)) ->
  match_here p [] (S (length s)) (0, 0) = None ->
  re_sub p [TGroup1] (c :: s) = firstn (b - a) (skipn a (c :: s)).
Proof.
  intros H E. unfold re_sub. cbn [sub_scan]. rewrite H. cbn [Nat.leb].
  replace (S (length s) - 0 - 1) with (length s) by lia.
  rewrite sub_scan_skip by exact E.
  cbn [expand flat_map fst snd]. now rewrite !app_nil_r.
Qed.

Section Matches.
Local Arguments is_space : simpl never.
Local Arguments N.eqb : simpl never.

(** [.+] before the end of the group, on text without a newline: all of
    it. *)
Lemma many_dot_all (s : pystr) (i : nat) (g : nat * nat) :
  (forall c, In c s -> N.eqb c 10 = false) -> s <> [] ->
  match_here [Many AnyChar; GClose] s i g =
  Some (i + length s, (fst g, i + length s)).
Proof.
  revert i. induction s as [|c s IH]; intros i H NE; [contradiction|].
  rewrite match_many. cbn [in_class]. rewrite (H c (or_introl eq_refl)). cbn [negb].
  destruct s as [|d s].
  - rewrite match_many_nil, match_gclose. cbn [match_here length fst].
    replace (i + 1) with (S i) by lia. reflexivity.
  - rewrite IH; [| intros x Hx; apply H; now right | discriminate].
    cbn [length]. f_equal. f_equal; [| f_equal]; lia.
Qed.

(** The second substitution where it applies: one whitespace character,
    then at least two characters of which the first is no whitespace. *)
Lemma leading_match (c d e : N) (r : pystr) :
  is_space c = true -> is_space d = false ->
  (forall x, In x (e :: r) -> N.eqb x 10 = false) ->
  re_sub re_leading [TGroup1] (c :: d :: e :: r) = d :: e :: r.
Proof.
  intros Hc Hd H.
  rewrite (sub_whole_match re_leading c (d :: e :: r) 1 (S (length (d :: e :: r)))).
  - cbn [length Nat.sub skipn]. exact (firstn_all (d :: e :: r)).
  - unfold re_leading. rewrite match_bos. cbn [Nat.eqb]. rewrite match_many.
    cbn [in_class]. rewrite Hc, match_many. cbn [in_class]. rewrite Hd.
    rewrite match_gopen, match_one. cbn [in_class]. rewrite Hd. cbn [negb snd].
    rewrite many_dot_all by (auto; discriminate). cbn [length fst]. reflexivity.
  - reflexivity.
Qed.

Lemma leading_no_match_nonspace (c : N) (s : pystr) :
  is_space c = false -> re_sub re_leading [TGroup1] (c :: s) = c :: s.
Proof.
  intros Hc. unfold re_leading. apply sub_anchored_no_match.
  rewrite match_bos. cbn [Nat.eqb]. rewrite match_many. cbn [in_class]. now rewrite Hc.
Qed.

Lemma blank_no_match_nonspace (c : N) (s : pystr) :
  is_space c = false -> re_sub re_blank [] (c :: s) = c :: s.
Proof.
  intros Hc. unfold re_blank. apply sub_anchored_no_match.
  rewrite match_bos. cbn [Nat.eqb]. rewrite match_many. cbn [in_class]. now rewrite Hc.
Qed.

(** *** The third substitution *)

#[local] Abbreviation tail_items := [One NotSpace; GClose; Many Space; Eos].

Lemma match_eos_one (p : regex) (d : N) (i : nat) (g : nat * nat) :
  match_here (Eos :: p) [d] i g = if N.eqb d 10 then match_here p [d] i g else None.
Proof. reflexivity. Qed.

Lemma match_eos_more (p : regex) (d e : N) (r : pystr) (i : nat) (g : nat * nat) :
  match_here (Eos :: p) (d :: e :: r) i g = None.
Proof. reflexivity. Qed.

Lemma ends_visible_tail (c : N) (s : pystr) : ends_visible (c :: s) -> ends_visible s.
Proof.
  intros [H1 H2]. split.
  - intros x Hx. apply H1. now right.
  - intros p z E. apply (H2 (c :: p) z). now rewrite E.
Qed.

Lemma spaces_to_end_none (s : pystr) (i : nat) (g : nat * nat) :
  ends_visible s -> match_here [Many Space; Eos] s i g = None.
Proof.
  revert i. induction s as [|c s IH]; intros i V; [reflexivity|].
  rewrite match_many. cbn [in_class]. destruct (is_space c) eqn:Ec; [| reflexivity].
  rewrite (IH _ (ends_visible_tail _ _ V)).
  destruct s as [|d [|e r]].
  - destruct V as [_ V]. rewrite (V [] c eq_refl) in Ec. discriminate.
  - rewrite match_eos_one. destruct V as [V _].
    now rewrite (V d (or_intror (or_introl eq_refl))).
  - apply match_eos_more.
Qed.

Lemma tail_items_none (s : pystr) (i : nat) (g : nat * nat) :
  ends_visible s -> match_here tail_items s i g = None.
Proof.
  intros V. destruct s as [|c s]; [reflexivity|].
  rewrite match_one. destruct (in_class NotSpace c); [| reflexivity].
  rewrite match_gclose. apply spaces_to_end_none. now apply ends_visible_tail in V.
Qed.

Lemma dots_then_tail_none (s : pystr) (i : nat) (g : nat * nat) :
  ends_visible s -> match_here (Many AnyChar :: tail_items) s i g = None.
Proof.
  revert i. induction s as [|c s IH]; intros i V; [reflexivity|].
  rewrite match_many. destruct (in_class AnyChar c); [| reflexivity].
  pose proof (ends_visible_tail _ _ V) as V'.
  now rewrite (IH _ V'), tail_items_none.
Qed.

Lemma trailing_no_match (s : pystr) :
  ends_visible s -> re_sub re_trailing [TGroup1] s = s.
Proof.
  intros V. unfold re_sub. apply sub_scan_unchanged. intros k Hk.
  unfold re_trailing. rewrite match_gopen. apply dots_then_tail_none.
  destruct V as [V1 V2]. split.
  - intros c Hc. apply V1. rewrite <- (firstn_skipn k s). apply in_or_app. now right.
  - intros p z E. apply (V2 (firstn k s ++ p) z).
    now rewrite <- app_assoc, <- E, firstn_skipn.
Qed.

Lemma dots_then_tail_match (pre : pystr) (x y z : N) (i : nat) (g : nat * nat) :
  (forall c, In c (pre ++ [x; y; z]) -> N.eqb c 10 = false) ->
  is_space y = false -> is_space z = true ->
  match_here (Many AnyChar :: tail_items) (pre ++ [x; y; z]) i g =
  Some (i + length pre + 3, (fst g, i + length pre + 2)).
Proof.
  intros H Hy Hz. revert i. induction pre as [|c pre IH]; intros i.
  - cbn [app length]. cbn [app] in H.
    assert (Nx : N.eqb x 10 = false) by (apply H; now left).
    assert (Ny : N.eqb y 10 = false) by (apply H; right; now left).
    assert (Nz : N.eqb z 10 = false) by (apply H; right; right; now left).
    rewrite match_many. cbn [in_class]. rewrite Nx. cbn [negb].
    rewrite match_many. cbn [in_class]. rewrite Ny. cbn [negb].
    rewrite match_many. cbn [in_class]. rewrite Nz. cbn [negb].
    rewrite match_many_nil, match_one_nil.
    rewrite match_one. cbn [in_class]. rewrite Hz. cbn [negb].
    rewrite match_one. cbn [in_class]. rewrite Hy. cbn [negb].
    rewrite match_gclose, match_many. cbn [in_class]. rewrite Hz.
    rewrite match_many_nil, match_eos_nil. cbn [match_here fst].
    f_equal. f_equal; [| f_equal]; lia.
  - cbn [app length]. rewrite match_many. cbn [in_class].
    rewrite (H c (or_introl eq_refl)). cbn [negb].
    rewrite IH by (intros d Hd; apply H; now right).
    f_equal. f_equal; [| f_equal]; lia.
Qed.

(** The third substitution where it applies: at least two characters, the
    last of them no whitespace, then one whitespace character. *)
Lemma trailing_match (pre : pystr) (x y z : N) :
  (forall c, In c (pre ++ [x; y; z]) -> N.eqb c 10 = false) ->
  is_space y = false -> is_space z = true ->
  re_sub re_trailing [TGroup1] (pre ++ [x; y; z]) = pre ++ [x; y].
Proof.
  intros H Hy Hz.
  assert (L : length (pre ++ [x; y; z]) = length pre + 3)
    by (rewrite length_app; reflexivity).
  destruct (pre ++ [x; y; z]) as [|c s] eqn:E; [cbn [length] in L; lia|].
  rewrite (sub_whole_match re_trailing c s 0 (length pre + 2)).
  - cbn [skipn]. rewrite Nat.sub_0_r, <- E.
    replace (length pre + 2) with (length (pre ++ [x; y])) by (rewrite length_app; reflexivity).
    change [x; y; z] with ([x; y] ++ [z]). rewrite app_assoc.
    rewrite firstn_app, firstn_all, Nat.sub_diag. cbn [firstn]. apply app_nil_r.
  - rewrite <- E. unfold re_trailing. rewrite match_gopen.
    rewrite dots_then_tail_match by (try rewrite E; assumption).
    cbn [length] in L. replace (S (length s)) with (0 + length pre + 3) by lia.
    reflexivity.
  - reflexivity.
Qed.
End Matches.

(** ** The four substitutions together *)

Section NormalForm.
Local Arguments is_space : simpl never.
Local Arguments N.eqb : simpl never.

Lemma strip_trail_snoc (v : pystr) (z : N) :
  strip_trail (v ++ [z]) = if is_space z then v else v ++ [z].
Proof.
  unfold strip_trail. rewrite rev_app_distr. cbn [rev app strip_lead].
  destruct (is_space z); [apply rev_involutive|].
  cbn [rev]. now rewrite rev_involutive.
Qed.

Lemma snoc_cases (u : pystr) : u = [] \/ exists v z, u = v ++ [z].
Proof.
  destruct (rev u) as [|z w] eqn:E.
  - left. apply (f_equal (@rev N)) in E. now rewrite rev_involutive in E.
  - right. exists (rev w), z. apply (f_equal (@rev N)) in E.
    now rewrite rev_involutive in E.
Qed.

(** After the second substitution: a first character that is no
    whitespace, and at least one more. *)
Lemma trail_tidy (a b : N) (r : pystr) :
  tidy (a :: b :: r) = true -> is_space a = false ->
  length (strip_trail (a :: b :: r)) <> 1 ->
  re_sub re_blank [] (re_sub re_trailing [TGroup1] (a :: b :: r)) =
  strip_trail (a :: b :: r).
Proof.
  intros T Ha L.
  destruct (snoc_cases (a :: b :: r)) as [E | [v [z E]]]; [discriminate|].
  rewrite E in L |- *. rewrite strip_trail_snoc in L |- *.
  assert (NL : forall c, In c (v ++ [z]) -> N.eqb c 10 = false).
  { intros c Hc. rewrite <- E in Hc. now apply (tidy_no_newline c _ T). }
  destruct (is_space z) eqn:Ez.
  - destruct (snoc_cases v) as [-> | [v1 [y Ev]]]; [discriminate|].
    destruct (snoc_cases v1) as [-> | [pre [x Ev1]]].
    { subst v. cbn [app length] in L. contradiction. }
    subst v1 v. rewrite <- !app_assoc in *. cbn [app] in *.
    assert (Hy : is_space y = false).
    { apply (tidy_before_last (pre ++ [x]) y z); [| exact Ez].
      rewrite <- app_assoc. cbn [app]. now rewrite <- E. }
    rewrite (trailing_match pre x y z NL Hy Ez).
    destruct pre as [|c pre]; cbn [app] in E |- *; injection E as <- _;
      now apply blank_no_match_nonspace.
  - assert (V : ends_visible (v ++ [z])).
    { split; [exact NL|]. intros p z' Ep. apply app_inj_tail in Ep as [_ <-]. exact Ez. }
    rewrite (trailing_no_match _ V), <- E. now apply blank_no_match_nonspace.
Qed.

Lemma trim_tidy (t : pystr) :
  tidy t = true ->
  length (strip_trail (strip_lead t)) <> 1 ->
  re_sub re_blank [] (re_sub re_trailing [TGroup1] (re_sub re_leading [TGroup1] t)) =
  strip_trail (strip_lead t).
Proof.
  intros T L. destruct t as [|c [|d r]].
  - reflexivity.
  - destruct (is_space c) eqn:Ec.
    + rewrite (tidy_space c [c] T (or_introl eq_refl) Ec). vm_compute. reflexivity.
    + exfalso. apply L. cbn [strip_lead]. rewrite Ec.
      change [c] with ([] ++ [c]). rewrite strip_trail_snoc, Ec. reflexivity.
  - cbn [strip_lead] in *. destruct (is_space c) eqn:Ec.
    + pose proof (tidy_next c d r T Ec) as Ed.
      destruct r as [|e r].
      * exfalso. apply L. change [d] with ([] ++ [d]).
        rewrite strip_trail_snoc, Ed. reflexivity.
      * rewrite (leading_match c d e r Ec Ed).
        -- apply trail_tidy; [now apply tidy_tail in T | exact Ed | exact L].
        -- intros x Hx. apply (tidy_no_newline x _ T). right. now right.
    + rewrite (leading_no_match_nonspace c (d :: r) Ec). now apply trail_tidy.
Qed.

Lemma scrub_normal_form (ul : pystr -> pystr) (s : pystr) :
  length (normalize s) <> 1 -> scrub_text ul s = str_lower ul (normalize s).
Proof.
  intros L. unfold scrub_text. rewrite re_sub_spaces. unfold normalize in *.
  rewrite trim_tidy; [reflexivity | apply collapse_tidy | exact L].
Qed.
End NormalForm.

Section NormalFormFacts.
Local Arguments is_space : simpl never.
Local Arguments N.eqb : simpl never.

Lemma tidy_pair (p q : pystr) (c d : N) :
  tidy (p ++ c :: d :: q) = true -> is_space c = true -> is_space d = false.
Proof.
  induction p as [|x p IH]; cbn [app]; intros T Hc.
  - now apply (tidy_next c d q).
  - apply IH; [now apply tidy_tail in T | exact Hc].
Qed.

Lemma strip_lead_tidy (t : pystr) : tidy t = true -> tidy (strip_lead t) = true.
Proof.
  destruct t as [|c t]; [reflexivity|]. cbn [strip_lead]. intros T.
  destruct (is_space c); [now apply tidy_tail in T | exact T].
Qed.

Lemma strip_trail_tidy (t : pystr) : tidy t = true -> tidy (strip_trail t) = true.
Proof.
  intros T. destruct (snoc_cases t) as [-> | [v [z ->]]]; [reflexivity|].
  rewrite strip_trail_snoc. destruct (is_space z); [now apply tidy_app_l in T | exact T].
Qed.

Lemma normalize_tidy (s : pystr) : tidy (normalize s) = true.
Proof. apply strip_trail_tidy, strip_lead_tidy, collapse_tidy. Qed.

Lemma strip_lead_head (t : pystr) (c : N) (r : pystr) :
  tidy t = true -> strip_lead t = c :: r -> is_space c = false.
Proof.
  destruct t as [|x t]; [discriminate|]. cbn [strip_lead]. intros T.
  destruct (is_space x) eqn:Ex.
  - intros ->. now apply (tidy_next x c r).
  - now intros [= <- <-].
Qed.

Lemma normalize_head (s : pystr) (c : N) (r : pystr) :
  normalize s = c :: r -> is_space c = false.
Proof.
  unfold normalize. pose proof (collapse_tidy s) as [T _]. specialize (T false).
  fold (collapse s) in T. set (u := strip_lead (collapse s)).
  assert (H : forall c r, u = c :: r -> is_space c = false)
    by (intros c' r'; now apply strip_lead_head).
  clearbody u. destruct (snoc_cases u) as [-> | [v [z ->]]]; [discriminate|].
  rewrite strip_trail_snoc. destruct (is_space z).
  - intros E. subst v. now apply (H c (r ++ [z])).
  - apply H.
Qed.

Lemma normalize_last (s : pystr) (p : pystr) (c : N) :
  normalize s = p ++ [c] -> is_space c = false.
Proof.
  unfold normalize. pose proof (collapse_tidy s) as [T _]. specialize (T false).
  fold (collapse s) in T. apply strip_lead_tidy in T.
  set (u := strip_lead (collapse s)) in *. clearbody u.
  destruct (snoc_cases u) as [-> | [v [z ->]]].
  - intros E. destruct p; discriminate.
  - rewrite strip_trail_snoc. destruct (is_space z) eqn:Ez.
    + intros ->. destruct (is_space c) eqn:Ec; [| reflexivity].
      rewrite <- app_assoc in T. cbn [app] in T.
      now rewrite (tidy_pair p [] c z T Ec) in Ez.
    + intros E. apply app_inj_tail in E as [_ <-]. exact Ez.
Qed.

Lemma collapse_visible (b : bool) (s : pystr) :
  filter (fun c => negb (is_space c)) (collapse_from b s) =
  filter (fun c => negb (is_space c)) s.
Proof.
  revert b. induction s as [|c s IH]; intros b; [reflexivity|].
  cbn [collapse_from filter]. destruct (is_space c) eqn:Ec; cbn [negb].
  - destruct b; [apply IH|]. cbn [filter]. rewrite space_is_space. cbn [negb]. apply IH.
  - cbn [filter]. rewrite Ec. cbn [negb]. now rewrite IH.
Qed.

Lemma strip_lead_visible (t : pystr) :
  filter (fun c => negb (is_space c)) (strip_lead t) =
  filter (fun c => negb (is_space c)) t.
Proof.
  destruct t as [|c t]; [reflexivity|]. cbn [strip_lead filter].
  destruct (is_space c) eqn:Ec; cbn [negb filter]; [reflexivity|].
  now rewrite Ec.
Qed.

Lemma normalize_visible (s : pystr) :
  filter (fun c => negb (is_space c)) (normalize s) =
  filter (fun c => negb (is_space c)) s.
Proof.
  unfold normalize, strip_trail.
  rewrite filter_rev, strip_lead_visible, <- filter_rev, rev_involutive.
  rewrite strip_lead_visible. apply collapse_visible.
Qed.
End NormalFormFacts.

Section OneVisible.
Local Arguments is_space : simpl never.
Local Arguments N.eqb : simpl never.

Lemma strip_lead_length (t : pystr) : length t <= S (length (strip_lead t)).
Proof.
  destruct t as [|c t]; [cbn; lia|]. cbn [strip_lead].
  destruct (is_space c); cbn [length]; lia.
Qed.

Lemma strip_trail_length (t : pystr) : length t <= S (length (strip_trail t)).
Proof.
  unfold strip_trail. rewrite length_rev.
  pose proof (strip_lead_length (rev t)) as H. now rewrite length_rev in H.
Qed.

Lemma leading_short (c d : N) :
  is_space c = true -> is_space d = false ->
  re_sub re_leading [TGroup1] [c; d] = [c; d].
Proof.
  intros Hc Hd. unfold re_leading. apply sub_anchored_no_match.
  rewrite match_bos. cbn [Nat.eqb]. rewrite match_many. cbn [in_class].
  rewrite Hc, match_many. cbn [in_class]. rewrite Hd.
  rewrite match_gopen, match_one. cbn [in_class]. rewrite Hd. reflexivity.
Qed.

Lemma blank_short (c d : N) :
  is_space c = true -> is_space d = false ->
  re_sub re_blank [] [c; d] = [c; d].
Proof.
  intros Hc Hd. unfold re_blank. apply sub_anchored_no_match.
  rewrite match_bos. cbn [Nat.eqb]. rewrite match_many. cbn [in_class].
  rewrite Hc, match_many. cbn [in_class]. rewrite Hd.
  rewrite match_eos_one. now rewrite (newline_is_space d Hd).
Qed.

Lemma trailing_short (c d : N) :
  is_space c = false -> is_space d = true -> N.eqb d 10 = false ->
  re_sub re_trailing [TGroup1] [c; d] = [c; d].
Proof.
  intros Hc Hd Nd. unfold re_sub. apply sub_scan_unchanged. intros k Hk.
  unfold re_trailing. rewrite match_gopen.
  assert (D : forall i g, match_here (Many AnyChar :: [One NotSpace; GClose; Many Space; Eos])
                            [d] i g = None).
  { intros i g. rewrite match_many. cbn [in_class]. rewrite Nd. cbn [negb].
    rewrite match_many_nil, match_one_nil. reflexivity. }
  destruct k as [|[|[|k]]]; cbn [skipn].
  - rewrite match_many. cbn [in_class]. rewrite (newline_is_space c Hc). cbn [negb].
    rewrite D, match_one. cbn [in_class]. now rewrite Hd.
  - apply D.
  - reflexivity.
  - cbn [length] in Hk. lia.
Qed.

(** One visible character: what the three last substitutions leave. *)
Lemma trim_tidy_one (t : pystr) :
  tidy t = true ->
  length (strip_trail (strip_lead t)) = 1 ->
  re_sub re_blank [] (re_sub re_trailing [TGroup1] (re_sub re_leading [TGroup1] t)) =
  one_visible_trim t.
Proof.
  intros T L. unfold one_visible_trim. destruct t as [|c [|d [|e [|f r]]]].
  - discriminate.
  - cbn [strip_lead] in L. destruct (is_space c) eqn:Ec; [discriminate|].
    rewrite (leading_no_match_nonspace c [] Ec), trailing_no_match.
    + now apply blank_no_match_nonspace.
    + split.
      * intros x [<- | []]. now apply newline_is_space.
      * intros p z E. change [c] with ([] ++ [c]) in E.
        apply app_inj_tail in E as [_ <-]. exact Ec.
  - cbn [strip_lead] in L. destruct (is_space c) eqn:Ec.
    + pose proof (tidy_next c d [] T Ec) as Ed.
      rewrite (leading_short c d Ec Ed), trailing_no_match.
      * now apply blank_short.
      * split.
        -- intros x Hx. now apply (tidy_no_newline x _ T).
        -- intros p z E. change [c; d] with ([c] ++ [d]) in E.
           apply app_inj_tail in E as [_ <-]. exact Ed.
    + change [c; d] with ([c] ++ [d]) in L. rewrite strip_trail_snoc in L.
      destruct (is_space d) eqn:Ed; [| discriminate].
      rewrite (leading_no_match_nonspace c [d] Ec), (trailing_short c d Ec Ed).
      * now apply blank_no_match_nonspace.
      * apply (tidy_no_newline d _ T). right. now left.
  - cbn [strip_lead] in L. destruct (is_space c) eqn:Ec.
    + pose proof (tidy_next c d [e] T Ec) as Ed.
      change [d; e] with ([d] ++ [e]) in L. rewrite strip_trail_snoc in L.
      destruct (is_space e) eqn:Ee; [| discriminate].
      assert (Ne : N.eqb e 10 = false)
        by (apply (tidy_no_newline e _ T); right; right; now left).
      rewrite (leading_match c d e [] Ec Ed), (trailing_short d e Ed Ee Ne).
      * now apply blank_no_match_nonspace.
      * intros x [<- | []]. exact Ne.
    + pose proof (strip_trail_length [c; d; e]) as H. cbn [length] in H. lia.
  - pose proof (strip_lead_length (c :: d :: e :: f :: r)) as H1.
    pose proof (strip_trail_length (strip_lead (c :: d :: e :: f :: r))) as H2.
    cbn [length] in H1. lia.
Qed.

Lemma scrub_one_visible (ul : pystr -> pystr) (s : pystr) :
  length (normalize s) = 1 ->
  scrub_text ul s = str_lower ul (one_visible_trim (collapse s)).
Proof.
  intros L. unfold scrub_text. rewrite re_sub_spaces. unfold normalize in *.
  rewrite trim_tidy_one; [reflexivity | apply collapse_tidy | exact L].
Qed.
End OneVisible.

(** ** Entries that scrub to the empty string *)

Section Blank.
Local Arguments is_space : simpl never.

Lemma visible_head_none (t : pystr) :
  (forall c r, t = c :: r -> is_space c = false) ->
  filter (fun c => negb (is_space c)) t = [] -> t = [].
Proof.
  destruct t as [|c r]; [reflexivity|]. intros H. cbn [filter].
  now rewrite (H c r eq_refl).
Qed.

Lemma filter_visible_none (s : pystr) :
  filter (fun c => negb (is_space c)) s = [] <-> (forall c, In c s -> is_space c = true).
Proof.
  induction s as [|x s IH]; cbn [filter].
  - split; [intros _ c [] | reflexivity].
  - destruct (is_space x) eqn:Ex; cbn [negb].
    + rewrite IH. split.
      * intros H c [<- | Hc]; auto.
      * intros H c Hc. apply H. now right.
    + split; [discriminate|]. intros H. rewrite (H x (or_introl eq_refl)) in Ex.
      discriminate.
Qed.

Lemma normalize_nil (s : pystr) :
  normalize s = [] <-> (forall c, In c s -> is_space c = true).
Proof.
  rewrite <- filter_visible_none, <- normalize_visible. split.
  - now intros ->.
  - apply visible_head_none, normalize_head.
Qed.

Lemma str_lower_nil (ul : pystr -> pystr) (x : pystr) :
  (forall y, ul y = [] -> y = []) -> str_lower ul x = [] -> x = [].
Proof.
  intros H. unfold str_lower. destruct (forallb is_ascii x).
  - destruct x; [reflexivity | discriminate].
  - apply H.
Qed.

Lemma one_visible_trim_nil (t : pystr) : one_visible_trim t = [] -> t = [].
Proof. destruct t as [|c [|d [|e [|f r]]]]; cbn [one_visible_trim]; congruence. Qed.

Lemma strip_lead_nil_collapse (s : pystr) : collapse s = [] -> normalize s = [].
Proof. unfold normalize. now intros ->. Qed.

(** Whitespace only, and nothing else, scrubs to the empty string. *)
Lemma scrub_text_nil (ul : pystr -> pystr) (s : pystr) :
  ((forall c, In c s -> is_space c = true) -> scrub_text ul s = []) /\
  ((forall y, ul y = [] -> y = []) ->
   scrub_text ul s = [] -> forall c, In c s -> is_space c = true).
Proof.
  split.
  - intros H. apply normalize_nil in H.
    rewrite scrub_normal_form by (rewrite H; discriminate). now rewrite H.
  - intros Hul E. apply normalize_nil.
    destruct (Nat.eq_dec (length (normalize s)) 1) as [L | L].
    + rewrite (scrub_one_visible ul s L) in E.
      apply (str_lower_nil ul _ Hul), one_visible_trim_nil in E.
      now apply strip_lead_nil_collapse.
    + rewrite (scrub_normal_form ul s L) in E. now apply (str_lower_nil ul _ Hul) in E.
Qed.
End Blank.

(** ** Scrubbing what was scrubbed *)

Lemma ascii_lower_idem (c : N) : ascii_lower (ascii_lower c) = ascii_lower c.
Proof.
  unfold ascii_lower.
  destruct ((65 <=? c) && (c <=? 90))%N eqn:E; [| now rewrite E].
  apply andb_true_iff in E as [E1 E2]. apply N.leb_le in E1, E2.
  replace ((65 <=? c + 32) && (c + 32 <=? 90))%N with false; [reflexivity|].
  symmetry. apply andb_false_iff. right. apply N.leb_gt. lia.
Qed.

Lemma letters_are_visible (c : N) : (33 <= c)%N -> (c <= 132)%N -> is_space c = false.
Proof.
  intros H1 H2. unfold is_space.
  replace (c <=? 13)%N with false by (symmetry; apply N.leb_gt; lia).
  replace (c <=? 32)%N with false by (symmetry; apply N.leb_gt; lia).
  replace (8192 <=? c)%N with false by (symmetry; apply N.leb_gt; lia).
  replace (c =? 133)%N with false by (symmetry; apply N.eqb_neq; lia).
  replace (c =? 160)%N with false by (symmetry; apply N.eqb_neq; lia).
  replace (c =? 5760)%N with false by (symmetry; apply N.eqb_neq; lia).
  replace (c =? 8232)%N with false by (symmetry; apply N.eqb_neq; lia).
  replace (c =? 8233)%N with false by (symmetry; apply N.eqb_neq; lia).
  replace (c =? 8239)%N with false by (symmetry; apply N.eqb_neq; lia).
  replace (c =? 8287)%N with false by (symmetry; apply N.eqb_neq; lia).
  replace (c =? 12288)%N with false by (symmetry; apply N.eqb_neq; lia).
  now rewrite !andb_false_r.
Qed.

Lemma ascii_lower_space (c : N) : is_space (ascii_lower c) = is_space c.
Proof.
  unfold ascii_lower.
  destruct ((65 <=? c) && (c <=? 90))%N eqn:E; [| reflexivity].
  apply andb_true_iff in E as [E1 E2]. apply N.leb_le in E1, E2.
  rewrite !letters_are_visible by lia. reflexivity.
Qed.

Lemma ascii_lower_is_32 (c : N) : N.eqb (ascii_lower c) 32 = N.eqb c 32.
Proof.
  unfold ascii_lower.
  destruct ((65 <=? c) && (c <=? 90))%N eqn:E; [| reflexivity].
  apply andb_true_iff in E as [E1 E2]. apply N.leb_le in E1, E2.
  destruct (N.eqb_spec (c + 32) 32), (N.eqb_spec c 32); try reflexivity; lia.
Qed.

Lemma ascii_lower_ascii (c : N) : is_ascii (ascii_lower c) = is_ascii c.
Proof.
  unfold ascii_lower, is_ascii.
  destruct ((65 <=? c) && (c <=? 90))%N eqn:E; [| reflexivity].
  apply andb_true_iff in E as [E1 E2]. apply N.leb_le in E1, E2.
  destruct (N.ltb_spec (c + 32) 128), (N.ltb_spec c 128); try reflexivity; lia.
Qed.

Section Again.
Local Arguments is_space : simpl never.
Local Arguments N.eqb : simpl never.

Lemma lower_tidy (t : pystr) : tidy (map ascii_lower t) = tidy t.
Proof.
  induction t as [|c t IH]; [reflexivity|]. cbn [map tidy].
  rewrite IH, ascii_lower_space, ascii_lower_is_32.
  destruct t as [|d t]; [reflexivity|]. cbn [map]. now rewrite ascii_lower_space.
Qed.

Lemma collapse_of_tidy (t : pystr) :
  tidy t = true ->
  collapse_from false t = t /\
  (match t with d :: _ => is_space d | [] => false end = false -> collapse_from true t = t).
Proof.
  induction t as [|c t IH]; intros T; [split; reflexivity|].
  pose proof (tidy_tail c t T) as T'. destruct (IH T') as [IH1 IH2].
  cbn [collapse_from]. destruct (is_space c) eqn:Ec.
  - split; [| discriminate].
    rewrite (tidy_space c (c :: t) T (or_introl eq_refl) Ec). f_equal. apply IH2.
    destruct t as [|d t]; [reflexivity | now apply (tidy_next c d t)].
  - split; [| intros _]; now rewrite IH1.
Qed.

Lemma strip_lead_visible_head (t : pystr) :
  (forall c r, t = c :: r -> is_space c = false) -> strip_lead t = t.
Proof.
  destruct t as [|c r]; [reflexivity|]. intros H. cbn [strip_lead].
  now rewrite (H c r eq_refl).
Qed.

Lemma strip_trail_visible_last (t : pystr) :
  (forall p c, t = p ++ [c] -> is_space c = false) -> strip_trail t = t.
Proof.
  intros H. destruct (snoc_cases t) as [-> | [v [z ->]]]; [reflexivity|].
  now rewrite strip_trail_snoc, (H v z eq_refl).
Qed.

(** The collapsed strings with one visible character. *)
Lemma one_visible_shapes (t : pystr) :
  tidy t = true -> length (strip_trail (strip_lead t)) = 1 ->
  exists c, is_space c = false /\
    (t = [c] \/ t = [32%N; c] \/ t = [c; 32%N] \/ t = [32%N; c; 32%N]).
Proof.
  intros T L. destruct t as [|c [|d [|e [|f r]]]].
  - discriminate.
  - cbn [strip_lead] in L. destruct (is_space c) eqn:Ec; [discriminate|]. eauto.
  - cbn [strip_lead] in L. destruct (is_space c) eqn:Ec.
    + exists d. split; [now apply (tidy_next c d [])|].
      rewrite (tidy_space c _ T (or_introl eq_refl) Ec). auto.
    + change [c; d] with ([c] ++ [d]) in L. rewrite strip_trail_snoc in L.
      destruct (is_space d) eqn:Ed; [| discriminate].
      exists c. split; [exact Ec|].
      rewrite (tidy_space d _ T (or_intror (or_introl eq_refl)) Ed). auto.
  - cbn [strip_lead] in L. destruct (is_space c) eqn:Ec.
    + change [d; e] with ([d] ++ [e]) in L. rewrite strip_trail_snoc in L.
      destruct (is_space e) eqn:Ee; [| discriminate].
      exists d. split; [now apply (tidy_next c d [e])|].
      rewrite (tidy_space c _ T (or_introl eq_refl) Ec).
      rewrite (tidy_space e _ T (or_intror (or_intror (or_introl eq_refl))) Ee). auto.
    + pose proof (strip_trail_length [c; d; e]) as H. cbn [length] in H. lia.
  - pose proof (strip_lead_length (c :: d :: e :: f :: r)) as H1.
    pose proof (strip_trail_length (strip_lead (c :: d :: e :: f :: r))) as H2.
    cbn [length] in H1. lia.
Qed.
End Again.

Section AgainAscii.
Local Arguments is_space : simpl never.
Local Arguments N.eqb : simpl never.

Lemma collapse_In (b : bool) (s : pystr) (c : N) :
  In c (collapse_from b s) -> c = 32%N \/ In c s.
Proof.
  revert b. induction s as [|x s IH]; intros b; [intros []|].
  cbn [collapse_from]. destruct (is_space x).
  - destruct b; [intros H | intros [<- | H]]; auto;
      destruct (IH _ H); auto; right; now right.
  - intros [<- | H]; [right; now left|]. destruct (IH _ H); auto. right; now right.
Qed.

Lemma strip_lead_In (t : pystr) (c : N) : In c (strip_lead t) -> In c t.
Proof.
  destruct t as [|x t]; [intros []|]. cbn [strip_lead].
  destruct (is_space x); [now right | auto].
Qed.

Lemma strip_trail_In (t : pystr) (c : N) : In c (strip_trail t) -> In c t.
Proof.
  unfold strip_trail. intros H. apply in_rev in H. apply strip_lead_In in H.
  now apply in_rev.
Qed.

Lemma one_visible_trim_In (t : pystr) (c : N) : In c (one_visible_trim t) -> In c t.
Proof.
  destruct t as [|x [|y [|z [|w r]]]]; cbn [one_visible_trim]; auto.
  intros H. now right.
Qed.

Lemma ascii_forallb (s t : pystr) :
  forallb is_ascii s = true -> (forall c, In c t -> c = 32%N \/ In c s) ->
  forallb is_ascii t = true.
Proof.
  intros Hs H. apply forallb_forall. intros c Hc.
  destruct (H c Hc) as [-> | Hin]; [reflexivity|].
  rewrite forallb_forall in Hs. now apply Hs.
Qed.

Lemma str_lower_ascii (ul : pystr -> pystr) (t : pystr) :
  forallb is_ascii t = true ->
  str_lower ul t = map ascii_lower t /\
  forallb is_ascii (map ascii_lower t) = true /\
  str_lower ul (map ascii_lower t) = map ascii_lower t.
Proof.
  intros H. unfold str_lower. rewrite H.
  assert (A : forallb is_ascii (map ascii_lower t) = true).
  { rewrite forallb_forall in *. intros c Hc. apply in_map_iff in Hc as [x [<- Hx]].
    rewrite ascii_lower_ascii. now apply H. }
  rewrite A. split; [reflexivity|]. split; [reflexivity|].
  rewrite map_map. apply map_ext. intros c. apply ascii_lower_idem.
Qed.

(** A tidy ASCII string whose ends are visible is left as it is, but for
    the lower-casing. *)
Lemma scrub_of_normal (ul : pystr -> pystr) (r : pystr) :
  tidy r = true -> length r <> 1 ->
  (forall c q, r = c :: q -> is_space c = false) ->
  (forall p c, r = p ++ [c] -> is_space c = false) ->
  scrub_text ul r = str_lower ul r.
Proof.
  intros T L Hd Hl.
  assert (N : normalize r = r).
  { unfold normalize, collapse. rewrite (proj1 (collapse_of_tidy r T)).
    rewrite (strip_lead_visible_head r Hd). now apply strip_trail_visible_last. }
  rewrite scrub_normal_form; now rewrite N.
Qed.

Lemma scrub_of_one_visible (ul : pystr -> pystr) (r : pystr) (c : N) :
  is_space c = false ->
  r = [c] \/ r = [32%N; c] \/ r = [c; 32%N] ->
  scrub_text ul r = str_lower ul r.
Proof.
  intros Hc Hr.
  assert (E : collapse r = r /\ length (normalize r) = 1 /\ one_visible_trim r = r).
  { unfold normalize, collapse, strip_trail.
    destruct Hr as [-> | [-> | ->]];
      repeat (progress (cbn [collapse_from strip_lead rev app one_visible_trim length];
                        rewrite ?space_is_space, ?Hc));
      auto. }
  destruct E as [E1 [E2 E3]]. rewrite (scrub_one_visible ul r E2). now rewrite E1, E3.
Qed.

Lemma map_head_visible (t : pystr) :
  (forall c q, t = c :: q -> is_space c = false) ->
  forall c q, map ascii_lower t = c :: q -> is_space c = false.
Proof.
  intros H c q E. destruct t as [|x t]; [discriminate|]. injection E as <- _.
  rewrite ascii_lower_space. now apply (H x t).
Qed.

Lemma map_last_visible (t : pystr) :
  (forall p c, t = p ++ [c] -> is_space c = false) ->
  forall p c, map ascii_lower t = p ++ [c] -> is_space c = false.
Proof.
  intros H p c E. destruct (snoc_cases t) as [-> | [v [z ->]]].
  - destruct p; discriminate.
  - rewrite map_app in E. cbn [map] in E. apply app_inj_tail in E as [_ <-].
    rewrite ascii_lower_space. now apply (H v z).
Qed.

Lemma scrub_text_idempotent (ul : pystr -> pystr) (s : pystr) :
  forallb is_ascii s = true ->
  scrub_text ul (scrub_text ul s) = scrub_text ul s.
Proof.
  intros A. pose proof (collapse_tidy s) as [T _]. specialize (T false).
  fold (collapse s) in T.
  destruct (Nat.eq_dec (length (normalize s)) 1) as [L | L].
  - rewrite (scrub_one_visible ul s L).
    destruct (one_visible_shapes (collapse s) T L) as [c [Hc Sh]].
    assert (AX : forallb is_ascii (one_visible_trim (collapse s)) = true).
    { apply (ascii_forallb s); [exact A|]. intros x Hx.
      apply one_visible_trim_In in Hx. now apply collapse_In in Hx. }
    destruct (str_lower_ascii ul _ AX) as [E1 [_ E3]]. rewrite E1.
    rewrite (scrub_of_one_visible ul _ (ascii_lower c)); [exact E3 | |].
    + now rewrite ascii_lower_space.
    + destruct Sh as [-> | [-> | [-> | ->]]]; cbn [one_visible_trim map]; auto.
  - rewrite (scrub_normal_form ul s L).
    assert (AX : forallb is_ascii (normalize s) = true).
    { apply (ascii_forallb s); [exact A|]. intros x Hx.
      apply strip_trail_In, strip_lead_In in Hx. now apply collapse_In in Hx. }
    destruct (str_lower_ascii ul _ AX) as [E1 [_ E3]]. rewrite E1.
    rewrite scrub_of_normal; [exact E3 | | | |].
    + rewrite lower_tidy. apply normalize_tidy.
    + now rewrite length_map.
    + apply map_head_visible, normalize_head.
    + apply map_last_visible, normalize_last.
Qed.
End AgainAscii.

Lemma scrub_text_ascii (ul : pystr -> pystr) (s : pystr) :
  forallb is_ascii s = true ->
  exists x, forallb is_ascii x = true /\ scrub_text ul s = map ascii_lower x.
Proof.
  intros A. destruct (Nat.eq_dec (length (normalize s)) 1) as [L | L].
  - rewrite (scrub_one_visible ul s L).
    assert (AX : forallb is_ascii (one_visible_trim (collapse s)) = true).
    { apply (ascii_forallb s); [exact A|]. intros x Hx.
      apply one_visible_trim_In in Hx. now apply collapse_In in Hx. }
    exists (one_visible_trim (collapse s)). split; [exact AX|].
    apply (str_lower_ascii ul _ AX).
  - rewrite (scrub_normal_form ul s L).
    assert (AX : forallb is_ascii (normalize s) = true).
    { apply (ascii_forallb s); [exact A|]. intros x Hx.
      apply strip_trail_In, strip_lead_In in Hx. now apply collapse_In in Hx. }
    exists (normalize s). split; [exact AX|]. apply (str_lower_ascii ul _ AX).
Qed.

(** ** [_quick_scrub], on every entry *)

(** X11.  [_quick_scrub] on any text: the words of the entry (its maximal
    runs of characters that are no whitespace) joined by single spaces,
    without leading or trailing whitespace, then lower-cased; except when
    the entry has exactly one visible character, where whitespace after it
    survives as one trailing space, and whitespace before it as one leading
    space when nothing follows the character.  The joined form keeps the
    visible characters of the entry in order, has no whitespace but single
    spaces between them, and none at either end.  A [bytes] entry is
    decoded first. *)
Theorem quick_scrub_joins_words_with_single_spaces
    (bytes_decode : list N -> result pystr) (unicode_lower : pystr -> pystr) (s : pystr) :
  scrub_text unicode_lower s =
    str_lower unicode_lower
      (if Nat.eqb (length (normalize s)) 1 then one_visible_trim (collapse s)
       else normalize s) /\
  _quick_scrub bytes_decode unicode_lower (VStr s) = Ok (scrub_text unicode_lower s) /\
  (forall b, _quick_scrub bytes_decode unicode_lower (VBytes b) =
             (entry <- bytes_decode b ;; Ok (scrub_text unicode_lower entry))) /\
  filter (fun c => negb (is_space c)) (normalize s) =
    filter (fun c => negb (is_space c)) s /\
  (forall c, In c (normalize s) -> is_space c = true -> c = 32%N) /\
  (forall p q c d, normalize s = p ++ c :: d :: q ->
                   is_space c = true -> is_space d = false) /\
  (forall c r, normalize s = c :: r -> is_space c = false) /\
  (forall p c, normalize s = p ++ [c] -> is_space c = false).
Proof.
  split; [| split; [reflexivity | split; [reflexivity|]]].
  - destruct (Nat.eqb (length (normalize s)) 1) eqn:E.
    + apply Nat.eqb_eq in E. now apply scrub_one_visible.
    + apply Nat.eqb_neq in E. now apply scrub_normal_form.
  - split; [apply normalize_visible|]. split; [| split; [| split]].
    + intros c. apply tidy_space, normalize_tidy.
    + intros p q c d E. apply (tidy_pair p q). rewrite <- E. apply normalize_tidy.
    + apply normalize_head.
    + apply normalize_last.
Qed.

Example quick_scrub_of_a_name :
  scrub_text sample_lower (9 :: py " Acme  " ++ 10 :: 9 :: py "Trading Co. " ++ [10])%N =
  py "acme trading co.".
Proof. vm_compute. reflexivity. Qed.

(** X12.  Which records are dropped.  An entry scrubs to the empty string
    when it is whitespace only, and (lower-casing never emptying a string)
    only then.  So, for a label map of single names without [full_addr], a
    CSV record that has the located columns resolves to an all-empty row,
    and writes nothing, exactly when every located value is empty or
    whitespace only. *)
Theorem blank_records_are_dropped
    (bytes_decode : list N -> result pystr) (unicode_lower : pystr -> pystr)
    (address_parser : pystr -> list (pystr * pystr)) (tags : dict)
    (e : entity) (vs : list pystr) :
  (forall y, unicode_lower y = [] -> y = []) ->
  ~ In full_addr (keys tags) ->
  Forall (fun kv => exists col, snd kv = JStr col /\ col <> DPIFORCE) tags ->
  Forall2 (fun kv v => exists col, snd kv = JStr col /\ lookup col e = Some v) tags vs ->
  (forall s, scrub_text unicode_lower s = [] <-> (forall c, In c s -> is_space c = true)) /\
  (_isRowEmpty (map (scrub_text unicode_lower) vs) = true <->
   Forall (fun v => forall c, In c v -> is_space c = true) vs) /\
  (forall out,
     csv_records bytes_decode unicode_lower address_parser tags out [e] =
     (if _isRowEmpty (map (scrub_text unicode_lower) vs) then []
      else [Writerow out (map (scrub_text unicode_lower) vs)], Ok tt)).
Proof.
  intros Hul NF Plain Hvs.
  assert (S : forall s, scrub_text unicode_lower s = [] <->
                        (forall c, In c s -> is_space c = true)).
  { intros s. destruct (scrub_text_nil unicode_lower s) as [A B]. split; auto. }
  split; [exact S|]. split.
  - rewrite isRowEmpty_all_empty. unfold all_empty. rewrite Forall_map.
    split; intros H; (eapply Forall_impl; [| exact H]); intros v Hv; now apply S.
  - intros out. cbn [csv_records].
    destruct (plain_rows bytes_decode unicode_lower address_parser tags NF Plain) as [C _].
    rewrite (C e vs Hvs).
    now destruct (_isRowEmpty (map (scrub_text unicode_lower) vs)).
Qed.

Lemma blank_record_sample :
  csv_records sample_decode sample_lower sample_parser
    [(py "bus_name", JStr (py "Name")); (py "city", JStr (py "Town"))] d_temp
    [[(py "Name", 9%N :: py "  "); (py "Town", [])]] = ([], Ok tt).
Proof.
  destruct (blank_records_are_dropped sample_decode sample_lower sample_parser
              [(py "bus_name", JStr (py "Name")); (py "city", JStr (py "Town"))]
              [(py "Name", 9%N :: py "  "); (py "Town", [])] [9%N :: py "  "; []])
    as [_ [_ C]].
  - intros y H. exact H.
  - intros H. apply mem_str_In in H. vm_compute in H. discriminate.
  - repeat constructor.
    + exists (py "Name"). split; [reflexivity|]. intros E. vm_compute in E. discriminate.
    + exists (py "Town"). split; [reflexivity|]. intros E. vm_compute in E. discriminate.
  - repeat constructor.
    + exists (py "Name"). split; reflexivity.
    + exists (py "Town"). split; reflexivity.
  - apply (C d_temp).
Defined.

(** X13.  On ASCII text [_quick_scrub] is idempotent: scrubbing an entry
    that was scrubbed returns it unchanged.  Its result is ASCII and has
    no upper-case letter. *)
Theorem quick_scrub_is_idempotent_on_ascii
    (bytes_decode : list N -> result pystr) (unicode_lower : pystr -> pystr) (s : pystr) :
  forallb is_ascii s = true ->
  scrub_text unicode_lower (scrub_text unicode_lower s) = scrub_text unicode_lower s /\
  (entry <- _quick_scrub bytes_decode unicode_lower (VStr s) ;;
   _quick_scrub bytes_decode unicode_lower (VStr entry)) =
    _quick_scrub bytes_decode unicode_lower (VStr s) /\
  forallb is_ascii (scrub_text unicode_lower s) = true /\
  (forall c, In c (scrub_text unicode_lower s) -> ascii_lower c = c).
Proof.
  intros A. pose proof (scrub_text_idempotent unicode_lower s A) as I.
  split; [exact I|]. split.
  - unfold _quick_scrub. cbn [bind]. now rewrite I.
  - destruct (scrub_text_ascii unicode_lower s A) as [x [Ax ->]]. split.
    + apply (str_lower_ascii unicode_lower x Ax).
    + intros c Hc. apply in_map_iff in Hc as [y [<- _]]. apply ascii_lower_idem.
Qed.

Lemma quick_scrub_twice_sample :
  scrub_text sample_lower (scrub_text sample_lower (py "  Acme   Co  ")) =
  scrub_text sample_lower (py "  Acme   Co  ") /\
  scrub_text sample_lower (py "  Acme   Co  ") = py "acme co".
Proof.
  destruct (quick_scrub_is_idempotent_on_ascii sample_decode sample_lower
              (py "  Acme   Co  ")) as [I _]; [reflexivity|].
  split; [exact I | vm_compute; reflexivity].
Defined.

(** ** Records of [csv.DictReader] *)

Lemma lookup_field_set (k i : pystr) (v : option pystr) (m : list (pystr * option pystr)) :
  lookup k (field_set i v m) = if eqb_str k i then Some v else lookup k m.
Proof.
  induction m as [|[k' v'] m IH]; cbn [field_set lookup].
  - reflexivity.
  - destruct (eqb_str i k') eqn:E; cbn [lookup].
    + apply eqb_str_eq in E. subst k'. now destruct (eqb_str k i).
    + rewrite IH. destruct (eqb_str k k') eqn:E'; [| reflexivity].
      apply eqb_str_eq in E'. subst k'.
      rewrite eqb_str_sym in E. now rewrite E.
Qed.

(** [dict(zip(fieldnames, row))] for field names without repetition. *)
Lemma lookup_zip (k : pystr) (l : list (pystr * pystr)) (m : list (pystr * option pystr)) :
  NoDup (map fst l) ->
  lookup k (fold_left (fun d kv => field_set (fst kv) (Some (snd kv)) d) l m) =
  match lookup k l with
  | Some v => Some (Some v)
  | None => lookup k m
  end.
Proof.
  revert m. induction l as [|[i v] l IH]; intros m ND; [reflexivity|].
  cbn [map fst] in ND. inversion ND as [|? ? Hi ND']; subst.
  cbn [fold_left fst snd lookup]. rewrite (IH _ ND'), lookup_field_set.
  destruct (eqb_str k i) eqn:E; [| reflexivity].
  apply eqb_str_eq in E. subst k.
  replace (lookup i l) with (@None pystr); [reflexivity|].
  symmetry. apply has_key_false. apply mem_str_not_In. exact Hi.
Qed.

Lemma lookup_fill (k : pystr) (ks : list pystr) (m : list (pystr * option pystr)) :
  lookup k (fold_left (fun d key => field_set key None d) ks m) =
  if mem_str k ks then Some None else lookup k m.
Proof.
  revert m. induction ks as [|i ks IH]; intros m; [reflexivity|].
  cbn [fold_left]. rewrite IH, lookup_field_set, mem_str_cons.
  destruct (eqb_str k i); cbn [orb]; [now destruct (mem_str k ks) | reflexivity].
Qed.

Lemma lookup_combine (k : pystr) (h r : row) :
  lookup k (combine h r) =
  match list_index k h with
  | Some j => nth_error r j
  | None => None
  end.
Proof.
  revert r. induction h as [|x h IH]; intros r; [reflexivity|].
  destruct r as [|c r]; cbn [combine lookup list_index].
  - destruct (eqb_str x k); [reflexivity|]. now destruct (list_index k h).
  - rewrite (eqb_str_sym k x). destruct (eqb_str x k); [reflexivity|].
    rewrite IH. now destruct (list_index k h).
Qed.

Lemma combine_keys_NoDup (h r : row) : NoDup h -> NoDup (map fst (combine h r)).
Proof.
  revert r. induction h as [|x h IH]; intros r ND; [constructor|].
  destruct r as [|c r]; [constructor|]. inversion ND as [|? ? Hx ND']; subst.
  cbn [combine map fst]. constructor; [| now apply IH].
  intros Hin. apply Hx. apply in_map_iff in Hin as [[a b] [E Hab]].
  cbn [fst] in E. subst a. now apply in_combine_l in Hab.
Qed.

Lemma list_index_Some (k : pystr) (l : list pystr) (j : nat) :
  list_index k l = Some j -> nth_error l j = Some k /\ j < length l.
Proof.
  revert j. induction l as [|x l IH]; intros j; cbn [list_index]; [discriminate|].
  destruct (eqb_str x k) eqn:E.
  - intros [= <-]. apply eqb_str_eq in E. subst. split; [reflexivity | cbn; lia].
  - destruct (list_index k l) as [n|]; [| discriminate].
    intros [= <-]. destruct (IH n eq_refl). split; [assumption | cbn; lia].
Qed.

Lemma list_index_None (k : pystr) (l : list pystr) : list_index k l = None -> ~ In k l.
Proof.
  induction l as [|x l IH]; cbn [list_index]; [intros _ []|].
  destruct (eqb_str x k) eqn:E; [discriminate|].
  destruct (list_index k l); [discriminate|].
  intros _ [-> | H]; [now rewrite eqb_str_refl in E | now apply IH].
Qed.

Lemma NoDup_nth_skipn (l : list pystr) (k : pystr) (j n : nat) :
  NoDup l -> nth_error l j = Some k -> (In k (skipn n l) <-> n <= j).
Proof.
  intros ND Hj. split.
  - intros Hin. apply In_nth_error in Hin as [i Hi].
    rewrite nth_error_skipn in Hi.
    assert (E : n + i = j).
    { apply (proj1 (NoDup_nth_error l) ND).
      - apply nth_error_Some. now rewrite Hi.
      - now rewrite Hi, Hj. }
    lia.
  - intros Hle. apply (nth_error_In _ (j - n)). rewrite nth_error_skipn.
    now replace (n + (j - n)) with j by lia.
Qed.

(** The record of one row, read by field name. *)
Lemma DictReader_record_lookup (h r : row) (k : pystr) :
  NoDup h ->
  lookup k (rec_fields (DictReader_record h r)) =
  match list_index k h with
  | Some j => Some (nth_error r j)
  | None => None
  end.
Proof.
  intros ND. unfold DictReader_record.
  assert (Z : lookup k (fold_left (fun d kv => field_set (fst kv) (Some (snd kv)) d)
                          (combine h r) []) =
              match list_index k h with
              | Some j => match nth_error r j with Some v => Some (Some v) | None => None end
              | None => None
              end).
  { rewrite lookup_zip by now apply combine_keys_NoDup.
    rewrite lookup_combine. cbn [lookup].
    destruct (list_index k h) as [j|]; [| reflexivity]. now destruct (nth_error r j). }
  destruct (length h <? length r) eqn:E1; cbn [rec_fields].
  - apply Nat.ltb_lt in E1. rewrite Z.
    destruct (list_index k h) as [j|] eqn:Ej; [| reflexivity].
    apply list_index_Some in Ej as [_ Hj].
    destruct (nth_error r j) eqn:En; [reflexivity|].
    apply nth_error_None in En. lia.
  - destruct (length r <? length h) eqn:E2; cbn [rec_fields].
    + rewrite lookup_fill, Z.
      destruct (list_index k h) as [j|] eqn:Ej.
      * apply list_index_Some in Ej as [Hk Hj].
        destruct (mem_str k (skipn (length r) h)) eqn:Em.
        -- apply mem_str_In, (NoDup_nth_skipn h k j _ ND Hk) in Em.
           now rewrite (proj2 (nth_error_None r j) Em).
        -- apply mem_str_not_In in Em.
           rewrite (NoDup_nth_skipn h k j _ ND Hk) in Em.
           destruct (nth_error r j) eqn:En; [reflexivity|].
           apply nth_error_None in En. lia.
      * apply list_index_None in Ej.
        replace (mem_str k (skipn (length r) h)) with false; [reflexivity|].
        symmetry. apply mem_str_not_In. intros Hin. apply Ej.
        rewrite <- (firstn_skipn (length r) h). apply in_or_app. now right.
    + rewrite Z. apply Nat.ltb_ge in E1, E2.
      destruct (list_index k h) as [j|] eqn:Ej; [| reflexivity].
      apply list_index_Some in Ej as [_ Hj].
      destruct (nth_error r j) eqn:En; [reflexivity|].
      apply nth_error_None in En. lia.
Qed.

(** ** [blank_fill] *)

Lemma LABELS_NoDup : NoDup LABELS.
Proof. apply NoDup_filter, FIELD_LABEL_NoDup. Qed.

(** The row written for a record, for field names without repetition. *)
Lemma row2write_cells (h r : row) :
  NoDup h ->
  row2write (DictReader_record h r) =
  map (fun col => match list_index col h with
                  | Some j => nth j r []
                  | None => []
                  end) LABELS.
Proof.
  intros ND. unfold row2write. apply map_ext. intros col.
  rewrite has_key_lookup, (DictReader_record_lookup h r col ND).
  destruct (list_index col h) as [j|]; [| reflexivity]. cbn [negb].
  destruct (nth_error r j) as [v|] eqn:En.
  - now rewrite (nth_error_nth _ _ _ En).
  - apply nth_error_None in En. now rewrite nth_overflow.
Qed.

Lemma list_index_nth (l : list pystr) (j : nat) (k : pystr) :
  NoDup l -> nth_error l j = Some k -> list_index k l = Some j.
Proof.
  intros ND Hj. destruct (list_index k l) as [i|] eqn:E.
  - apply list_index_Some in E as [Hi Hlt]. f_equal.
    apply (proj1 (NoDup_nth_error l) ND); [exact Hlt | now rewrite Hi, Hj].
  - apply list_index_None in E. exfalso. apply E. now apply nth_error_In in Hj.
Qed.

Lemma map_by_index (l : list pystr) (r : row) :
  NoDup l -> length r = length l ->
  map (fun col => match list_index col l with
                  | Some j => nth j r []
                  | None => []
                  end) l = r.
Proof.
  intros ND L. apply nth_error_ext. intros j. rewrite nth_error_map.
  destruct (nth_error l j) as [k|] eqn:E; cbn [option_map].
  - rewrite (list_index_nth l j k ND E). symmetry. apply nth_error_nth'.
    rewrite L. apply nth_error_Some. now rewrite E.
  - symmetry. apply nth_error_None. rewrite L. now apply nth_error_None.
Qed.

Lemma row2write_length (d : record) : length (row2write d) = length LABELS.
Proof. unfold row2write. apply length_map. Qed.



(** The rows [blank_fill] writes, read again: the same records. *)
Lemma row2write_fixed (r : row) :
  length r = length LABELS -> row2write (DictReader_record LABELS r) = r.
Proof.
  intros L. rewrite row2write_cells by apply LABELS_NoDup.
  now apply map_by_index; [apply LABELS_NoDup|].
Qed.

Lemma blank_fill_rows_fixed (rows : list row) :
  Forall (fun r => length r = length LABELS) rows ->
  map row2write (DictReader (LABELS :: rows)) = rows.
Proof.
  intros H. cbn [DictReader].
  induction H as [|r rows Hr _ IH]; [reflexivity|].
  cbn [filter]. destruct r as [|c r]; [discriminate|].
  cbn [map]. rewrite (row2write_fixed _ Hr). f_equal. exact IH.
Qed.

(** ** The header of a transform, read by [blank_fill] *)

(** Where a key of the label map comes from. *)
Lemma label_key_source (d info tags : dict) (k : pystr) :
  structural_rules (JObj d) -> lookup (py "info") d = Some (JObj info) ->
  CSV_labels (JObj d) = Ok tags \/ XML_labels (JObj d) = Ok tags ->
  In k (keys tags) ->
  In k FIELD_LABEL /\
  ((has_key k info = true /\ ~ In k ADDR_FIELD_LABEL) \/
   (In k ADDR_FIELD_LABEL /\
    (address_locator info k <> None \/ In k (force_keys (JObj d))))).
Proof.
  intros R Hinfo Ht Hk. apply has_key_In in Hk. rewrite has_key_lookup in Hk.
  assert (L : lookup k tags =
              (if mem_str k FIELD_LABEL
               then match xml_locator (JObj d) info k with
                    | Ok (Some v) => Some v
                    | _ => None
                    end
               else None) \/
              lookup k tags =
              (if mem_str k FIELD_LABEL then csv_locator (JObj d) info k else None)).
  { destruct Ht as [Ht | Ht].
    - right. destruct (csv_labels_lookup d info R Hinfo) as [tags' [Ht' L]].
      rewrite Ht in Ht'. injection Ht' as <-. apply L.
    - left. unfold XML_labels in Ht.
      rewrite (xml_labels_choice d info FIELD_LABEL [] R Hinfo (incl_refl _)) in Ht.
      apply (label_loop_choice_lookup _ (xml_locator (JObj d) info)
               (fun m i => eq_refl) FIELD_LABEL [] tags Ht k). }
  assert (F : mem_str k FIELD_LABEL = true).
  { destruct (mem_str k FIELD_LABEL); [reflexivity|].
    destruct L as [L | L]; rewrite L in Hk; discriminate. }
  split; [now apply mem_str_In|]. rewrite F in L.
  unfold csv_locator, xml_locator in L.
  destruct (has_key k info && negb (mem_str k ADDR_FIELD_LABEL)) eqn:E1.
  - apply andb_true_iff in E1 as [Hi Hn]. apply negb_true_iff, mem_str_not_In in Hn.
    now left.
  - assert (A : In k ADDR_FIELD_LABEL \/ has_key k info = false).
    { apply andb_false_iff in E1 as [E1 | E1]; [now right|].
      apply negb_false_iff, mem_str_In in E1. now left. }
    destruct (address_locator info k) as [u|] eqn:Ea.
    + right. split; [| left; discriminate].
      unfold address_locator in Ea.
      destruct (address_group info) as [a|] eqn:Eg; [| discriminate].
      destruct (rules_address d info R Hinfo a Eg) as [ad [-> Hsub]].
      apply Hsub. apply has_key_In. rewrite has_key_lookup, Ea. reflexivity.
    + destruct (mem_str k (force_keys (JObj d))) eqn:Ef.
      * apply mem_str_In in Ef. right. split; [| now right].
        unfold force_keys in Ef. cbn [tag] in Ef.
        destruct (lookup (py "force") d) as [f|] eqn:Efo; [| destruct Ef].
        destruct (rules_force d info R Hinfo f Efo) as [fd [-> [Hsub _]]].
        now apply force_labels_in_address_labels, Hsub.
      * destruct L as [L | L]; rewrite L in Hk; discriminate.
Qed.

Lemma LABELS_In (k : pystr) : In k LABELS <-> In k FIELD_LABEL /\ k <> full_addr.
Proof.
  unfold LABELS. rewrite filter_In. split; intros [H1 H2]; split; auto.
  - apply negb_true_iff, eqb_str_neq in H2. exact H2.
  - now apply negb_true_iff, eqb_str_neq.
Qed.

Lemma ADDR_FIELD_LABEL_NoDup : NoDup ADDR_FIELD_LABEL.
Proof. apply nodupb_NoDup. reflexivity. Qed.

Lemma first_occurrence (x : pystr) (l : list pystr) :
  In x l -> exists pre post, l = pre ++ x :: post /\ ~ In x pre.
Proof.
  induction l as [|k l IH]; [intros []|]. intros H.
  destruct (eqb_str k x) eqn:Ek.
  - apply eqb_str_eq in Ek. subst. exists [], l. split; [reflexivity | intros []].
  - apply eqb_str_neq in Ek. destruct H as [-> | H]; [contradiction|].
    destruct (IH H) as [pre [post [-> Hn]]]. exists (k :: pre), post.
    split; [reflexivity|]. intros [E | E]; [now subst | contradiction].
Qed.

(** Without forced fields the header has no repeated column, and all its
    columns are columns of [blank_fill]. *)
Lemma header_columns (d info tags : dict) :
  structural_rules (JObj d) -> lookup (py "info") d = Some (JObj info) ->
  force_keys (JObj d) = [] ->
  CSV_labels (JObj d) = Ok tags \/ XML_labels (JObj d) = Ok tags ->
  NoDup (_generateFirstRow tags) /\ incl (_generateFirstRow tags) LABELS.
Proof.
  intros R Hinfo Hf Ht.
  pose proof (label_keys_NoDup (JObj d) tags Ht) as ND.
  assert (Src : forall k, In k (keys tags) ->
            In k FIELD_LABEL /\
            ((has_key k info = true /\ ~ In k ADDR_FIELD_LABEL) \/
             (In k ADDR_FIELD_LABEL /\ address_locator info k <> None))).
  { intros k Hk. destruct (label_key_source d info tags k R Hinfo Ht Hk) as [F [S | [A S]]].
    - auto.
    - split; [exact F|]. right. split; [exact A|].
      destruct S as [S | S]; [exact S | rewrite Hf in S; destruct S]. }
  destruct (mem_str full_addr (keys tags)) eqn:E.
  - apply mem_str_In in E.
    destruct (first_occurrence _ _ E) as [pre [post [K Hn]]].
    rewrite (generateFirstRow_expand tags pre post K Hn).
    assert (NoAddr : forall a, In a ADDR_FIELD_LABEL -> ~ In a (keys tags)).
    { intros a Ha Hin. destruct (Src a Hin) as [_ [[_ N] | [_ N]]]; [contradiction|].
      apply N. unfold address_locator.
      destruct (Src full_addr E) as [_ [[Hi _] | [A _]]].
      - destruct (address_group info) as [g|] eqn:Eg; [| reflexivity]. exfalso.
        destruct R as [fmt [file [info' [_ [_ [Hi' [_ [_ [_ [Hboth _]]]]]]]]]].
        cbn [tag] in Hi'. rewrite Hinfo in Hi'. injection Hi' as <-.
        apply Hboth. split.
        + apply has_key_In. rewrite has_key_lookup. fold (address_group info).
          now rewrite Eg.
        + now apply has_key_In.
      - apply mem_str_In in A. vm_compute in A. discriminate. }
    rewrite K in ND, NoAddr, Src. apply NoDup_remove in ND as [ND Hfa].
    split.
    + assert (ND1 : NoDup pre) by now apply NoDup_app_remove_r in ND.
      assert (ND2 : NoDup post) by now apply NoDup_app_remove_l in ND.
      apply NoDup_app; [exact ND1 | |].
      * apply NoDup_app; [apply ADDR_FIELD_LABEL_NoDup | exact ND2 |].
        intros a Ha Hp. apply (NoAddr a Ha). apply in_or_app. right. now right.
      * intros a Ha Hin. apply in_app_or in Hin as [Hin | Hin].
        -- apply (NoAddr a Hin). apply in_or_app. now left.
        -- revert Ha Hin. clear -ND. induction pre as [|x pre IH]; [intros []|].
           cbn [app] in ND. inversion ND as [|? ? Hx ND']; subst.
           intros [-> | Ha] Hin; [apply Hx; apply in_or_app; now right | now apply IH].
    + intros k Hk. apply LABELS_In.
      apply in_app_or in Hk as [Hk | Hk]; [| apply in_app_or in Hk as [Hk | Hk]].
      * split; [apply Src, in_or_app; now left|]. intros ->. contradiction.
      * split; [now apply address_labels_are_fields|]. intros ->.
        apply mem_str_In in Hk. vm_compute in Hk. discriminate.
      * split; [apply Src, in_or_app; right; now right|]. intros ->.
        apply Hfa. apply in_or_app. now right.
  - apply mem_str_not_In in E. rewrite (generateFirstRow_plain tags E).
    split; [exact ND|]. intros k Hk. apply LABELS_In.
    split; [now apply Src|]. intros ->. contradiction.
Qed.

Lemma row2write_by_name (h r : row) (j : nat) (col : pystr) :
  NoDup h -> nth_error h j = Some col -> In col LABELS ->
  exists i, nth_error LABELS i = Some col /\
            nth_error (row2write (DictReader_record h r)) i = Some (nth j r []).
Proof.
  intros ND Hj Hin. apply In_nth_error in Hin as [i Hi]. exists i.
  split; [exact Hi|]. rewrite (row2write_cells h r ND), nth_error_map, Hi.
  cbn [option_map]. now rewrite (list_index_nth h j col ND Hj).
Qed.

Lemma row2write_absent (h r : row) (i : nat) (col : pystr) :
  NoDup h -> nth_error LABELS i = Some col -> ~ In col h ->
  nth_error (row2write (DictReader_record h r)) i = Some [].
Proof.
  intros ND Hi Hn. rewrite (row2write_cells h r ND), nth_error_map, Hi.
  cbn [option_map]. destruct (list_index col h) as [j|] eqn:E; [| reflexivity].
  apply list_index_Some in E as [E _]. apply nth_error_In in E. contradiction.
Qed.

(** ** Records read from the rows [format_correction] writes *)




(** ** The blank-fill pass *)



(** X15.  [blank_fill] places the cells by field name.  For a clean file
    whose first row has no repeated name, the row written for a record
    holds, under each standard field name that is a column of the file,
    the record's cell of that column (the empty string when the row is too
    short to reach it), and the empty string under every standard field
    name the file lacks.  Columns of the file that are no standard field
    name, and cells beyond the first row's width, are not written. *)
Theorem blank_fill_places_cells_by_field_name (h r : row) :
  NoDup h ->
  (forall j col,
     nth_error h j = Some col -> In col LABELS ->
     exists i, nth_error LABELS i = Some col /\
               nth_error (row2write (DictReader_record h r)) i = Some (nth j r [])) /\
  (forall i col,
     nth_error LABELS i = Some col -> ~ In col h ->
     nth_error (row2write (DictReader_record h r)) i = Some []) /\
  row2write (DictReader_record h r) =
    map (fun col => match list_index col h with
                    | Some j => nth j r []
                    | None => []
                    end) LABELS /\
  length (row2write (DictReader_record h r)) = 53.
Proof.
  intros ND. split; [| split; [| split]].
  - intros j col. now apply row2write_by_name.
  - intros i col. now apply row2write_absent.
  - now apply row2write_cells.
  - apply row2write_length.
Qed.

(** A clean file with the columns city, extra and bus_name, and a row
    that is one cell short. *)
Lemma blank_fill_cells_sample :
  nth_error (row2write (DictReader_record [py "city"; py "note"; py "bus_name"]
                          [py "ottawa"; py "n/a"])) 0 = Some [] /\
  nth_error (row2write (DictReader_record [py "city"; py "note"; py "bus_name"]
                          [py "ottawa"; py "n/a"])) 14 = Some (py "ottawa") /\
  nth_error LABELS 14 = Some (py "city") /\
  ~ In (py "note") LABELS.
Proof.
  destruct (blank_fill_places_cells_by_field_name [py "city"; py "note"; py "bus_name"]
              [py "ottawa"; py "n/a"]) as [_ [_ [E _]]].
  - apply nodupb_NoDup. reflexivity.
  - rewrite E. split; [reflexivity|]. split; [reflexivity|]. split; [reflexivity|].
    intros H. apply mem_str_In in H. vm_compute in H. discriminate.
Defined.

(** X16.  [blank_fill] is idempotent: run on the file it has written, it
    writes the same rows again. *)
Theorem blank_fill_is_idempotent (source : Source) (rows : list row) :
  let out := LABELS :: map row2write (DictReader rows) in
  LABELS :: map row2write (DictReader out) = out /\
  blank_fill source out = blank_fill source rows.
Proof.
  intros out.
  assert (E : map row2write (DictReader out) = map row2write (DictReader rows)).
  { subst out. apply blank_fill_rows_fixed. apply Forall_forall. intros r Hr.
    apply in_map_iff in Hr as [d [<- _]]. apply row2write_length. }
  split; [subst out; now rewrite E|].
  unfold blank_fill. destruct (cleanpath source) as [clean|]; [| reflexivity].
  cbv zeta. rewrite <- !(map_map row2write). now rewrite E.
Qed.

(** X17.  [blank_fill] loses nothing of a transform's output.  For a
    validated document without forced fields, the header row of either
    transform has no repeated column and only standard field names other
    than [full_addr]; so every cell of a data row is written again by
    [blank_fill], under the same column name. *)
Theorem blank_fill_keeps_every_transformed_column (md : json) (tags : dict) :
  validate md = Ok tt ->
  force_keys md = [] ->
  CSV_labels md = Ok tags \/ XML_labels md = Ok tags ->
  NoDup (_generateFirstRow tags) /\
  incl (_generateFirstRow tags) LABELS /\
  (forall r j col,
     nth_error (_generateFirstRow tags) j = Some col ->
     exists i, nth_error LABELS i = Some col /\
               nth_error (row2write (DictReader_record (_generateFirstRow tags) r)) i =
               Some (nth j r [])).
Proof.
  intros Hv Hf Ht. pose proof (validate_rules md Hv) as R.
  assert (I : exists info, tag md (py "info") = Some (JObj info)).
  { destruct R as [fmt [file [info [_ [_ [Hi _]]]]]]. eauto. }
  destruct I as [info Hinfo].
  destruct md as [ | | | | | d]; try discriminate. cbn [tag] in Hinfo.
  destruct (header_columns d info tags R Hinfo Hf Ht) as [ND Sub].
  split; [exact ND|]. split; [exact Sub|].
  intros r j col Hj. apply row2write_by_name; [exact ND | exact Hj|].
  apply Sub. now apply nth_error_In in Hj.
Qed.

(** The document with [full_addr]: eight columns, each found again. *)
Lemma blank_fill_after_transform_sample :
  _generateFirstRow
    [(py "bus_name", JStr (py "Name")); (py "full_addr", JStr (py "Addr"))] =
    [py "bus_name"; py "unit"; py "house_number"; py "road"; py "city"; py "prov";
     py "country"; py "postcode"] /\
  exists i,
    nth_error LABELS i = Some (py "road") /\
    nth_error
      (row2write
         (DictReader_record
            (_generateFirstRow
               [(py "bus_name", JStr (py "Name")); (py "full_addr", JStr (py "Addr"))])
            [py "acme"; []; py "123"; py "main st"; py "springfield"; []; []; []])) i =
    Some (py "main st").
Proof.
  split; [reflexivity|].
  destruct (blank_fill_keeps_every_transformed_column md_csv_addr
              [(py "bus_name", JStr (py "Name")); (py "full_addr", JStr (py "Addr"))])
    as [_ [_ C]]; [vm_compute; reflexivity | reflexivity | left; vm_compute; reflexivity |].
  apply (C [py "acme"; []; py "123"; py "main st"; py "springfield"; []; []; []]
           3 (py "road")).
  reflexivity.
Defined.

(** ** Records of the intermediate file *)


Example short_row_without_padding :
  map rec_fields (DictReader [[py "name"; py "city"]; [py "acme"]]) =
    [[(py "name", Some (py "acme")); (py "city", None)]] /\
  map rec_fields (DictReader (fst (format_correction [[py "name"; py "city"]; [py "acme"]])))
    = [[(py "name", Some (py "acme")); (py "city", Some [])]].
Proof. split; vm_compute; reflexivity. Qed.

(** ** [DataProcess.process], step by step *)

Lemma char_encode_check_label_map (decodes : pystr -> pystr -> bool) (s : Source)
    (m : dict) :
  char_encode_check decodes (set_label_map s m) = char_encode_check decodes s.
Proof. reflexivity. Qed.

Lemma validated_format (md : json) :
  validate md = Ok tt ->
  tag md (py "format") = Some (JStr (py "csv")) \/
  tag md (py "format") = Some (JStr (py "xml")) /\
  exists h, tag md (py "header") = Some (JStr h).
Proof.
  intros Hv. destruct (validate_rules md Hv)
    as [fmt [file [info [Hf [_ [_ [[-> | ->] [Hh _]]]]]]]]; [now left|].
  right. split; [exact Hf | now apply Hh].
Qed.

Lemma tag_getitem (md : json) (k : pystr) (v : json) :
  tag md k = Some v -> py_getitem md k = Ok v.
Proof. destruct md; try discriminate. apply getitem_lookup. Qed.

(** Without an address parser the first step raises, and nothing follows. *)
Lemma process_no_parser (bytes_decode : list N -> result pystr)
    (unicode_lower : pystr -> pystr) (decodes : pystr -> pystr -> bool)
    (element : Type) (find : element -> pystr -> option element)
    (text : element -> option pystr) (raw_rows : list row) (entities : list entity)
    (elements : list element) (self : DataProcess) :
  dp_address_parser self = None ->
  exists e,
    process bytes_decode unicode_lower decodes find text raw_rows entities elements self =
    ([], Raise e, self) /\
    (forall src, source self = Some src ->
       tag (metadata src) (py "format") = Some (JStr (py "csv")) \/
       tag (metadata src) (py "format") = Some (JStr (py "xml")) ->
       e = AttributeError).
Proof.
  intros Hp. unfold process, prepareData. rewrite Hp.
  destruct (source self) as [src|].
  2:{ exists AttributeError. split; [reflexivity | discriminate]. }
  destruct (py_getitem (metadata src) (py "format")) as [fmt|e] eqn:G.
  - destruct (eq_lit fmt (py "csv")) eqn:C.
    + exists AttributeError. split; [reflexivity | reflexivity].
    + destruct (eq_lit fmt (py "xml")) eqn:X.
      * exists AttributeError. split; [reflexivity | reflexivity].
      * exists NameError. split; [reflexivity|].
        intros src' [= <-] [H | H]; rewrite (tag_getitem _ _ _ H) in G;
          injection G as <-; discriminate.
  - exists e. split; [reflexivity|].
    intros src' [= <-] [H | H]; rewrite (tag_getitem _ _ _ H) in G; discriminate.
Qed.


Lemma records_elsewhere (p q : pystr) (evs : list event) :
  q <> p ->
  Forall (fun ev => (exists r, ev = Writerow q r) \/ (exists loc, ev = Report loc)) evs ->
  Forall (fun ev => touches p ev = false) evs.
Proof.
  intros Hq H. apply Forall_forall. intros ev Hin. rewrite Forall_forall in H.
  destruct (H ev Hin) as [[r ->] | [loc ->]]; cbn [touches]; [| reflexivity].
  now apply eqb_str_neq.
Qed.

Lemma rows_elsewhere (p q : pystr) (evs : list event) :
  q <> p ->
  Forall (fun ev => exists r, ev = Writerow q r) evs ->
  Forall (fun ev => touches p ev = false) evs.
Proof.
  intros Hq H. apply (records_elsewhere p q evs Hq).
  apply Forall_forall. intros ev Hin. rewrite Forall_forall in H. left. now apply H.
Qed.

Lemma writes_elsewhere (p q : pystr) (rows : list row) :
  q <> p -> Forall (fun ev => touches p ev = false) (map (Writerow q) rows).
Proof.
  intros Hq. apply (rows_elsewhere p q _ Hq). apply Forall_forall. intros ev Hin.
  apply in_map_iff in Hin as [r [<- _]]. eauto.
Qed.



Lemma replay_rename (src dst p : pystr) (evs : list event) (fs : store) :
  replay fs (evs ++ [Rename src dst]) p =
  if eqb_str p src then None
  else if eqb_str p dst then replay fs evs src else replay fs evs p.
Proof.
  rewrite replay_app. cbn [replay fold_left apply_event]. unfold upd.
  reflexivity.
Qed.






Section ProcessSteps.
Variable bytes_decode : list N -> result pystr.
Variable unicode_lower : pystr -> pystr.
Variable decodes : pystr -> pystr -> bool.
Variable element : Type.
Variable find : element -> pystr -> option element.
Variable text : element -> option pystr.
Variable raw_rows : list row.
Variable entities : list entity.
Variable elements : list element.
Variable md : json.
Variable file : pystr.
Variable parser : pystr -> list (pystr * pystr).
Variable given : option Algorithm.
Hypothesis Hvalid : validate md = Ok tt.
Hypothesis Hfile : tag md (py "file") = Some (JStr file).

#[local] Abbreviation src0 :=
  (mkSource md (Some (raw_of file)) (Some (dirty_of file)) (Some (clean_of file)) None).
#[local] Abbreviation self0 := (mkDataProcess (Some src0) (Some parser) given).
#[local] Abbreviation dirty := (dirty_of file).
#[local] Abbreviation temp := (dirty_of file ++ py "-temp").
#[local] Abbreviation process' :=
  (process bytes_decode unicode_lower decodes find text raw_rows entities elements).

Lemma start_object :
  DataProcess_init (Some (validated md)) (Some parser) given = self0.
Proof. unfold DataProcess_init. now rewrite (validated_paths md file Hvalid Hfile). Qed.

(** The run on a CSV document. *)
Lemma process_csv :
  tag md (py "format") = Some (JStr (py "csv")) ->
  process' self0 =
  match char_encode_check decodes src0 with
  | Raise e => ([], Raise e, self0)
  | Ok _ =>
      match format_correction raw_rows with
      | (rows, Raise e) => (Open_w dirty :: map (Writerow dirty) rows, Raise e, self0)
      | (rows, Ok _) =>
          let alg := mkAlgorithm CSV_Algorithm parser in
          match CSV_labels md with
          | Raise e =>
              (Open_w dirty :: map (Writerow dirty) rows, Raise e,
               mkDataProcess (Some src0) (Some parser) (Some alg))
          | Ok tags =>
              let self1 :=
                mkDataProcess (Some (set_label_map src0 tags)) (Some parser) (Some alg) in
              match csv_records bytes_decode unicode_lower parser tags temp entities with
              | (evs, Raise e) =>
                  ((Open_w dirty :: map (Writerow dirty) rows) ++
                   Open_w temp :: Writerow temp (_generateFirstRow tags) :: evs,
                   Raise e, self1)
              | (evs, Ok _) =>
                  ((Open_w dirty :: map (Writerow dirty) rows) ++
                   (Open_w temp :: Writerow temp (_generateFirstRow tags) :: evs ++
                    [Rename temp dirty]) ++ [Rename dirty (clean_of file)],
                   Ok tt, self1)
              end
          end
      end
  end.
Proof.
  intros Hfmt. unfold process, prepareData. cbn [source metadata dp_address_parser].
  rewrite (tag_getitem md _ _ Hfmt).
  change (eq_lit (JStr (py "csv")) (py "csv")) with true. cbv iota.
  destruct (char_encode_check decodes src0) as [enc|e] eqn:Enc; [| reflexivity].
  unfold CSV_format_correction. cbn [rawpath dirtypath].
  destruct (format_correction raw_rows) as [rows [[]|e]]; [| reflexivity].
  cbn [and_then extractLabels algorithm set_algorithm source class_of dp_address_parser].
  unfold CSV_extract_labels. cbn [metadata].
  destruct (CSV_labels md) as [tags|e].
  2:{ cbn [and_then set_source dp_address_parser algorithm set_algorithm source].
      now rewrite app_nil_r. }
  cbn [and_then set_source dp_address_parser algorithm set_algorithm source
       DataProcess_parse class_of address_parser].
  unfold set_label_map. cbn [metadata rawpath dirtypath cleanpath].
  rewrite (CSV_parse_body bytes_decode unicode_lower parser decodes md
             (Some (raw_of file)) (Some (clean_of file)) dirty tags entities
             (JStr file) enc (tag_getitem md _ _ Hfile) Enc).
  destruct (csv_records bytes_decode unicode_lower parser tags temp entities)
    as [evs [[]|e]]; cbn [fst snd and_then].
  - cbv [DataProcess_clean set_source set_algorithm algorithm source clean dirtypath
         cleanpath dp_address_parser].
    rewrite ?app_nil_r, <- ?app_assoc. reflexivity.
  - cbv [set_source set_algorithm algorithm source dp_address_parser].
    rewrite ?app_nil_r, <- ?app_assoc. reflexivity.
Qed.

(** The run on an XML document. *)
Lemma process_xml (h : pystr) :
  tag md (py "format") = Some (JStr (py "xml")) ->
  tag md (py "header") = Some (JStr h) ->
  process' self0 =
  let alg := mkAlgorithm XML_Algorithm parser in
  match XML_labels md with
  | Raise e => ([], Raise e, mkDataProcess (Some src0) (Some parser) (Some alg))
  | Ok tags =>
      let self1 :=
        mkDataProcess (Some (set_label_map src0 tags)) (Some parser) (Some alg) in
      match char_encode_check decodes src0 with
      | Raise e => ([], Raise e, self1)
      | Ok _ =>
          match xml_records bytes_decode unicode_lower parser find text tags dirty
                  elements with
          | (evs, Raise e) =>
              (Open_w dirty :: Writerow dirty (_generateFirstRow tags) :: evs,
               Raise e, self1)
          | (evs, Ok _) =>
              ((Open_w dirty :: Writerow dirty (_generateFirstRow tags) :: evs) ++
               [Rename dirty (clean_of file)], Ok tt, self1)
          end
      end
  end.
Proof.
  intros Hfmt Hh. unfold process, prepareData. cbn [source metadata dp_address_parser].
  rewrite (tag_getitem md _ _ Hfmt).
  change (eq_lit (JStr (py "xml")) (py "csv")) with false.
  change (eq_lit (JStr (py "xml")) (py "xml")) with true. cbv iota.
  cbn [and_then extractLabels algorithm set_algorithm source class_of dp_address_parser].
  unfold XML_extract_labels. cbn [metadata].
  destruct (XML_labels md) as [tags|e].
  2:{ cbn [and_then set_source dp_address_parser algorithm set_algorithm source].
      reflexivity. }
  cbn [and_then set_source dp_address_parser algorithm set_algorithm source
       DataProcess_parse class_of address_parser].
  unfold set_label_map. cbn [metadata rawpath dirtypath cleanpath].
  destruct (char_encode_check decodes src0) as [enc|e] eqn:Enc.
  - rewrite (XML_parse_body bytes_decode unicode_lower parser decodes element find text md
               (Some (raw_of file)) (Some (clean_of file)) dirty tags elements
               (JStr file) (JStr h) enc (tag_getitem md _ _ Hfile)
               (tag_getitem md _ _ Hh) Enc).
    destruct (xml_records bytes_decode unicode_lower parser find text tags dirty elements)
      as [evs [[]|e]]; cbn [fst snd and_then].
    + cbv [DataProcess_clean set_source set_algorithm algorithm source clean dirtypath
           cleanpath dp_address_parser].
      rewrite ?app_nil_r, <- ?app_assoc. reflexivity.
    + cbv [set_source set_algorithm algorithm source dp_address_parser].
      rewrite ?app_nil_r, <- ?app_assoc. reflexivity.
  - unfold XML_parse. cbn [metadata].
    rewrite (tag_getitem md _ _ Hfile), (tag_getitem md _ _ Hh).
    change (char_encode_check decodes
              (mkSource md (Some (raw_of file)) (Some dirty) (Some (clean_of file))
                 (Some tags)))
      with (char_encode_check decodes src0).
    rewrite Enc. reflexivity.
Qed.
(** Apart from the intermediate file and its sibling, a run touches one
    path: the clean one, by the last rename of a run that returns. *)
Lemma process_trace (p : pystr) :
  p <> dirty -> p <> temp ->
  exists pre,
    Forall (fun ev => touches p ev = false) pre /\
    ((exists e, result_of (process' self0) = Raise e /\ events_of (process' self0) = pre) \/
     (result_of (process' self0) = Ok tt /\
      events_of (process' self0) = pre ++ [Rename dirty (clean_of file)])).
Proof.
  intros Hd Ht.
  assert (Ed : eqb_str dirty p = false) by (apply eqb_str_neq; congruence).
  assert (Et : eqb_str temp p = false) by (apply eqb_str_neq; congruence).
  assert (D : forall rows,
             Forall (fun ev => touches p ev = false)
               (Open_w dirty :: map (Writerow dirty) rows)).
  { intros rows. constructor; [exact Ed | apply writes_elsewhere; congruence]. }
  destruct (validated_format md Hvalid) as [Hc | [Hx [h Hh]]].
  - rewrite (process_csv Hc).
    destruct (char_encode_check decodes src0) as [enc|e].
    2:{ exists []. split; [constructor|]. left. exists e. split; reflexivity. }
    destruct (format_correction raw_rows) as [rows [[]|e]].
    2:{ exists (Open_w dirty :: map (Writerow dirty) rows). split; [apply D|].
        left. exists e. split; reflexivity. }
    cbv zeta. destruct (CSV_labels md) as [tags|e].
    2:{ exists (Open_w dirty :: map (Writerow dirty) rows). split; [apply D|].
        left. exists e. split; reflexivity. }
    pose proof (csv_records_events bytes_decode unicode_lower parser tags temp entities)
      as Hev.
    destruct (csv_records bytes_decode unicode_lower parser tags temp entities)
      as [evs [[]|e]]; cbn [fst] in Hev.
    + exists ((Open_w dirty :: map (Writerow dirty) rows) ++
              Open_w temp :: Writerow temp (_generateFirstRow tags) :: evs ++
              [Rename temp dirty]).
      split.
      * apply Forall_app. split; [apply D|].
        constructor; [exact Et|]. constructor; [exact Et|].
        apply Forall_app. split.
        -- apply (records_elsewhere p temp evs); [congruence | exact Hev].
        -- constructor; [| constructor]. cbn [touches]. now rewrite Et, Ed.
      * right. split; [reflexivity|]. unfold events_of. cbn [fst].
        now rewrite <- app_assoc.
    + exists ((Open_w dirty :: map (Writerow dirty) rows) ++
              Open_w temp :: Writerow temp (_generateFirstRow tags) :: evs).
      split.
      * apply Forall_app. split; [apply D|].
        constructor; [exact Et|]. constructor; [exact Et|].
        apply (records_elsewhere p temp evs); [congruence | exact Hev].
      * left. exists e. split; reflexivity.
  - rewrite (process_xml h Hx Hh). cbv zeta.
    destruct (XML_labels md) as [tags|e].
    2:{ exists []. split; [constructor|]. left. exists e. split; reflexivity. }
    destruct (char_encode_check decodes src0) as [enc|e].
    2:{ exists []. split; [constructor|]. left. exists e. split; reflexivity. }
    pose proof (xml_records_events bytes_decode unicode_lower parser element find text
                  tags dirty elements) as Hev.
    destruct (xml_records bytes_decode unicode_lower parser find text tags dirty elements)
      as [evs [[]|e]]; cbn [fst] in Hev.
    + exists (Open_w dirty :: Writerow dirty (_generateFirstRow tags) :: evs).
      split.
      * constructor; [exact Ed|]. constructor; [exact Ed|].
        apply (rows_elsewhere p dirty evs); [congruence | exact Hev].
      * right. split; reflexivity.
    + exists (Open_w dirty :: Writerow dirty (_generateFirstRow tags) :: evs).
      split.
      * constructor; [exact Ed|]. constructor; [exact Ed|].
        apply (rows_elsewhere p dirty evs); [congruence | exact Hev].
      * left. exists e. split; reflexivity.
Qed.
End ProcessSteps.

(* lemmas *)

(** ** [DataProcess.process] on the files *)

Section ProcessRuns.
Variable bytes_decode : list N -> result pystr.
Variable unicode_lower : pystr -> pystr.
Variable decodes : pystr -> pystr -> bool.
Variable element : Type.
Variable find : element -> pystr -> option element.
Variable text : element -> option pystr.
Variable raw_rows : list row.
Variable entities : list entity.
Variable elements : list element.

#[local] Abbreviation process' :=
  (process bytes_decode unicode_lower decodes find text raw_rows entities elements).

(** X19.  An object built without an address parser cannot be run:
    [process] raises in its first step, before any file is opened, and
    leaves the object as it was.  For a source whose format is csv or xml
    the exception is the [AttributeError] of the attribute
    [dp_address_parser], which [__init__] never set. *)
Theorem process_without_address_parser_raises (self : DataProcess) :
  dp_address_parser self = None ->
  exists e,
    process' self = ([], Raise e, self) /\
    (forall src, source self = Some src ->
       tag (metadata src) (py "format") = Some (JStr (py "csv")) \/
       tag (metadata src) (py "format") = Some (JStr (py "xml")) ->
       e = AttributeError).
Proof.
  intros Hp.
  exact (process_no_parser bytes_decode unicode_lower decodes element find text
           raw_rows entities elements self Hp).
Qed.

(** X20.  Whatever the run does, on a validated document it leaves the raw
    dataset and every path other than the intermediate file, its temporary
    sibling and the clean file as they were; a run that raises leaves the
    clean file as it was too, and a run that returns leaves no
    intermediate file behind. *)
Theorem process_spares_raw_and_failed_run_spares_clean
    (md : json) (file : pystr) (parser : option (pystr -> list (pystr * pystr)))
    (given : option Algorithm) (fs : store) :
  validate md = Ok tt ->
  tag md (py "file") = Some (JStr file) ->
  let run := process' (DataProcess_init (Some (validated md)) parser given) in
  let after := replay fs (events_of run) in
  after (raw_of file) = fs (raw_of file) /\
  (forall p, p <> dirty_of file -> p <> dirty_of file ++ py "-temp" ->
             p <> clean_of file -> after p = fs p) /\
  (forall e, result_of run = Raise e -> after (clean_of file) = fs (clean_of file)) /\
  (result_of run = Ok tt -> after (dirty_of file) = None).
Proof.
  intros Hv Hf run after.
  destruct (raw_dirty_clean_prefix file file file) as [RD [RC [DC [RT CT]]]].
  assert (Else : forall p, p <> dirty_of file -> p <> dirty_of file ++ py "-temp" ->
                   (p <> clean_of file \/ exists e, result_of run = Raise e) ->
                   after p = fs p).
  { intros p Hd Ht Hc. subst after run. destruct parser as [parser|].
    - rewrite (start_object md file parser given Hv Hf) in *.
      destruct (process_trace bytes_decode unicode_lower decodes element find text
                  raw_rows entities elements md file parser given Hv Hf p Hd Ht)
        as [pre [Hpre [[e [_ ->]] | [Hok ->]]]].
      + now apply replay_untouched.
      + rewrite replay_rename.
        replace (eqb_str p (dirty_of file)) with false
          by (symmetry; now apply eqb_str_neq).
        destruct Hc as [Hc | [e He]]; [| rewrite Hok in He; discriminate].
        replace (eqb_str p (clean_of file)) with false
          by (symmetry; now apply eqb_str_neq).
        now apply replay_untouched.
    - destruct (process_no_parser bytes_decode unicode_lower decodes element find text
                  raw_rows entities elements
                  (DataProcess_init (Some (validated md)) None given) eq_refl)
        as [e [-> _]].
      reflexivity. }
  split; [| split; [| split]].
  - apply Else; auto.
  - intros p Hd Ht Hc. apply Else; auto.
  - intros e He. apply Else; eauto.
  - intros Hok. subst after run. destruct parser as [parser|].
    + rewrite (start_object md file parser given Hv Hf) in *.
      destruct (process_trace bytes_decode unicode_lower decodes element find text
                  raw_rows entities elements md file parser given Hv Hf (raw_of file) RD RT)
        as [pre [_ [[e [He _]] | [_ ->]]]]; [rewrite Hok in He; discriminate|].
      rewrite replay_rename. now rewrite eqb_str_refl.
    + destruct (process_no_parser bytes_decode unicode_lower decodes element find text
                  raw_rows entities elements
                  (DataProcess_init (Some (validated md)) None given) eq_refl)
        as [e [E _]].
      rewrite E in Hok. discriminate.
Qed.

(** X21.  A validated document whose encoding cannot be settled is never
    transformed: when [char_encode_check] raises, [process] raises without
    a single file event, for a CSV document with the exception of
    [char_encode_check], for an XML document with that one or the one
    [extract_labels] raised before it.  A document that declares an
    encoding is such a document, with [AttributeError]. *)
Theorem process_writes_nothing_without_an_encoding
    (md : json) (parser : pystr -> list (pystr * pystr))
    (given : option Algorithm) (e : exn) :
  validate md = Ok tt ->
  char_encode_check decodes (validated md) = Raise e ->
  let run := process' (DataProcess_init (Some (validated md)) (Some parser) given) in
  events_of run = [] /\
  (tag md (py "format") = Some (JStr (py "csv")) -> result_of run = Raise e) /\
  (tag md (py "format") = Some (JStr (py "xml")) ->
   match XML_labels md with
   | Ok _ => result_of run = Raise e
   | Raise e' => result_of run = Raise e'
   end) /\
  (In (py "encoding") (dict_keys md) -> e = AttributeError).
Proof.
  intros Hv He run. subst run.
  assert (F : exists file, tag md (py "file") = Some (JStr file)).
  { destruct (validate_rules md Hv) as [fmt [file [info [_ [Hf _]]]]]. eauto. }
  destruct F as [file Hf].
  rewrite (start_object md file parser given Hv Hf).
  rewrite (validated_paths md file Hv Hf) in He.
  split; [| split; [| split]].
  - destruct (validated_format md Hv) as [Hc | [Hx [h Hh]]].
    + rewrite (process_csv bytes_decode unicode_lower decodes element find text
                 raw_rows entities elements md file parser given Hf Hc), He.
      reflexivity.
    + rewrite (process_xml bytes_decode unicode_lower decodes element find text
                 raw_rows entities elements md file parser given Hf h Hx Hh).
      cbv zeta. rewrite He. now destruct (XML_labels md).
  - intros Hc.
    rewrite (process_csv bytes_decode unicode_lower decodes element find text
               raw_rows entities elements md file parser given Hf Hc), He.
    reflexivity.
  - intros Hx. destruct (validated_format md Hv) as [Hc | [_ [h Hh]]];
      [rewrite Hc in Hx; vm_compute in Hx; discriminate|].
    rewrite (process_xml bytes_decode unicode_lower decodes element find text
               raw_rows entities elements md file parser given Hf h Hx Hh).
    cbv zeta. rewrite He. now destruct (XML_labels md).
  - intros Hin. unfold char_encode_check in He. cbn [metadata] in He.
    destruct md as [ | | | | | d]; try discriminate. cbn [dict_keys] in Hin.
    apply has_key_In in Hin. cbn [py_in bind] in He. rewrite Hin in He.
    cbn in He. congruence.
Qed.



(** X24.  The algorithm handed to the constructor plays no part in a run:
    [prepareData] never reads it and replaces it by the one it creates, so
    two objects that differ only in it perform the same file effects and
    end the same way, and are the same object after a run that returns. *)
Theorem process_ignores_the_given_algorithm
    (s : option Source) (p : option (pystr -> list (pystr * pystr)))
    (g1 g2 : option Algorithm) :
  let run1 := process' (DataProcess_init s p g1) in
  let run2 := process' (DataProcess_init s p g2) in
  events_of run1 = events_of run2 /\
  result_of run1 = result_of run2 /\
  source (object_of run1) = source (object_of run2) /\
  (result_of run1 = Ok tt -> object_of run1 = object_of run2).
Proof.
  cbv zeta. unfold process, prepareData, DataProcess_init.
  cbn [source dp_address_parser].
  destruct s as [src|]; [| repeat split; discriminate].
  destruct (py_getitem (metadata src) (py "format")) as [fmt|e];
    [| repeat split; discriminate].
  destruct (eq_lit fmt (py "csv")).
  - destruct p as [parser|]; [| repeat split; discriminate].
    destruct (char_encode_check decodes src) as [enc|e]; [| repeat split; discriminate].
    destruct (CSV_format_correction raw_rows src) as [evs [[]|e]];
      [| repeat split; discriminate].
    repeat split.
  - destruct (eq_lit fmt (py "xml")); [| repeat split; discriminate].
    destruct p as [parser|]; [| repeat split; discriminate].
    repeat split.
Qed.
End ProcessRuns.

Lemma process_without_address_parser_sample :
  exists e,
    process sample_decode sample_lower sample_decodes sample_find sample_text
      rows_bom records_name elements_name
      (DataProcess_init (Some (validated md_csv_name)) None None) =
    ([], Raise e, DataProcess_init (Some (validated md_csv_name)) None None) /\
    e = AttributeError.
Proof.
  destruct (process_without_address_parser_raises sample_decode sample_lower
              sample_decodes xml sample_find sample_text rows_bom records_name
              elements_name (DataProcess_init (Some (validated md_csv_name)) None None)
              eq_refl) as [e [E H]].
  exists e. split; [exact E|].
  apply (H (validated md_csv_name)); [reflexivity | left; vm_compute; reflexivity].
Defined.

Lemma process_spares_raw_sample :
  let run :=
    process sample_decode sample_lower sample_decodes sample_find sample_text
      rows_bom records_name elements_name
      (DataProcess_init (Some (validated md_csv_name)) (Some sample_parser) None) in
  replay (fs_with_dirty []) (events_of run) (raw_of (py "d.csv")) = None /\
  replay (fs_with_dirty []) (events_of run) (dirty_of (py "d.csv")) = None.
Proof.
  destruct (process_spares_raw_and_failed_run_spares_clean sample_decode sample_lower
              sample_decodes xml sample_find sample_text rows_bom records_name
              elements_name md_csv_name (py "d.csv") (Some sample_parser) None
              (fs_with_dirty []))
    as [A [_ [_ D]]]; [vm_compute; reflexivity | reflexivity |].
  split; [exact A | apply D; vm_compute; reflexivity].
Defined.

Lemma process_declared_encoding_sample :
  let run :=
    process sample_decode sample_lower sample_decodes sample_find sample_text
      rows_bom records_name elements_name
      (DataProcess_init (Some (validated md_csv_utf8)) (Some sample_parser) None) in
  events_of run = [] /\ result_of run = Raise AttributeError.
Proof.
  destruct (process_writes_nothing_without_an_encoding sample_decode sample_lower
              sample_decodes xml sample_find sample_text rows_bom records_name
              elements_name md_csv_utf8 sample_parser None AttributeError)
    as [A [B _]]; [vm_compute; reflexivity | vm_compute; reflexivity |].
  split; [exact A | apply B; reflexivity].
Defined.



(** ** From the raw rows to the rows of the records *)











